(** * Meteora wallet metrics: the per-wallet analysis pipeline

    A shallow embedding of the command-line tool [meteora.py] and of the
    chat-bot pipelines [meteora-telegram-bot.py] and
    [meteora-telegram-bot-v3.py], with their start-up code (endpoint files,
    blacklist), the endpoint rotation of the third bot, the report name and
    the parsing of a message into wallets.  Python functions become
    Rocq functions with the same names; exceptions are an explicit [outcome];
    the mutable metrics dictionary, the processor object and the endpoint
    manager are threaded through a small state-and-exception monad; the
    network (Solana RPC, Helius asset search, the Meteora earnings endpoint)
    and the host (files, environment, clock) are records of oracles, so that
    every theorem holds for every behaviour of the collaborators. *)

From Stdlib Require Import ZArith String Ascii List Floats Lia.
From stdpp Require Import base option list gmap sets strings pretty.

Set Warnings "-inexact-float,-register-all,-clear-no-such-hyp".
Local Open Scope Z_scope.

(** ** Exceptions and the two monads *)

(** The Python exception classes that occur in the modelled code.  All of
    them derive from [Exception], so a clause [except Exception] catches
    each of them. *)
Inductive exn : Set :=
| RequestException
| RPCException
| ValueError
| TypeError
| KeyError
| AttributeError
| IndexError
| NameError
| OverflowError
| OSError
| ZeroDivisionError.

Inductive outcome (A : Type) : Type :=
| Ok (a : A)
| Raise (e : exn).
Arguments Ok {A} a.
Arguments Raise {A} e.

#[global] Instance outcome_ret : MRet outcome := fun A a => Ok a.
#[global] Instance outcome_bind : MBind outcome := fun A B f m =>
  match m with
  | Ok a => f a
  | Raise e => Raise e
  end.

Definition is_ok {A} (r : outcome A) : bool :=
  match r with
  | Ok _ => true
  | Raise _ => false
  end.

(** A statement sequence that mutates an object of type [S] and may raise:
    the state reached so far survives the exception, as the fields of a
    Python object assigned before a [raise] do. *)
Definition stm (S A : Type) : Type := S -> outcome A * S.

#[global] Instance stm_ret {S} : MRet (stm S) := fun A a s => (Ok a, s).
#[global] Instance stm_bind {S} : MBind (stm S) := fun A B f m s =>
  match m s with
  | (Ok a, s') => f a s'
  | (Raise e, s') => (Raise e, s')
  end.

Definition lift {S A} (r : outcome A) : stm S A := fun s => (r, s).
Definition get_state {S} : stm S S := fun s => (Ok s, s).
Definition modify {S} (f : S -> S) : stm S unit := fun s => (Ok tt, f s).

(** [try: body  except ...: handler e].  The handler receives the exception
    and is itself a statement sequence: it may swallow the exception, or
    raise (when no clause matches, or when evaluating a clause fails). *)
Definition try_except {S A} (body : stm S A) (handler : exn -> stm S A) : stm S A :=
  fun s =>
    match body s with
    | (Ok a, s') => (Ok a, s')
    | (Raise e, s') => handler e s'
    end.

(** The same for code without mutable state. *)
Definition try_outcome {A} (body : outcome A) (handler : exn -> outcome A) : outcome A :=
  match body with
  | Ok a => Ok a
  | Raise e => handler e
  end.

(** ** JSON values as Python sees them after [response.json()] *)

Inductive json : Type :=
| JNull
| JBool (b : bool)
| JInt (z : Z)
| JFloat (f : float)
| JStr (s : string)
| JList (l : list json)
| JDict (kvs : list (string * json)).

Fixpoint dict_get (k : string) (kvs : list (string * json)) : option json :=
  match kvs with
  | [] => None
  | (k', v) :: rest => if String.eqb k k' then Some v else dict_get k rest
  end.

(** [needle in hay] for Python strings. *)
Fixpoint substringb (needle hay : string) : bool :=
  String.prefix needle hay ||
  match hay with
  | EmptyString => false
  | String _ rest => substringb needle rest
  end.

Definition is_str (s : string) (v : json) : bool :=
  match v with
  | JStr s' => String.eqb s s'
  | _ => false
  end.

Definition chars (s : string) : list json :=
  map (fun c => JStr (String c EmptyString)) (list_ascii_of_string s).

(** [key in v]: key test on a dict, membership on a list, substring test on
    a string, [TypeError] on anything else. *)
Definition py_contains (key : string) (v : json) : outcome bool :=
  match v with
  | JDict kvs => Ok (bool_decide (is_Some (dict_get key kvs)))
  | JList l => Ok (existsb (is_str key) l)
  | JStr s => Ok (substringb key s)
  | _ => Raise TypeError
  end.

(** [v[key]] with a string key. *)
Definition py_getitem (v : json) (key : string) : outcome json :=
  match v with
  | JDict kvs =>
      match dict_get key kvs with
      | Some x => Ok x
      | None => Raise KeyError
      end
  | _ => Raise TypeError
  end.

(** [v[0]]. *)
Definition py_first (v : json) : outcome json :=
  match v with
  | JList (x :: _) => Ok x
  | JList [] => Raise IndexError
  | JStr (String c _) => Ok (JStr (String c EmptyString))
  | JStr EmptyString => Raise IndexError
  | JDict _ => Raise KeyError
  | _ => Raise TypeError
  end.

Definition py_len (v : json) : outcome nat :=
  match v with
  | JList l => Ok (length l)
  | JDict kvs => Ok (length kvs)
  | JStr s => Ok (String.length s)
  | _ => Raise TypeError
  end.

(** [v.keys()], used only for its possible [AttributeError]. *)
Definition py_keys (v : json) : outcome unit :=
  match v with
  | JDict _ => Ok tt
  | _ => Raise AttributeError
  end.

(** [v.get(key, default)]. *)
Definition py_get (v : json) (key : string) (dflt : json) : outcome json :=
  match v with
  | JDict kvs => Ok (default dflt (dict_get key kvs))
  | _ => Raise AttributeError
  end.

(** [for x in v]. *)
Definition py_iter (v : json) : outcome (list json) :=
  match v with
  | JList l => Ok l
  | JDict kvs => Ok (map (fun kv => JStr (fst kv)) kvs)
  | JStr s => Ok (chars s)
  | _ => Raise TypeError
  end.

Definition lower_ascii (c : ascii) : ascii :=
  let n := nat_of_ascii c in
  if ((65 <=? n)%nat && (n <=? 90)%nat)%bool then ascii_of_nat (n + 32) else c.

(** [s.lower()] on the ASCII range; no character outside it lowers to a
    letter of the keyword looked for. *)
Fixpoint lower (s : string) : string :=
  match s with
  | EmptyString => EmptyString
  | String c rest => String (lower_ascii c) (lower rest)
  end.

(** ** Python's [datetime]: the proleptic Gregorian calendar

    The functions below follow CPython's [datetime] module ([_ymd2ord],
    [_ord2ymd], [_isoweek1monday], [isocalendar]); ordinal 1 is 0001-01-01
    and 1970-01-01 is ordinal 719163. *)

Definition is_leap (y : Z) : bool :=
  (y mod 4 =? 0) && (negb (y mod 100 =? 0) || (y mod 400 =? 0)).

Definition days_before_year (y : Z) : Z :=
  let y1 := y - 1 in y1 * 365 + y1 / 4 - y1 / 100 + y1 / 400.

Definition DAYS_IN_MONTH : list Z :=
  [-1; 31; 28; 31; 30; 31; 30; 31; 31; 30; 31; 30; 31].

Definition DAYS_BEFORE_MONTH : list Z :=
  [-1; 0; 31; 59; 90; 120; 151; 181; 212; 243; 273; 304; 334].

Definition days_before_month (y m : Z) : Z :=
  nth (Z.to_nat m) DAYS_BEFORE_MONTH 0 + (if (2 <? m) && is_leap y then 1 else 0).

Definition ymd2ord (y m d : Z) : Z :=
  days_before_year y + days_before_month y m + d.

Definition DI400Y : Z := 146097.
Definition DI100Y : Z := 36524.
Definition DI4Y : Z := 1461.

Definition ord2ymd (ordinal : Z) : Z * Z * Z :=
  let n := ordinal - 1 in
  let n400 := n / DI400Y in
  let n := n mod DI400Y in
  let y := n400 * 400 + 1 in
  let n100 := n / DI100Y in
  let n := n mod DI100Y in
  let n4 := n / DI4Y in
  let n := n mod DI4Y in
  let n1 := n / 365 in
  let n := n mod 365 in
  let y := y + n100 * 100 + n4 * 4 + n1 in
  if (n1 =? 4) || (n100 =? 4) then (y - 1, 12, 31)
  else
    let leapyear := (n1 =? 3) && (negb (n4 =? 24) || (n100 =? 3)) in
    let m := Z.shiftr (n + 50) 5 in
    let preceding :=
      nth (Z.to_nat m) DAYS_BEFORE_MONTH 0 + (if (2 <? m) && leapyear then 1 else 0) in
    if n <? preceding then
      let m := m - 1 in
      let preceding :=
        preceding - (nth (Z.to_nat m) DAYS_IN_MONTH 0
                     + (if (m =? 2) && leapyear then 1 else 0)) in
      (y, m, n - preceding + 1)
    else (y, m, n - preceding + 1).

Record datetime : Set := {
  year : Z;
  month : Z;
  day : Z;
  hour : Z;
  minute : Z;
  second : Z
}.

Definition EPOCH_ORDINAL : Z := 719163.
Definition MAX_ORDINAL : Z := 3652059.

(** The timestamps [datetime] can represent: 0001-01-01 to 9999-12-31. *)
Definition MIN_TIMESTAMP : Z := -62135596800.
Definition MAX_TIMESTAMP : Z := 253402300799.

(** The broken-down UTC time of a timestamp ([gmtime]). *)
Definition gmtime (ts : Z) : datetime :=
  let days := ts / 86400 in
  let rem := ts mod 86400 in
  let '(y, m, d) := ord2ymd (EPOCH_ORDINAL + days) in
  {| year := y; month := m; day := d;
     hour := rem / 3600; minute := (rem mod 3600) / 60; second := rem mod 60 |}.

(** What [datetime.utcfromtimestamp(ts)] raises for an integer [ts] outside
    the years 1 to 9999, as CPython does on Linux with glibc and a 64-bit
    [time_t]: [OverflowError] when [ts] does not fit [time_t], [OSError] when
    [gmtime_r] fails because the year less 1900 does not fit the [int] field
    [tm_year], and [ValueError] from the constructor of [datetime]
    otherwise. *)
Definition range_error (ts : Z) : exn :=
  if (ts <? - 2 ^ 63) || (2 ^ 63 <=? ts) then OverflowError
  else
    let tm_year := year (gmtime ts) - 1900 in
    if (tm_year <? - 2 ^ 31) || (2 ^ 31 <=? tm_year) then OSError
    else ValueError.

(** [datetime.utcfromtimestamp(ts)] for an integer [ts]. *)
Definition utcfromtimestamp (ts : Z) : outcome datetime :=
  let ordinal := EPOCH_ORDINAL + ts / 86400 in
  if (1 <=? ordinal) && (ordinal <=? MAX_ORDINAL) then Ok (gmtime ts)
  else Raise (range_error ts).

Definition isoweek1monday (y : Z) : Z :=
  let firstday := ymd2ord y 1 1 in
  let firstweekday := (firstday + 6) mod 7 in
  let week1monday := firstday - firstweekday in
  if 3 <? firstweekday then week1monday + 7 else week1monday.

(** [date.isocalendar()]: (ISO year, ISO week number, ISO weekday). *)
Definition isocalendar (date : datetime) : Z * Z * Z :=
  let y := year date in
  let week1monday := isoweek1monday y in
  let today := ymd2ord (year date) (month date) (day date) in
  let week := (today - week1monday) / 7 in
  let wday := (today - week1monday) mod 7 in
  if week <? 0 then
    let week1monday := isoweek1monday (y - 1) in
    (y - 1, (today - week1monday) / 7 + 1, (today - week1monday) mod 7 + 1)
  else if (52 <=? week) && (isoweek1monday (y + 1) <=? today) then (y + 1, 1, wday + 1)
  else (y, week + 1, wday + 1).

Definition digit (n : Z) : ascii := ascii_of_nat (48 + Z.to_nat (n mod 10)).

Definition pad2 (n : Z) : string :=
  String (digit (n / 10)) (String (digit n) EmptyString).

Definition pad4 (n : Z) : string :=
  String (digit (n / 1000)) (String (digit (n / 100)) (pad2 n)).

(** [%Y] of [strftime] for a year of [datetime] (1 to 9999), as CPython
    writes it through glibc: the year in decimal without padding, hence on
    four digits from the year 1000 on only. *)
Definition strftime_Y (y : Z) : string :=
  if y <? 10 then String (digit y) EmptyString
  else if y <? 100 then pad2 y
  else if y <? 1000 then String (digit (y / 100)) (pad2 y)
  else pad4 y.

(** [date.strftime('%d.%m.%Y')]: day and month on two digits, then the
    year. *)
Definition strftime_dmY (date : datetime) : string :=
  pad2 (day date) +:+ "." +:+ pad2 (month date) +:+ "." +:+ strftime_Y (year date).

(** [float(v)] for a decoded JSON value.  Integers are rounded to the nearest
    binary64 value; strings are parsed by the oracle [parse] ([None] stands
    for [ValueError]). *)
Definition float_of_int (z : Z) : outcome float :=
  let f := SF2Prim (binary_normalize prec emax z 0 false) in
  if PrimFloat.is_infinity f then Raise OverflowError else Ok f.

Definition py_float (parse : string -> option float) (v : json) : outcome float :=
  match v with
  | JFloat f => Ok f
  | JInt z => float_of_int z
  | JBool b => Ok (if b then 1%float else 0%float)
  | JStr s =>
      match parse s with
      | Some f => Ok f
      | None => Raise ValueError
      end
  | _ => Raise TypeError
  end.

(** [l[i]] on a Python list, for a non-negative index. *)
Definition list_getitem {A} (l : list A) (i : nat) : outcome A :=
  match l !! i with
  | Some x => Ok x
  | None => Raise IndexError
  end.

(** ** Solana RPC data *)

(** A public key and a signature are identified with their base-58 text
    ([str(pubkey)] is the identity). *)
Definition Pubkey : Set := string.
Definition Signature : Set := string.

(** One entry of [get_signatures_for_address(...).value]. *)
Record SignatureInfo : Set := {
  signature : Signature;
  block_time : option Z
}.

(** A top-level instruction of a [jsonParsed] transaction: fully parsed by
    the node ([ParsedInstruction], which carries a [program_id] too), or
    partially decoded with its account list. *)
Inductive instruction : Set :=
| ParsedInstruction (program_id : Pubkey)
| UiPartiallyDecodedInstruction (program_id : Pubkey) (accounts : list Pubkey).

(** The element type of [list[tuple[Signature, int]]]; the second component
    is [sig.block_time] as Python holds it, an [int] or [None]. *)
Definition TransactionRecord : Set := Signature * option Z.

(** Truthiness of [sig.block_time]: [None] and [0] are falsy. *)
Definition truthy (t : option Z) : bool :=
  match t with
  | Some z => negb (z =? 0)
  | None => false
  end.

(** [min] and [utcfromtimestamp] raise [TypeError] when they meet [None];
    the list of timestamps is checked once, where Python would raise. *)
Fixpoint expect_ints (l : list (option Z)) : outcome (list Z) :=
  match l with
  | [] => Ok []
  | Some z :: rest => zs ← expect_ints rest; mret (z :: zs)
  | None :: _ => Raise TypeError
  end.

(** [min(l)]. *)
Definition py_min (l : list Z) : outcome Z :=
  match l with
  | [] => Raise ValueError
  | x :: rest => Ok (fold_left Z.min rest x)
  end.

(** ** The external collaborators *)

(** The two stages that fetch a transaction do so independently. *)
Inductive Stage : Set := Filtering | Extracting.

(** The order in which [list(s)] lists a set [s] of strings.  It follows
    the hashes of the strings, which Python salts anew for every process;
    all the language promises is that each element is listed once. *)
Record SetOrder : Type := {
  list_of_set : gset string -> list string;
  list_of_set_perm : forall s, list_of_set s ≡ₚ elements s
}.

Record World : Type := {
  (** [Pubkey.from_string] accepts the text. *)
  is_pubkey : string -> bool;
  (** [client.get_signatures_for_address(wallet, limit=1000, ...).value]. *)
  get_signatures_for_address : Pubkey -> outcome (list SignatureInfo);
  (** [client.get_transaction(sig, encoding="jsonParsed").value] followed by
      [.transaction.transaction.message.instructions]; [Ok None] is a null
      value, [Raise] a transport or decoding failure. *)
  get_transaction : Stage -> Signature -> outcome (option (list instruction));
  (** The asset search: [post], [raise_for_status] and [json()], by attempt
      number and owner address. *)
  helius_post : nat -> string -> outcome json;
  (** The earnings endpoint, by wallet and pool. *)
  get_earning : string -> string -> outcome json;
  (** Python's [str] of a decoded JSON value, and [float] of a string. *)
  py_str : json -> string;
  float_of_string : string -> option float;
  (** The order in which this process lists a set of pool addresses. *)
  pool_order : SetOrder
}.

Definition METEORA_PROGRAM_ID : Pubkey := "LBUZKhRxPF3XUpBCjp4YzTKgLccjZhTSDM9YuVaPwxo".

(** [Pubkey.from_string(s)]. *)
Definition Pubkey_from_string (w : World) (s : string) : outcome Pubkey :=
  if is_pubkey w s then Ok s else Raise ValueError.

(** [isinstance(instr, UiPartiallyDecodedInstruction)] and
    [instr.program_id == METEORA_PROGRAM_ID]. *)
Definition is_meteora (instr : instruction) : bool :=
  match instr with
  | UiPartiallyDecodedInstruction pid _ => String.eqb pid METEORA_PROGRAM_ID
  | ParsedInstruction _ => false
  end.

(** The metrics dictionary [result]. *)
Record WalletMetrics : Type := {
  wallet : string;
  total_fees : float;
  pools_with_fees : nat;
  first_tx : string;
  active_weeks : nat;
  active_months : nat;
  cnft : bool;
  blacklist : bool
}.

Definition initial_metrics (wallet_address : string) : WalletMetrics :=
  {| wallet := wallet_address; total_fees := 0%float; pools_with_fees := 0%nat;
     first_tx := "N/A"; active_weeks := 0%nat; active_months := 0%nat;
     cnft := false; blacklist := false |}.

Definition set_blacklist (b : bool) (r : WalletMetrics) : WalletMetrics :=
  {| wallet := wallet r; total_fees := total_fees r; pools_with_fees := pools_with_fees r;
     first_tx := first_tx r; active_weeks := active_weeks r;
     active_months := active_months r; cnft := cnft r; blacklist := b |}.

Definition set_cnft (b : bool) (r : WalletMetrics) : WalletMetrics :=
  {| wallet := wallet r; total_fees := total_fees r; pools_with_fees := pools_with_fees r;
     first_tx := first_tx r; active_weeks := active_weeks r;
     active_months := active_months r; cnft := b; blacklist := blacklist r |}.

Definition set_first_tx (s : string) (r : WalletMetrics) : WalletMetrics :=
  {| wallet := wallet r; total_fees := total_fees r; pools_with_fees := pools_with_fees r;
     first_tx := s; active_weeks := active_weeks r;
     active_months := active_months r; cnft := cnft r; blacklist := blacklist r |}.

Definition set_activity (weeks months : nat) (r : WalletMetrics) : WalletMetrics :=
  {| wallet := wallet r; total_fees := total_fees r; pools_with_fees := pools_with_fees r;
     first_tx := first_tx r; active_weeks := weeks;
     active_months := months; cnft := cnft r; blacklist := blacklist r |}.

(** [result['total_fees'] += fees] and, when [fees >= 0.01],
    [result['pools_with_fees'] += 1]. *)
Definition add_fees (fees : float) (r : WalletMetrics) : WalletMetrics :=
  {| wallet := wallet r; total_fees := (total_fees r + fees)%float;
     pools_with_fees :=
       if (0.01 <=? fees)%float then S (pools_with_fees r) else pools_with_fees r;
     first_tx := first_tx r; active_weeks := active_weeks r;
     active_months := active_months r; cnft := cnft r; blacklist := blacklist r |}.

(** The loop shared by both programs:
    [for ts in timestamps: date = utcfromtimestamp(ts); weeks.add(...);
    months.add(...)]. *)
Fixpoint activity_loop (timestamps : list Z) (weeks months : gset (Z * Z))
  : outcome (gset (Z * Z) * gset (Z * Z)) :=
  match timestamps with
  | [] => Ok (weeks, months)
  | ts :: rest =>
      date ← utcfromtimestamp ts;
      let '(y, week, _) := isocalendar date in
      activity_loop rest ({[ (y, week) ]} ∪ weeks) ({[ (year date, month date) ]} ∪ months)
  end.

(** The inner loop of the protocol filter, the same text in both programs:
    append the record at the first matching instruction and [break]. *)
Fixpoint scan_instructions (record : TransactionRecord) (instructions : list instruction)
    (meteora_txs : list TransactionRecord) : list TransactionRecord :=
  match instructions with
  | [] => meteora_txs
  | instr :: rest =>
      if is_meteora instr then meteora_txs ++ [record]
      else scan_instructions record rest meteora_txs
  end.

(** One iteration of [for sig, timestamp in transactions], with its
    [try ... except Exception] around the fetch and the scan. *)
Definition filter_step (w : World) (meteora_txs : list TransactionRecord)
    (record : TransactionRecord) : list TransactionRecord :=
  match get_transaction w Filtering (fst record) with
  | Ok (Some instructions) => scan_instructions record instructions meteora_txs
  | Ok None => meteora_txs
  | Raise _ => meteora_txs
  end.

(** ** The command-line tool, [meteora.py] *)

Module Cli.

Definition CNFT_MINT : string := "Cw4DD54N14aNNaRdhBCq7W9QQh8Bat812VuFbXbLC8bH".

(** [any(item.get("id") == target_mint for item in items)]: the generator
    stops at the first hit, so a malformed later item is never touched. *)
Fixpoint any_target_mint (items : list json) : outcome bool :=
  match items with
  | [] => Ok false
  | item :: rest =>
      v ← py_get item "id" JNull;
      if is_str CNFT_MINT v then Ok true else any_target_mint rest
  end.

Definition check_cnft (w : World) (wallet_address : string) : outcome bool :=
  try_outcome
    (data ← helius_post w 0%nat wallet_address;
     res ← py_get data "result" (JDict []);
     items ← py_get res "items" (JList []);
     l ← py_iter items;
     any_target_mint l)
    (fun _ => Ok false).

Definition get_transactions (w : World) (wallet : Pubkey) : outcome (list TransactionRecord) :=
  try_outcome
    (value ← get_signatures_for_address w wallet;
     mret (map (fun sig => (signature sig, block_time sig))
               (List.filter (fun sig => truthy (block_time sig)) value)))
    (fun _ => Ok []).

Definition filter_meteora_transactions (w : World) (transactions : list TransactionRecord)
  : list TransactionRecord :=
  fold_left (filter_step w) transactions [].

(** The loop of [extract_pool_address]: return [str(instr.accounts[2])] at a
    matching instruction; on [IndexError], [continue] with the next one. *)
Fixpoint pool_of_instructions (instructions : list instruction) : outcome (option string) :=
  match instructions with
  | [] => Ok None
  | instr :: rest =>
      match instr with
      | UiPartiallyDecodedInstruction pid accounts =>
          if String.eqb pid METEORA_PROGRAM_ID then
            try_outcome
              (a ← list_getitem accounts 2; mret (Some a))
              (fun e =>
                 match e with
                 | IndexError => pool_of_instructions rest
                 | _ => Raise e
                 end)
          else pool_of_instructions rest
      | ParsedInstruction _ => pool_of_instructions rest
      end
  end.

Definition extract_pool_address (w : World) (sig : Signature) : outcome (option string) :=
  try_outcome
    (tx ← get_transaction w Extracting sig;
     match tx with
     | None => Ok None
     | Some instructions => pool_of_instructions instructions
     end)
    (fun _ => Ok None).

Definition get_pool_fees (w : World) (wallet_address pool : string) : outcome float :=
  try_outcome
    (data ← get_earning w wallet_address pool;
     v ← py_get data "total_fee_usd_claimed" (JFloat 0%float);
     py_float (float_of_string w) v)
    (fun _ => Ok 0%float).

Definition calculate_activity_metrics (timestamps : list Z) : outcome (nat * nat) :=
  '(weeks, months) ← activity_loop timestamps ∅ ∅;
  mret (size weeks, size months).

(** [for pool in pool_addresses: ...] of [process_wallet]. *)
Fixpoint fee_loop (w : World) (wallet_address : string) (pools : list string)
  : stm WalletMetrics unit :=
  match pools with
  | [] => mret tt
  | pool :: rest =>
      fees ← lift (get_pool_fees w wallet_address pool);
      modify (add_fees fees);;
      fee_loop w wallet_address rest
  end.

(** The set comprehension over [extract_pool_address]. *)
Fixpoint pool_set (w : World) (meteora_transactions : list TransactionRecord)
  : outcome (gset string) :=
  match meteora_transactions with
  | [] => Ok ∅
  | (sig, _) :: rest =>
      address ← extract_pool_address w sig;
      pools ← pool_set w rest;
      mret (match address with
            | Some a => {[ a ]} ∪ pools
            | None => pools
            end)
  end.

(** The body of the [try] block of [process_wallet]; [list(set(...))]
    lists the pools in the order of the process. *)
Definition process_wallet_body (w : World) (wallet_address : string) (bl : gset string)
  : stm WalletMetrics unit :=
  modify (set_blacklist (bool_decide (wallet_address ∈ bl)));;
  c ← lift (check_cnft w wallet_address);
  modify (set_cnft c);;
  wallet_pubkey ← lift (Pubkey_from_string w wallet_address);
  all_transactions ← lift (get_transactions w wallet_pubkey);
  let meteora_transactions := filter_meteora_transactions w all_transactions in
  timestamps ← lift (expect_ints (map snd meteora_transactions));
  (match timestamps with
   | [] => mret tt
   | _ :: _ =>
       first_tx_ts ← lift (py_min timestamps);
       date ← lift (utcfromtimestamp first_tx_ts);
       modify (set_first_tx (strftime_dmY date))
   end);;
  '(weeks, months) ← lift (calculate_activity_metrics timestamps);
  modify (set_activity weeks months);;
  pools ← lift (pool_set w meteora_transactions);
  fee_loop w wallet_address (list_of_set (pool_order w) pools).

(** [process_wallet]: the body under [try ... except Exception], then
    [return result]. *)
Definition process_wallet (w : World) (wallet_address : string) (bl : gset string)
  : outcome WalletMetrics :=
  fst ((try_except (process_wallet_body w wallet_address bl) (fun _ => mret tt);;
        get_state) (initial_metrics wallet_address)).

End Cli.

(** ** Binary64 arithmetic, for [TaskProgress.percent]

    A finite float is the dyadic number [m * 2 ^ e].  [round64 n d] is the
    binary64 value nearest to the fraction [n / d] (for [0 < d]), ties to
    even, with gradual underflow and overflow to infinity: the rounding
    that Python performs for [int / int] and for [float * float]. *)

Module Binary64.

Inductive f64 : Set :=
| Finite (m e : Z)
| Infinity (negative : bool)
| NaN.

(** The fraction [n / d] divided by [2 ^ e], as a fraction. *)
Definition shift_frac (n d e : Z) : Z * Z :=
  if 0 <=? e then (n, d * 2 ^ e) else (n * 2 ^ (- e), d).

(** [floor (log2 (n / d))] for positive [n] and [d]. *)
Definition ilog2_frac (n d : Z) : Z :=
  let e0 := Z.log2 n - Z.log2 d in
  let '(N, D) := shift_frac n d e0 in
  if D <=? N then e0 else e0 - 1.

(** The integer nearest to [N / D], ties to even. *)
Definition round_half_even (N D : Z) : Z :=
  let q := N / D in
  let r := N mod D in
  if 2 * r <? D then q
  else if D <? 2 * r then q + 1
  else if Z.even q then q else q + 1.

(** Mantissa and exponent of the rounded value of a positive fraction: the
    unit in the last place is [2 ^ (max (floor log2) (-1022) - 52)]. *)
Definition round_pos (n d : Z) : Z * Z :=
  let e := Z.max (ilog2_frac n d) (-1022) - 52 in
  let '(N, D) := shift_frac n d e in
  (round_half_even N D, e).

Definition round64 (n d : Z) : f64 :=
  if n =? 0 then Finite 0 0
  else
    let '(m, e) := round_pos (Z.abs n) d in
    if (0 <=? e) && (2 ^ 1024 <=? m * 2 ^ e) then Infinity (n <? 0)
    else Finite (Z.sgn n * m) e.

(** [a / b] on Python integers. *)
Definition int_truediv (a b : Z) : outcome f64 :=
  if b =? 0 then Raise ZeroDivisionError
  else
    match (if 0 <? b then round64 a b else round64 (- a) (- b)) with
    | Finite m e => Ok (Finite m e)
    | _ => Raise OverflowError
    end.

(** [float(z)], total here: an integer too large becomes an infinity. *)
Definition float_of_Z (z : Z) : f64 := round64 z 1.

(** [x * y] on floats. *)
Definition float_mul (x y : f64) : f64 :=
  match x, y with
  | Finite m1 e1, Finite m2 e2 =>
      let m := m1 * m2 in
      let e := e1 + e2 in
      if 0 <=? e then round64 (m * 2 ^ e) 1 else round64 m (2 ^ (- e))
  | Finite m _, Infinity s | Infinity s, Finite m _ =>
      if m =? 0 then NaN else Infinity (xorb s (m <? 0))
  | Infinity s1, Infinity s2 => Infinity (xorb s1 s2)
  | _, _ => NaN
  end.

(** [int(x)]: truncation towards zero. *)
Definition int_of_float (x : f64) : outcome Z :=
  match x with
  | Finite m e => Ok (if 0 <=? e then m * 2 ^ e else Z.quot m (2 ^ (- e)))
  | Infinity _ => Raise OverflowError
  | NaN => Raise ValueError
  end.

(** The value as a primitive float, to compare the model with the
    kernel's binary64 operations. *)
Definition to_prim (x : f64) : float :=
  match x with
  | Finite m e => SF2Prim (binary_normalize prec emax m e false)
  | Infinity true => neg_infinity
  | Infinity false => infinity
  | NaN => nan
  end.

End Binary64.

(** ** The chat-bot pipeline, [meteora-telegram-bot-v3.py] *)

Module Bot.

Import Binary64.

Definition CNFT_CREATOR_ADDRESS : string := "BC11Rk2ZoLxb7tjSpycXDyHnyTdYeaYMgbMwimh8DThX".
Definition CNFT_NAME_MATCH : string := "Meteora LP Army Certificate".

Record TaskProgress : Set := {
  task_name : string;
  current : Z;
  total : Z;
  status : string
}.

Definition new_task (name : string) : TaskProgress :=
  {| task_name := name; current := 0; total := 0; status := "idle" |}.

Definition start (n : option Z) (t : TaskProgress) : TaskProgress :=
  {| task_name := task_name t; current := current t;
     total := default (total t) n; status := "running" |}.

Definition update (c : Z) (t : TaskProgress) : TaskProgress :=
  {| task_name := task_name t; current := c; total := total t; status := status t |}.

Definition complete (t : TaskProgress) : TaskProgress :=
  {| task_name := task_name t; current := total t; total := total t;
     status := "completed" |}.

Definition fail (t : TaskProgress) : TaskProgress :=
  {| task_name := task_name t; current := current t; total := total t;
     status := "failed" |}.

(** The property [percent]:
    [if self.total <= 0: return 0] and then
    [int((self.current / self.total) * 100)]. *)
Definition percent (t : TaskProgress) : outcome Z :=
  if total t <=? 0 then Ok 0
  else
    q ← int_truediv (current t) (total t);
    int_of_float (float_mul q (float_of_Z 100)).

(** The processor object: the fields assigned in [__init__]. *)
Record WalletProcessor : Type := {
  wallet_address : string;
  tasks : gmap string TaskProgress;
  result : WalletMetrics;
  transactions : list TransactionRecord;
  meteora_transactions : list TransactionRecord;
  pool_addresses : list string
}.

Definition task_names : list string :=
  ["check_blacklist"; "check_cnft"; "get_transactions"; "filter_meteora_transactions";
   "process_timestamps"; "calculate_activity_metrics"; "extract_pool_address";
   "get_pool_fees"].

Definition new_processor (address : string) : WalletProcessor :=
  {| wallet_address := address;
     tasks := list_to_map (map (fun n => (n, new_task n)) task_names);
     result := initial_metrics address;
     transactions := []; meteora_transactions := []; pool_addresses := [] |}.

Definition set_tasks (f : gmap string TaskProgress -> gmap string TaskProgress)
    (p : WalletProcessor) : WalletProcessor :=
  {| wallet_address := wallet_address p; tasks := f (tasks p); result := result p;
     transactions := transactions p; meteora_transactions := meteora_transactions p;
     pool_addresses := pool_addresses p |}.

Definition set_result (f : WalletMetrics -> WalletMetrics) (p : WalletProcessor)
  : WalletProcessor :=
  {| wallet_address := wallet_address p; tasks := tasks p; result := f (result p);
     transactions := transactions p; meteora_transactions := meteora_transactions p;
     pool_addresses := pool_addresses p |}.

Definition set_transactions (l : list TransactionRecord) (p : WalletProcessor)
  : WalletProcessor :=
  {| wallet_address := wallet_address p; tasks := tasks p; result := result p;
     transactions := l; meteora_transactions := meteora_transactions p;
     pool_addresses := pool_addresses p |}.

Definition set_meteora_transactions (f : list TransactionRecord -> list TransactionRecord)
    (p : WalletProcessor) : WalletProcessor :=
  {| wallet_address := wallet_address p; tasks := tasks p; result := result p;
     transactions := transactions p; meteora_transactions := f (meteora_transactions p);
     pool_addresses := pool_addresses p |}.

Definition set_pool_addresses (l : list string) (p : WalletProcessor) : WalletProcessor :=
  {| wallet_address := wallet_address p; tasks := tasks p; result := result p;
     transactions := transactions p; meteora_transactions := meteora_transactions p;
     pool_addresses := l |}.

(** [self.tasks[name].f()]. *)
Definition task (name : string) (f : TaskProgress -> TaskProgress) : stm WalletProcessor unit :=
  modify (set_tasks (alter f name)).

(** [await self.update_progress()]: the message is built from the tasks and
    handed to the callback, which the bot wraps in its own
    [try ... except Exception]; the processor is not changed. *)
Definition update_progress : stm WalletProcessor unit := mret tt.

Definition check_blacklist (bl : gset string) : stm WalletProcessor unit :=
  task "check_blacklist" (start None);;
  try_except
    (p ← get_state;
     modify (set_result (set_blacklist (bool_decide (wallet_address p ∈ bl))));;
     task "check_blacklist" complete)
    (fun _ => task "check_blacklist" fail);;
  update_progress.

(** [for creator in cs: if isinstance(creator, dict) and
    creator.get("address") == CNFT_CREATOR_ADDRESS: ... break]. *)
Definition is_target_creator (creator : json) : bool :=
  match creator with
  | JDict kvs =>
      match dict_get "address" kvs with
      | Some v => is_str CNFT_CREATOR_ADDRESS v
      | None => false
      end
  | _ => false
  end.

Definition creators_match (cs : json) : outcome bool :=
  l ← py_iter cs;
  mret (existsb is_target_creator l).

(** [if "creators" in item: for creator in item["creators"]: ...]. *)
Definition top_level_creator (item : json) : outcome bool :=
  b ← py_contains "creators" item;
  if (b : bool) then cs ← py_getitem item "creators"; creators_match cs else mret false.

(** [if not creator_found and "content" in item and
    "creators" in item["content"]: ...]. *)
Definition content_creator (item : json) : outcome bool :=
  b ← py_contains "content" item;
  if (b : bool) then
    content ← py_getitem item "content";
    b' ← py_contains "creators" content;
    if (b' : bool) then cs ← py_getitem content "creators"; creators_match cs else mret false
  else mret false.

Definition creator_found (item : json) : outcome bool :=
  found ← top_level_creator item;
  if (found : bool) then mret true else content_creator item.

(** The three name locations, in the order of the source. *)
Definition name_at_metadata (item : json) : outcome bool :=
  b ← py_contains "content" item;
  if (b : bool) then
    content ← py_getitem item "content";
    b' ← py_contains "metadata" content;
    if (b' : bool) then
      metadata ← py_getitem content "metadata";
      b'' ← py_contains "name" metadata;
      if (b'' : bool) then nft_name ← py_getitem metadata "name"; py_contains CNFT_NAME_MATCH nft_name
      else mret false
    else mret false
  else mret false.

Definition name_direct (item : json) : outcome bool :=
  b ← py_contains "name" item;
  if (b : bool) then nft_name ← py_getitem item "name"; py_contains CNFT_NAME_MATCH nft_name
  else mret false.

Definition name_at_content (item : json) : outcome bool :=
  b ← py_contains "content" item;
  if (b : bool) then
    content ← py_getitem item "content";
    b' ← py_contains "name" content;
    if (b' : bool) then nft_name ← py_getitem content "name"; py_contains CNFT_NAME_MATCH nft_name
    else mret false
  else mret false.

Definition name_match (item : json) : outcome bool :=
  m ← name_at_metadata item;
  m ← (if (m : bool) then mret true else name_direct item);
  if (m : bool) then mret true else name_at_content item.

(** [if creator_found: if "content" in item:
    if "meteora" in str(item["content"]).lower(): ...]. *)
Definition content_mentions_meteora (w : World) (item : json) : outcome bool :=
  b ← py_contains "content" item;
  if (b : bool) then
    content ← py_getitem item "content";
    mret (substringb "meteora" (lower (py_str w content)))
  else mret false.

(** The body of the first loop for one item: [true] when the function
    returns with [cnft = True] at this item. *)
Definition check_item (w : World) (item : json) : outcome bool :=
  cf ← creator_found item;
  nm ← name_match item;
  if cf && nm then mret true
  else if cf then content_mentions_meteora w item
  else mret false.

Fixpoint scan_items (w : World) (items : list json) : outcome bool :=
  match items with
  | [] => Ok false
  | item :: rest =>
      hit ← check_item w item;
      if (hit : bool) then Ok true else scan_items w rest
  end.

(** The second loop, the fallback on the top-level creators alone. *)
Fixpoint fallback_scan (items : list json) : outcome bool :=
  match items with
  | [] => Ok false
  | item :: rest =>
      hit ← top_level_creator item;
      if (hit : bool) then Ok true else fallback_scan rest
  end.

(** The debug logging of the first item; only its exceptions matter. *)
Definition debug_first_item (data : json) : outcome unit :=
  b ← py_contains "result" data;
  nonempty ←
    (if (b : bool) then
       res ← py_getitem data "result";
       b' ← py_contains "items" res;
       if (b' : bool) then items ← py_getitem res "items"; n ← py_len items; mret (0 <? n)%nat
       else mret false
     else mret false);
  if (nonempty : bool) then
    res ← py_getitem data "result";
    items ← py_getitem res "items";
    first_item ← py_first items;
    py_keys first_item;;
    b ← py_contains "content" first_item;
    (if (b : bool) then
       content ← py_getitem first_item "content";
       b' ← py_contains "metadata" content;
       if (b' : bool) then metadata ← py_getitem content "metadata"; py_keys metadata
       else mret tt
     else mret tt);;
    b ← py_contains "creators" first_item;
    (if (b : bool) then py_getitem first_item "creators";; mret tt else mret tt)
  else mret tt.

(** How one pass through the body of [while retry_count < max_retries] ends. *)
Inductive attempt_end : Set :=
| Found
| NotFound
| Retry.

(** The [try] block of one attempt, after the request. *)
Definition attempt (w : World) (address : string) (retry_count : nat) : outcome attempt_end :=
  data ← helius_post w retry_count address;
  debug_first_item data;;
  has_error ← py_contains "error" data;
  if (has_error : bool) then
    err ← py_get data "error" (JDict []);
    py_get err "message" (JStr "Unknown error");;
    mret Retry
  else
    has_result ← py_contains "result" data;
    if negb has_result then mret Retry
    else
      res ← py_getitem data "result";
      has_items ← py_contains "items" res;
      if negb has_items then mret Retry
      else
        items ← py_getitem res "items";
        py_len items;;
        l ← py_iter items;
        hit ← scan_items w l;
        if (hit : bool) then mret Found
        else
          hit ← fallback_scan l;
          if (hit : bool) then mret Found else mret NotFound.

(** The [except] clauses of the attempt, tried in order:
    [except requests.exceptions.RequestException], then
    [except json.JSONDecodeError].  The module never imports [json], so
    evaluating the second clause raises [NameError], and the third clause
    [except Exception] is not reached. *)
Definition attempt_handler (e : exn) : outcome attempt_end :=
  match e with
  | RequestException => Ok Retry
  | _ => Raise NameError
  end.

Definition max_retries : nat := 3.

(** The [while] loop; [remaining] is [max_retries - retry_count].  The
    value is [(returned, retry_count)]: whether the function returned from
    inside the loop, and the counter when the loop was left. *)
Fixpoint cnft_loop (w : World) (remaining retry_count : nat)
  : stm WalletProcessor (bool * nat) :=
  match remaining with
  | O => mret (false, retry_count)
  | S remaining' =>
      p ← get_state;
      r ← lift (try_outcome (attempt w (wallet_address p) retry_count) attempt_handler);
      match r with
      | Found =>
          modify (set_result (set_cnft true));;
          task "check_cnft" complete;;
          update_progress;;
          mret (true, retry_count)
      | NotFound => mret (false, retry_count)
      | Retry => cnft_loop w remaining' (S retry_count)
      end
  end.

Definition check_cnft (w : World) : stm WalletProcessor unit :=
  task "check_cnft" (start None);;
  modify (set_result (set_cnft false));;
  '(returned, retry_count) ← cnft_loop w max_retries 0%nat;
  if (returned : bool) then mret tt
  else
    task "check_cnft" (if (retry_count <? max_retries)%nat then complete else fail);;
    update_progress.

Definition get_transactions (w : World) : stm WalletProcessor unit :=
  task "get_transactions" (start None);;
  try_except
    (p ← get_state;
     wallet_pubkey ← lift (Pubkey_from_string w (wallet_address p));
     value ← lift (get_signatures_for_address w wallet_pubkey);
     let l := map (fun sig => (signature sig, block_time sig))
                  (List.filter (fun sig => truthy (block_time sig)) value) in
     modify (set_transactions l);;
     task "get_transactions" (update (Z.of_nat (length l)));;
     task "get_transactions" complete)
    (fun _ => task "get_transactions" fail);;
  update_progress.

(** [for index, (sig, timestamp) in enumerate(self.transactions, 1)]; a null
    transaction [continue]s past the progress update. *)
Fixpoint filter_loop (w : World) (l : list TransactionRecord) (index : Z)
  : stm WalletProcessor unit :=
  match l with
  | [] => mret tt
  | record :: rest =>
      modify (set_meteora_transactions (fun txs => filter_step w txs record));;
      match get_transaction w Filtering (fst record) with
      | Ok None => mret tt
      | _ => task "filter_meteora_transactions" (update index);; update_progress
      end;;
      filter_loop w rest (index + 1)
  end.

Definition filter_meteora_transactions (w : World) : stm WalletProcessor unit :=
  p ← get_state;
  task "filter_meteora_transactions" (start (Some (Z.of_nat (length (transactions p)))));;
  modify (set_meteora_transactions (fun _ => []));;
  try_except
    (filter_loop w (transactions p) 1;;
     task "filter_meteora_transactions" complete;;
     update_progress)
    (fun _ => task "filter_meteora_transactions" fail;; update_progress).

Definition process_timestamps : stm WalletProcessor unit :=
  task "process_timestamps" (start None);;
  try_except
    (p ← get_state;
     timestamps ← lift (expect_ints (map snd (meteora_transactions p)));
     match timestamps with
     | [] => mret tt
     | _ :: _ =>
         first_tx_ts ← lift (py_min timestamps);
         date ← lift (utcfromtimestamp first_tx_ts);
         modify (set_result (set_first_tx (strftime_dmY date)))
     end;;
     task "process_timestamps" complete)
    (fun _ => task "process_timestamps" fail);;
  update_progress.

Definition calculate_activity_metrics : stm WalletProcessor unit :=
  task "calculate_activity_metrics" (start None);;
  try_except
    (p ← get_state;
     timestamps ← lift (expect_ints (map snd (meteora_transactions p)));
     '(weeks, months) ← lift (activity_loop timestamps ∅ ∅);
     modify (set_result (set_activity (size weeks) (size months)));;
     task "calculate_activity_metrics" complete)
    (fun _ => task "calculate_activity_metrics" fail);;
  update_progress.

(** The instruction loop of [extract_pool_addresses]: every matching
    instruction adds [str(instr.accounts[2])] to the local set; there is no
    [break]. *)
Fixpoint add_pools (instructions : list instruction) : stm (gset string) unit :=
  match instructions with
  | [] => mret tt
  | instr :: rest =>
      match instr with
      | UiPartiallyDecodedInstruction pid accounts =>
          if String.eqb pid METEORA_PROGRAM_ID then
            try_except
              (pool_address ← lift (list_getitem accounts 2);
               modify (union {[ pool_address ]}))
              (fun e =>
                 match e with
                 | IndexError => mret tt
                 | _ => lift (Raise e)
                 end)
          else mret tt
      | ParsedInstruction _ => mret tt
      end;;
      add_pools rest
  end.

(** One transaction, under its [try ... except Exception]. *)
Definition add_pools_of (w : World) (sig : Signature) : stm (gset string) unit :=
  try_except
    (tx ← lift (get_transaction w Extracting sig);
     match tx with
     | None => mret tt
     | Some instructions => add_pools instructions
     end)
    (fun _ => mret tt).

Fixpoint extract_loop (w : World) (l : list TransactionRecord) (index : Z)
    (unique_pool_addresses : gset string) : stm WalletProcessor (gset string) :=
  match l with
  | [] => mret unique_pool_addresses
  | (sig, _) :: rest =>
      let unique_pool_addresses := snd (add_pools_of w sig unique_pool_addresses) in
      match get_transaction w Extracting sig with
      | Ok None => mret tt
      | _ => task "extract_pool_address" (update index);; update_progress
      end;;
      extract_loop w rest (index + 1) unique_pool_addresses
  end.

Definition extract_pool_addresses (w : World) : stm WalletProcessor unit :=
  p ← get_state;
  task "extract_pool_address" (start (Some (Z.of_nat (length (meteora_transactions p)))));;
  try_except
    (unique_pool_addresses ← extract_loop w (meteora_transactions p) 1 ∅;
     modify (set_pool_addresses (list_of_set (pool_order w) unique_pool_addresses));;
     task "extract_pool_address" complete;;
     update_progress)
    (fun _ => task "extract_pool_address" fail;; update_progress).

Fixpoint fees_loop (w : World) (pools : list string) (index : Z) : stm WalletProcessor unit :=
  match pools with
  | [] => mret tt
  | pool :: rest =>
      try_except
        (p ← get_state;
         data ← lift (get_earning w (wallet_address p) pool);
         v ← lift (py_get data "total_fee_usd_claimed" (JFloat 0%float));
         fees ← lift (py_float (float_of_string w) v);
         modify (set_result (add_fees fees)))
        (fun _ => mret tt);;
      task "get_pool_fees" (update index);;
      update_progress;;
      fees_loop w rest (index + 1)
  end.

Definition get_pool_fees (w : World) : stm WalletProcessor unit :=
  p ← get_state;
  task "get_pool_fees" (start (Some (Z.of_nat (length (pool_addresses p)))));;
  try_except
    (fees_loop w (pool_addresses p) 1;;
     task "get_pool_fees" complete;;
     update_progress)
    (fun _ => task "get_pool_fees" fail;; update_progress).

(** [WalletProcessor.process]: the eight stages in sequence, then
    [return self.result]. *)
Definition process_stages (w : World) (bl : gset string) : stm WalletProcessor WalletMetrics :=
  check_blacklist bl;;
  check_cnft w;;
  get_transactions w;;
  filter_meteora_transactions w;;
  process_timestamps;;
  calculate_activity_metrics;;
  extract_pool_addresses w;;
  get_pool_fees w;;
  p ← get_state;
  mret (result p).

(** [WalletProcessor(address, ...).process()]. *)
Definition process (w : World) (bl : gset string) (address : string) : outcome WalletMetrics :=
  fst (process_stages w bl (new_processor address)).

End Bot.

(** * The rest of the programs: start-up, endpoint rotation, the first bot *)

(** ** Python strings: white space, [strip] and [split]

    A Python [str] is a Rocq [string], character by character; the
    characters are the code points below 256. *)

(** [c.isspace()]: tab to carriage return, the four separators 28 to 31,
    the space, NEL (133) and the no-break space (160). *)
Definition isspace (c : ascii) : bool :=
  let n := nat_of_ascii c in
  ((9 <=? n) && (n <=? 13) || (28 <=? n) && (n <=? 32) || (n =? 133) || (n =? 160))%nat.

Fixpoint lstrip (s : string) : string :=
  match s with
  | EmptyString => EmptyString
  | String c rest => if isspace c then lstrip rest else s
  end.

Fixpoint rstrip (s : string) : string :=
  match s with
  | EmptyString => EmptyString
  | String c rest =>
      match rstrip rest with
      | EmptyString => if isspace c then EmptyString else String c EmptyString
      | r => String c r
      end
  end.

(** [s.strip()]. *)
Definition strip (s : string) : string := rstrip (lstrip s).

(** [s.split()] without a separator: runs of white space separate the
    words, and no word is empty.  [word] is the word being read. *)
Fixpoint split_from (word : string) (s : string) : list string :=
  match s with
  | EmptyString => if String.eqb word "" then [] else [word]
  | String c rest =>
      if isspace c then
        if String.eqb word "" then split_from "" rest else word :: split_from "" rest
      else split_from (word +:+ String c "") rest
  end.

Definition split (s : string) : list string := split_from "" s.

(** [" ".join(l)]. *)
Fixpoint join_spaces (l : list string) : string :=
  match l with
  | [] => ""
  | [w] => w
  | w :: rest => w +:+ " " +:+ join_spaces rest
  end.

(** ** The host: files, environment, clock *)

(** How the iteration over an open file ends: at its end, or with an
    exception (a decoding or an input error). *)
Inductive read_end : Set :=
| EndOfFile
| ReadFails.

Record Host : Type := {
  (** The paths for which [os.path.exists] holds. *)
  files : gset string;
  (** [open(path, 'r')] and [for line in f]: [None] when [open] raises,
      else the lines read and how the reading ended. *)
  read_lines : string -> option (list string * read_end);
  (** [csv.DictReader(f)] over the opened file: each row maps the header's
      names to a text, or to [None] where the line was short. *)
  read_csv : string -> option (list (gmap string (option string)) * read_end);
  (** [os.environ]. *)
  environ : gmap string string;
  (** [datetime.now()]. *)
  now : datetime
}.

(** ** [load_api_endpoints] (third bot) *)

(** The [try] block: the value of [endpoints] when the block is left, and
    whether it is left by an exception ([open] or the reading fails, the
    [FileNotFoundError] of the [else] branch, or the [ValueError] raised when
    no line is left). *)
Definition read_endpoints (h : Host) (filename : string) : list string * bool :=
  if bool_decide (filename ∈ files h) then
    match read_lines h filename with
    | None => ([], true)
    | Some (lines, fin) =>
        let endpoints := List.filter (fun line => negb (String.eqb line "")) (map strip lines) in
        match fin with
        | ReadFails => (endpoints, true)
        | EndOfFile =>
            match endpoints with
            | [] => ([], true)
            | _ :: _ => (endpoints, false)
            end
        end
    end
  else ([], true).

(** [fallback = os.environ.get(name); if fallback: endpoints = [fallback]]. *)
Definition use_fallback (h : Host) (name : string) (endpoints : list string) : list string :=
  match environ h !! name with
  | Some fallback => if String.eqb fallback "" then endpoints else [fallback]
  | None => endpoints
  end.

(** The [except Exception] clause. *)
Definition fallback_endpoints (h : Host) (filename : string) (endpoints : list string)
  : list string :=
  if String.eqb filename "RPC_URL.txt" then use_fallback h "RPC_URL" endpoints
  else if String.eqb filename "HELIUS_API_KEY.txt" then use_fallback h "HELIUS_API_KEY" endpoints
  else endpoints.

Definition load_api_endpoints (h : Host) (filename : string) : outcome (list string) :=
  let '(endpoints, raised) := read_endpoints h filename in
  let endpoints := if (raised : bool) then fallback_endpoints h filename endpoints else endpoints in
  match endpoints with
  | [] => Raise ValueError
  | _ :: _ => Ok endpoints
  end.

(** ** [load_blacklist] (the same text in the three programs) *)

Definition BLACKLIST_FILE : string := "kelsier_addresses.csv".

(** [for row in reader: blacklist.add(row['address'].strip())].  A row
    without the column ([KeyError]) or with [None] in it ([AttributeError])
    ends the loop: the [try] encloses it. *)
Fixpoint add_rows (rows : list (gmap string (option string))) (blacklist : gset string)
  : gset string :=
  match rows with
  | [] => blacklist
  | row :: rest =>
      match row !! "address"%string with
      | Some (Some address) => add_rows rest ({[ strip address ]} ∪ blacklist)
      | _ => blacklist
      end
  end.

Definition load_blacklist (h : Host) : gset string :=
  if bool_decide (BLACKLIST_FILE ∈ files h) then
    match read_csv h BLACKLIST_FILE with
    | Some (rows, _) => add_rows rows ∅
    | None => ∅
    end
  else ∅.

(** ** [generate_filename] (the same text in the three programs) *)

(** [now.strftime("%Y%m%d")]. *)
Definition strftime_Ymd (date : datetime) : string :=
  strftime_Y (year date) +:+ pad2 (month date) +:+ pad2 (day date).

(** [f"{base_name}_{today}_{counter}.csv"]. *)
Definition report_name (today : string) (counter : nat) : string :=
  "Meteora" +:+ "_" +:+ today +:+ "_" +:+ pretty counter +:+ ".csv".

(** The [while True] loop, for at most [fuel] tests of [os.path.exists]. *)
Fixpoint first_free_name (existing : gset string) (today : string) (fuel counter : nat)
  : option string :=
  match fuel with
  | O => None
  | S fuel' =>
      let filename := report_name today counter in
      if bool_decide (filename ∈ existing) then first_free_name existing today fuel' (S counter)
      else Some filename
  end.

(** One test more than there are paths is enough: the names of distinct
    counters are distinct, so that not all of them exist. *)
Definition generate_filename (h : Host) : option string :=
  first_free_name (files h) (strftime_Ymd (now h)) (S (size (files h))) 0.

(** ** [handle_wallets] (both bots) *)

(** What the handler does with a message: the list it stores under
    [context.user_data["wallets"]], if any, and the text it replies. *)
Definition handle_wallets (text : string) : option (list string) * string :=
  let text := strip text in
  let wallets := List.filter (fun wallet => negb (String.eqb wallet "")) (split text) in
  match wallets with
  | [] => (None, "No valid wallet addresses found. Please try again.")
  | _ :: _ =>
      (Some wallets,
       "Found " +:+ pretty (length wallets) +:+ " wallet(s). Please select output format:")
  end.

(** ** [APIManager] (third bot) *)

Module ApiManager.

Record APIManager : Type := {
  rpc_urls : list string;
  helius_api_keys : list string;
  (** [{user_id: (rpc_index, helius_index)}]. *)
  user_counters : gmap Z (nat * nat);
  (** [{key: timestamp}]. *)
  last_used : gmap string float
}.

(** [APIManager(rpc_urls, helius_api_keys)]. *)
Definition new (rpc_urls helius_api_keys : list string) : APIManager :=
  {| rpc_urls := rpc_urls; helius_api_keys := helius_api_keys;
     user_counters := ∅; last_used := ∅ |}.

Definition set_user_counters (f : gmap Z (nat * nat) -> gmap Z (nat * nat)) (m : APIManager)
  : APIManager :=
  {| rpc_urls := rpc_urls m; helius_api_keys := helius_api_keys m;
     user_counters := f (user_counters m); last_used := last_used m |}.

Definition set_last_used (f : gmap string float -> gmap string float) (m : APIManager)
  : APIManager :=
  {| rpc_urls := rpc_urls m; helius_api_keys := helius_api_keys m;
     user_counters := user_counters m; last_used := f (last_used m) |}.

(** [f"{'rpc' if endpoint_list == self.rpc_urls else 'helius'}_{i}"]: the
    comparison is that of the lists' contents. *)
Definition key_of (m : APIManager) (endpoint_list : list string) (i : nat) : string :=
  (if bool_decide (endpoint_list = rpc_urls m) then "rpc" else "helius") +:+ "_" +:+ pretty i.

(** [self.last_used.get(key, 0)]. *)
Definition last_used_time (m : APIManager) (key : string) : float :=
  default 0%float (last_used m !! key).

(** The loop [for i in range(len(endpoint_list))] over the indices left. *)
Fixpoint least_used_loop (m : APIManager) (endpoint_list : list string) (indices : list nat)
    (min_time : float) (min_index : nat) : nat :=
  match indices with
  | [] => min_index
  | i :: rest =>
      let t := last_used_time m (key_of m endpoint_list i) in
      if (t <? min_time)%float then least_used_loop m endpoint_list rest t i
      else least_used_loop m endpoint_list rest min_time min_index
  end.

Definition _get_least_used_index (m : APIManager) (endpoint_list : list string) : nat :=
  least_used_loop m endpoint_list (seq 0 (length endpoint_list)) infinity 0.

(** [a % b] on non-negative integers. *)
Definition py_mod (a b : nat) : outcome nat :=
  match b with
  | O => Raise ZeroDivisionError
  | S _ => Ok (a mod b)%nat
  end.

(** [get_endpoints_for_user]; [current_time] is the reading
    [datetime.now().timestamp()] of its first line. *)
Definition get_endpoints_for_user (current_time : float) (user_id : Z)
  : stm APIManager (string * string) :=
  m ← get_state;
  '(rpc_index, helius_index) ←
    match user_counters m !! user_id with
    | None =>
        let rpc_index := _get_least_used_index m (rpc_urls m) in
        let helius_index := _get_least_used_index m (helius_api_keys m) in
        modify (set_user_counters <[user_id := (rpc_index, helius_index)]>);;
        mret (rpc_index, helius_index)
    | Some (rpc_index, helius_index) =>
        rpc_index ← lift (py_mod (rpc_index + 1) (length (rpc_urls m)));
        helius_index ← lift (py_mod (helius_index + 1) (length (helius_api_keys m)));
        modify (set_user_counters <[user_id := (rpc_index, helius_index)]>);;
        mret (rpc_index, helius_index)
    end;
  modify (set_last_used <["rpc_" +:+ pretty rpc_index := current_time]>);;
  modify (set_last_used <["helius_" +:+ pretty helius_index := current_time]>);;
  rpc_url ← lift (list_getitem (rpc_urls m) rpc_index);
  helius_api_key ← lift (list_getitem (helius_api_keys m) helius_index);
  mret (rpc_url, helius_api_key).

(** [release_user]. *)
Definition release_user (user_id : Z) : stm APIManager unit :=
  m ← get_state;
  if bool_decide (is_Some (user_counters m !! user_id))
  then modify (set_user_counters (delete user_id))
  else mret tt.

(** Consecutive calls for one user, one per clock reading: those of the
    constructors of the [WalletProcessor]s of a batch, and those of the
    retries of [check_cnft]. *)
Fixpoint endpoints_for_batch (times : list float) (user_id : Z)
  : stm APIManager (list (string * string)) :=
  match times with
  | [] => mret []
  | current_time :: rest =>
      endpoints ← get_endpoints_for_user current_time user_id;
      others ← endpoints_for_batch rest user_id;
      mret (endpoints :: others)
  end.

End ApiManager.

(** ** The first bot, [meteora-telegram-bot.py]

    Its [TaskProgress] and its stages are those of the third bot, word for
    word, except [check_cnft]. *)

Module BotV1.

(** [for creator in item["creators"]:
       if creator.get("address") == CNFT_CREATOR_ADDRESS: ... break]. *)
Fixpoint creator_loop (creators : list json) : outcome bool :=
  match creators with
  | [] => Ok false
  | creator :: rest =>
      address ← py_get creator "address" JNull;
      if is_str Bot.CNFT_CREATOR_ADDRESS address then Ok true else creator_loop rest
  end.

Definition has_creator (item : json) : outcome bool :=
  b ← py_contains "creators" item;
  if (b : bool) then
    cs ← py_getitem item "creators";
    l ← py_iter cs;
    creator_loop l
  else mret false.

(** [nft_name]; [JNull] is [None]. *)
Definition nft_name (item : json) : outcome json :=
  b ← py_contains "content" item;
  if (b : bool) then
    content ← py_getitem item "content";
    b' ← py_contains "metadata" content;
    if (b' : bool) then
      metadata ← py_getitem content "metadata";
      py_get metadata "name" (JStr "")
    else mret JNull
  else mret JNull.

(** [if has_creator and CNFT_NAME_MATCH in nft_name]. *)
Definition check_item (item : json) : outcome bool :=
  c ← has_creator item;
  name ← nft_name item;
  if (c : bool) then py_contains Bot.CNFT_NAME_MATCH name else mret false.

Fixpoint scan_items (items : list json) : outcome bool :=
  match items with
  | [] => Ok false
  | item :: rest =>
      hit ← check_item item;
      if (hit : bool) then Ok true else scan_items rest
  end.

(** The [try] block of [check_cnft], up to its [return]: whether the
    certificate was found. *)
Definition find_certificate (w : World) (address : string) : outcome bool :=
  data ← helius_post w 0%nat address;
  has_result ← py_contains "result" data;
  invalid ←
    (if negb has_result then mret true
     else
       res ← py_get data "result" (JDict []);
       has_items ← py_contains "items" res;
       mret (negb has_items));
  if (invalid : bool) then mret false
  else
    res ← py_getitem data "result";
    items ← py_getitem res "items";
    l ← py_iter items;
    scan_items l.

Definition check_cnft (w : World) : stm Bot.WalletProcessor unit :=
  Bot.task "check_cnft" (Bot.start None);;
  try_except
    (p ← get_state;
     found ← lift (find_certificate w (Bot.wallet_address p));
     (if (found : bool) then modify (Bot.set_result (set_cnft true)) else mret tt);;
     Bot.task "check_cnft" Bot.complete;;
     Bot.update_progress)
    (fun _ => Bot.task "check_cnft" Bot.fail;; Bot.update_progress).

Definition process_stages (w : World) (bl : gset string)
  : stm Bot.WalletProcessor WalletMetrics :=
  Bot.check_blacklist bl;;
  check_cnft w;;
  Bot.get_transactions w;;
  Bot.filter_meteora_transactions w;;
  Bot.process_timestamps;;
  Bot.calculate_activity_metrics;;
  Bot.extract_pool_addresses w;;
  Bot.get_pool_fees w;;
  p ← get_state;
  mret (Bot.result p).

Definition process (w : World) (bl : gset string) (address : string) : outcome WalletMetrics :=
  fst (process_stages w bl (Bot.new_processor address)).

End BotV1.

(** * What the claims compare the code with, and the worlds of the examples *)

(** [_days_in_month]. *)
Definition days_in_month (y m : Z) : Z :=
  nth (Z.to_nat m) DAYS_IN_MONTH 0 + (if (m =? 2) && is_leap y then 1 else 0).

(** The date of an ordinal is a date of the calendar, its ordinal is the one
    it came from, and its ISO week and weekday are in range. *)
Definition valid_date_of (ordinal : Z) : bool :=
  let '(y, m, d) := ord2ymd ordinal in
  let '(iy, iw, id) :=
    isocalendar {| year := y; month := m; day := d; hour := 0; minute := 0; second := 0 |} in
  (1 <=? m) && (m <=? 12) && (1 <=? d) && (d <=? days_in_month y m)
  && (ymd2ord y m d =? ordinal)
  && (y - 1 <=? iy) && (iy <=? y + 1) && (1 <=? iw) && (iw <=? 53)
  && (id =? (ordinal + 6) mod 7 + 1).

Fixpoint all_from (start : Z) (count : nat) (p : Z -> bool) : bool :=
  match count with
  | O => true
  | S k => p start && all_from (start + 1) k p
  end.

(** The program identifier an instruction object carries. *)
Definition program_id_of (instr : instruction) : Pubkey :=
  match instr with
  | ParsedInstruction pid => pid
  | UiPartiallyDecodedInstruction pid _ => pid
  end.

(** The filter's criterion as the specification words it: the transaction
    was fetched and some top-level instruction has the target program
    identifier. *)
Definition spec_keeps (w : World) (record : TransactionRecord) : bool :=
  match get_transaction w Filtering (fst record) with
  | Ok (Some instructions) =>
      existsb (fun instr => String.eqb (program_id_of instr) METEORA_PROGRAM_ID) instructions
  | _ => false
  end.

(** The criterion of the code: some top-level instruction is partially
    decoded and has the target program identifier. *)
Definition keeps (w : World) (record : TransactionRecord) : bool :=
  match get_transaction w Filtering (fst record) with
  | Ok (Some instructions) => existsb is_meteora instructions
  | _ => false
  end.

(** Two orders a process can have: that of [elements], and its reverse. *)
Definition elements_order : SetOrder :=
  {| list_of_set := elements; list_of_set_perm := fun s => Permutation_refl (elements s) |}.

Definition reverse_order : SetOrder :=
  {| list_of_set := fun s => reverse (elements s);
     list_of_set_perm := fun s => reverse_Permutation (elements s) |}.

(** A world in which nothing is reachable: every request fails. *)
Definition offline : World :=
  {| is_pubkey := fun _ => true;
     get_signatures_for_address := fun _ => Raise RPCException;
     get_transaction := fun _ _ => Raise RPCException;
     helius_post := fun _ _ => Raise RequestException;
     get_earning := fun _ _ => Raise RequestException;
     py_str := fun _ => EmptyString;
     float_of_string := fun _ => None;
     pool_order := elements_order |}.

(** [offline] with another transaction oracle. *)
Definition with_transactions (f : Stage -> Signature -> outcome (option (list instruction)))
    (w : World) : World :=
  {| is_pubkey := is_pubkey w;
     get_signatures_for_address := get_signatures_for_address w;
     get_transaction := f;
     helius_post := helius_post w;
     get_earning := get_earning w;
     py_str := py_str w;
     float_of_string := float_of_string w;
     pool_order := pool_order w |}.

Definition with_signatures (f : Pubkey -> outcome (list SignatureInfo)) (w : World) : World :=
  {| is_pubkey := is_pubkey w;
     get_signatures_for_address := f;
     get_transaction := get_transaction w;
     helius_post := helius_post w;
     get_earning := get_earning w;
     py_str := py_str w;
     float_of_string := float_of_string w;
     pool_order := pool_order w |}.

Definition with_assets (f : nat -> string -> outcome json) (w : World) : World :=
  {| is_pubkey := is_pubkey w;
     get_signatures_for_address := get_signatures_for_address w;
     get_transaction := get_transaction w;
     helius_post := f;
     get_earning := get_earning w;
     py_str := py_str w;
     float_of_string := float_of_string w;
     pool_order := pool_order w |}.

Definition with_earnings (f : string -> string -> outcome json) (w : World) : World :=
  {| is_pubkey := is_pubkey w;
     get_signatures_for_address := get_signatures_for_address w;
     get_transaction := get_transaction w;
     helius_post := helius_post w;
     get_earning := f;
     py_str := py_str w;
     float_of_string := float_of_string w;
     pool_order := pool_order w |}.

(** The same network seen from a process with another order. *)
Definition with_pool_order (o : SetOrder) (w : World) : World :=
  {| is_pubkey := is_pubkey w;
     get_signatures_for_address := get_signatures_for_address w;
     get_transaction := get_transaction w;
     helius_post := helius_post w;
     get_earning := get_earning w;
     py_str := py_str w;
     float_of_string := float_of_string w;
     pool_order := o |}.

Definition with_pubkeys (f : string -> bool) (w : World) : World :=
  {| is_pubkey := f;
     get_signatures_for_address := get_signatures_for_address w;
     get_transaction := get_transaction w;
     helius_post := helius_post w;
     get_earning := get_earning w;
     py_str := py_str w;
     float_of_string := float_of_string w;
     pool_order := pool_order w |}.

(** A node that answers every lookup with one fully parsed instruction
    carrying the target program identifier. *)
Definition parsed_only : World :=
  with_transactions (fun _ _ => Ok (Some [ParsedInstruction METEORA_PROGRAM_ID])) offline.

(** The pool address an instruction offers: index 2 of the account list of a
    partially decoded instruction of the target program, when it has one. *)
Definition pool_candidate (instr : instruction) : option string :=
  match instr with
  | UiPartiallyDecodedInstruction pid accounts =>
      if String.eqb pid METEORA_PROGRAM_ID then accounts !! 2%nat else None
  | ParsedInstruction _ => None
  end.

Definition candidate_pools (instructions : list instruction) : list string :=
  omap pool_candidate instructions.

(** The candidates of a transaction as the extraction stage fetches it;
    none when the fetch fails or yields nothing. *)
Definition fetched_pools (w : World) (sig : Signature) : list string :=
  match get_transaction w Extracting sig with
  | Ok (Some instructions) => candidate_pools instructions
  | _ => []
  end.

(** The extraction as the specification words it: index 2 of the first
    matching instruction, and nothing when that index is out of range. *)
Fixpoint spec_pool_of_instructions (instructions : list instruction) : option string :=
  match instructions with
  | [] => None
  | instr :: rest =>
      if is_meteora instr then pool_candidate instr
      else spec_pool_of_instructions rest
  end.

Definition spec_extract_pool_address (w : World) (sig : Signature) : option string :=
  match get_transaction w Extracting sig with
  | Ok (Some instructions) => spec_pool_of_instructions instructions
  | _ => None
  end.

(** A transaction whose first matching instruction has two accounts and
    whose second has three. *)
Definition short_then_long : World :=
  with_transactions
    (fun _ _ =>
       Ok (Some [UiPartiallyDecodedInstruction METEORA_PROGRAM_ID ["a0"; "a1"];
                 UiPartiallyDecodedInstruction METEORA_PROGRAM_ID ["b0"; "b1"; "pool"]]))
    offline.

(** An asset search that answers with one asset whose [name] is [null]. *)
Definition null_name_assets : World :=
  with_assets
    (fun _ _ => Ok (JDict [("result", JDict [("items", JList [JDict [("name", JNull)]])])]))
    offline.

(** A world whose addresses never parse, and whose asset search finds the
    certificate mint. *)
Definition unparsable : World :=
  with_pubkeys (fun _ => false)
    (with_assets
       (fun _ _ =>
          Ok (JDict [("result", JDict [("items", JList [JDict [("id", JStr Cli.CNFT_MINT)]])])]))
       offline).

(** A world whose addresses never parse and whose asset search fails. *)
Definition never_parses : World := with_pubkeys (fun _ => false) offline.

Definition in_datetime_range (ts : Z) : Prop := MIN_TIMESTAMP <= ts <= MAX_TIMESTAMP.

(** The (ISO year, ISO week) pair and the (year, month) pair of the UTC date
    of a timestamp. *)
Definition iso_week (ts : Z) : Z * Z :=
  let '(y, week, _) := isocalendar (gmtime ts) in (y, week).

Definition calendar_month (ts : Z) : Z * Z := (year (gmtime ts), month (gmtime ts)).

(** The timestamps of the protocol transactions of a wallet, as the
    command-line tool obtains them. *)
Definition protocol_timestamps (w : World) (address : string) : list Z :=
  match Cli.get_transactions w address with
  | Ok records => omap snd (Cli.filter_meteora_transactions w records)
  | Raise _ => []
  end.

(** The fee the per-pool lookup reports: the field converted by [float],
    and [0.0] when the request fails, the body is not an object, the field
    is absent, or the conversion fails. *)
Definition reported_fee (w : World) (address pool : string) : float :=
  match get_earning w address pool with
  | Ok (JDict kvs) =>
      match dict_get "total_fee_usd_claimed" kvs with
      | Some v =>
          match py_float (float_of_string w) v with
          | Ok f => f
          | Raise _ => 0%float
          end
      | None => 0%float
      end
  | _ => 0%float
  end.

(** Three pools that report 0.02, 0.0 and 5.00. *)
Definition three_pools : World :=
  with_earnings
    (fun _ pool =>
       if String.eqb pool "pool1" then Ok (JDict [("total_fee_usd_claimed", JFloat 0.02%float)])
       else if String.eqb pool "pool2" then Ok (JDict [("total_fee_usd_claimed", JFloat 0%float)])
       else if String.eqb pool "pool3" then Ok (JDict [("total_fee_usd_claimed", JInt 5)])
       else Raise RequestException)
    offline.

(** The first-transaction text of a list of timestamps. *)
Definition first_tx_of (timestamps : list Z) : string :=
  match timestamps with
  | [] => "N/A"
  | t :: rest => strftime_dmY (gmtime (fold_left Z.min rest t))
  end.

(** The pools the command-line tool queries for a wallet, in the order in
    which it queries them. *)
Definition queried_pools (w : World) (address : string) : list string :=
  match Cli.get_transactions w address with
  | Ok records =>
      list_of_set (pool_order w)
               (list_to_set
                  (omap (fun r : TransactionRecord => head (fetched_pools w (fst r)))
                        (Cli.filter_meteora_transactions w records)) : gset string)
  | Raise _ => []
  end.

(** A wallet whose history is one protocol transaction per timestamp. *)
Definition ledger (timestamps : list Z) : World :=
  with_signatures
    (fun _ => Ok (map (fun t => {| signature := "5sig"; block_time := Some t |}) timestamps))
    (with_transactions
       (fun _ _ => Ok (Some [UiPartiallyDecodedInstruction METEORA_PROGRAM_ID []]))
       offline).

(** [v[k]] when [v] is an object that has the key. *)
Definition field (k : string) (v : json) : option json :=
  match v with
  | JDict kvs => dict_get k kvs
  | _ => None
  end.

(** [o[k]] below an optional object. *)
Definition subfield (k : string) (o : option json) : option json :=
  match o with
  | Some v => field k v
  | None => None
  end.

Definition list_or_absent (o : option json) : bool :=
  match o with
  | None | Some (JList _) => true
  | _ => false
  end.

Definition str_or_absent (o : option json) : bool :=
  match o with
  | None | Some (JStr _) => true
  | _ => false
  end.

Definition dict_or_absent (check : json -> bool) (o : option json) : bool :=
  match o with
  | None => true
  | Some (JDict kvs) => check (JDict kvs)
  | _ => false
  end.

(** An asset of the expected shape: an object whose [creators] (also under
    [content]) is a list when present, whose [name] (also under [content]
    and [content.metadata]) is a string when present, and whose [content]
    and [content.metadata] are objects when present. *)
Definition plain_asset (item : json) : bool :=
  match item with
  | JDict _ =>
      list_or_absent (field "creators" item)
      && str_or_absent (field "name" item)
      && dict_or_absent
           (fun content =>
              list_or_absent (field "creators" content)
              && str_or_absent (field "name" content)
              && dict_or_absent (fun metadata => str_or_absent (field "name" metadata))
                   (field "metadata" content))
           (field "content" item)
  | _ => false
  end.

(** The items of a response without [error] whose [result.items] is a list. *)
Definition payload_items (data : json) : option (list json) :=
  match data with
  | JDict _ =>
      match field "error" data, field "result" data with
      | None, Some (JDict rkvs) =>
          match dict_get "items" rkvs with
          | Some (JList items) => Some items
          | _ => None
          end
      | _, _ => None
      end
  | _ => None
  end.

Definition listed (o : option json) : list json :=
  match o with
  | Some (JList l) => l
  | _ => []
  end.

Definition names_certificate (o : option json) : bool :=
  match o with
  | Some (JStr s) => substringb Bot.CNFT_NAME_MATCH s
  | _ => false
  end.

Definition has_top_creator (item : json) : bool :=
  existsb Bot.is_target_creator (listed (field "creators" item)).

Definition has_content_creator (item : json) : bool :=
  existsb Bot.is_target_creator (listed (subfield "creators" (field "content" item))).

Definition has_creator (item : json) : bool :=
  has_top_creator item || has_content_creator item.

Definition has_name (item : json) : bool :=
  names_certificate (subfield "name" (subfield "metadata" (field "content" item)))
  || names_certificate (field "name" item)
  || names_certificate (subfield "name" (field "content" item)).

Definition mentions_meteora (w : World) (item : json) : bool :=
  match field "content" item with
  | Some content => substringb "meteora" (lower (py_str w content))
  | None => false
  end.

(** The decision of the bot on a list of assets. *)
Definition holds_certificate (w : World) (items : list json) : bool :=
  existsb
    (fun item =>
       has_creator item && has_name item
       || has_creator item && mentions_meteora w item
       || has_top_creator item)
    items.





(** The certificate as the bot expects it: the creator at top level and the
    name under [content.metadata]. *)
Definition certificate_item : json :=
  JDict [("id", JStr "9assetid");
         ("creators", JList [JDict [("address", JStr Bot.CNFT_CREATOR_ADDRESS)]]);
         ("content",
          JDict [("metadata", JDict [("name", JStr "Meteora LP Army Certificate #7")])])].

Definition certificate_holder : World :=
  {| is_pubkey := fun _ => true;
     get_signatures_for_address := fun _ => Raise RPCException;
     get_transaction := fun _ _ => Raise RPCException;
     helius_post :=
       fun _ _ => Ok (JDict [("result", JDict [("items", JList [certificate_item])])]);
     get_earning := fun _ _ => Raise RequestException;
     py_str := fun _ => "{'metadata': {'name': 'Meteora LP Army Certificate #7'}}";
     float_of_string := fun _ => None;
     pool_order := elements_order |}.

(** A wallet with two protocol transactions in two pools, and a third
    signature without block time. *)
Definition active_wallet : World :=
  {| is_pubkey := fun _ => true;
     get_signatures_for_address :=
       fun _ => Ok [{| signature := "5sigA"; block_time := Some 1700000000 |};
                    {| signature := "5sigB"; block_time := Some 1650000000 |};
                    {| signature := "5sigC"; block_time := None |}];
     get_transaction :=
       fun _ sig =>
         if String.eqb sig "5sigA" then
           Ok (Some [ParsedInstruction "11111111111111111111111111111111";
                     UiPartiallyDecodedInstruction METEORA_PROGRAM_ID ["a0"; "a1"; "pool1"]])
         else if String.eqb sig "5sigB" then
           Ok (Some [UiPartiallyDecodedInstruction METEORA_PROGRAM_ID ["b0"; "b1"; "pool3"]])
         else Raise RPCException;
     helius_post :=
       fun _ _ => Ok (JDict [("result", JDict [("items", JList [certificate_item])])]);
     get_earning := get_earning three_pools;
     py_str := fun _ => "{'metadata': {'name': 'Meteora LP Army Certificate #7'}}";
     float_of_string := fun _ => None;
     pool_order := elements_order |}.

(** * What the further properties speak about *)

(** No character of the text is white space. *)
Fixpoint no_space (s : string) : bool :=
  match s with
  | EmptyString => true
  | String c rest => negb (isspace c) && no_space rest
  end.

(** Every character of the text is white space. *)
Fixpoint blank (s : string) : bool :=
  match s with
  | EmptyString => true
  | String c rest => isspace c && blank rest
  end.

(** The text without its white space. *)
Fixpoint visible (s : string) : string :=
  match s with
  | EmptyString => EmptyString
  | String c rest => if isspace c then visible rest else String c (visible rest)
  end.

(** A word as [split] yields them. *)
Definition is_word (w : string) : Prop := w <> EmptyString /\ no_space w = true.

(** The address a row of the blacklist file offers. *)
Definition address_of (row : gmap string (option string)) : option string :=
  match row !! "address"%string with
  | Some (Some address) => Some address
  | _ => None
  end.

(** The time the selection loop reads for the endpoint [i] of a list. *)
Definition usage_time (m : ApiManager.APIManager) (endpoint_list : list string) (i : nat)
  : float :=
  ApiManager.last_used_time m (ApiManager.key_of m endpoint_list i).

(** The indices the next call of [get_endpoints_for_user] gives the user. *)
Definition next_indices (m : ApiManager.APIManager) (user_id : Z) : nat * nat :=
  match ApiManager.user_counters m !! user_id with
  | None =>
      (ApiManager._get_least_used_index m (ApiManager.rpc_urls m),
       ApiManager._get_least_used_index m (ApiManager.helius_api_keys m))
  | Some (rpc_index, helius_index) =>
      ((rpc_index + 1) mod length (ApiManager.rpc_urls m),
       (helius_index + 1) mod length (ApiManager.helius_api_keys m))%nat
  end.

(** A manager with two endpoints of each kind, before any request. *)
Definition two_endpoints : ApiManager.APIManager :=
  ApiManager.new ["https://rpc-a.example"; "https://rpc-b.example"] ["key-a"; "key-b"].

(** A manager without any RPC endpoint. *)
Definition no_rpc_endpoint : ApiManager.APIManager := ApiManager.new [] ["key-a"].

(** A host with both endpoint files, a blacklist file and one report of the
    day: the second RPC line is blank, the third blacklist row is short. *)
Definition configured_host : Host :=
  {| files := {[ "RPC_URL.txt"; "HELIUS_API_KEY.txt"; "kelsier_addresses.csv";
                 "Meteora_20240229_0.csv" ]}%string;
     read_lines :=
       fun path =>
         if String.eqb path "RPC_URL.txt" then
           Some (["https://rpc-a.example" +:+ String "010" "";
                  "   " +:+ String "010" "";
                  "  https://rpc-b.example" +:+ String "010" ""], EndOfFile)
         else if String.eqb path "HELIUS_API_KEY.txt" then
           Some (["key-a" +:+ String "010" ""; "key-b" +:+ String "010" ""], EndOfFile)
         else None;
     read_csv :=
       fun path =>
         if String.eqb path "kelsier_addresses.csv" then
           Some ([{[ "address"%string := Some " 7wallet"%string ]};
                  {[ "address"%string := Some "8wallet "%string ]};
                  {[ "address"%string := None ]};
                  {[ "address"%string := Some "9wallet"%string ]}], EndOfFile)
         else None;
     environ := ∅;
     now := {| year := 2024; month := 2; day := 29; hour := 12; minute := 0; second := 0 |} |}.

(** A host on which reading the RPC file fails after its first line, and
    no environment variable is set. *)
Definition interrupted_host : Host :=
  {| files := {[ "RPC_URL.txt" ]}%string;
     read_lines :=
       fun _ => Some (["https://rpc-a.example" +:+ String "010" ""], ReadFails);
     read_csv := fun _ => None;
     environ := ∅;
     now := {| year := 2024; month := 2; day := 29; hour := 12; minute := 0; second := 0 |} |}.

(** ** A program logic for the state-and-exception monad *)

(** From a state in [P] the statement ends in a state in [Q a] when it
    returns [a], and in a state in [R] when it raises. *)
Definition triple {S A} (P : S -> Prop) (c : stm S A) (Q : A -> S -> Prop) (R : S -> Prop)
  : Prop :=
  forall s, P s ->
    match c s with
    | (Ok a, s') => Q a s'
    | (Raise _, s') => R s'
    end.


(** A task has ended: its status is [completed] or [failed]. *)
Definition settled (name : string) (p : Bot.WalletProcessor) : Prop :=
  exists t, Bot.tasks p !! name = Some t
            /\ (Bot.status t = "completed"%string \/ Bot.status t = "failed"%string).

(** Every task of the processor exists, and those of [names] have ended. *)
Definition tasks_settled (names : list string) (p : Bot.WalletProcessor) : Prop :=
  (forall name, In name Bot.task_names -> is_Some (Bot.tasks p !! name))
  /\ (forall name, In name names -> settled name p).


(** The statement keeps the states in [I], whether it returns or raises. *)
Definition preserves {S A} (I : S -> Prop) (c : stm S A) : Prop :=
  triple I c (fun _ => I) I.

(** The statement returns, in a state in [Q]: it does not raise. *)
Definition returns {S A} (P : S -> Prop) (c : stm S A) (Q : S -> Prop) : Prop :=
  triple P c (fun _ => Q) (fun _ => False).


(** The processor works for [address], and its record carries the address
    and the blacklist flag [b]. *)
Definition record_for (address : string) (b : bool) (p : Bot.WalletProcessor) : Prop :=
  Bot.wallet_address p = address
  /\ wallet (Bot.result p) = address
  /\ blacklist (Bot.result p) = b.


(** The record of the command-line tool carries the address, the blacklist
    flag [b] and the certificate flag [c]. *)
Definition flags_set (address : string) (b c : bool) (r : WalletMetrics) : Prop :=
  wallet r = address /\ blacklist r = b /\ cnft r = c.

(** A transaction with two instructions of the target program, each with
    its own pool. *)
Definition two_pools_one_transaction : World :=
  with_signatures
    (fun _ => Ok [{| signature := "5sig"; block_time := Some 1700000000 |}])
    (with_transactions
       (fun _ _ =>
          Ok (Some [UiPartiallyDecodedInstruction METEORA_PROGRAM_ID ["a0"; "a1"; "pool1"];
                    UiPartiallyDecodedInstruction METEORA_PROGRAM_ID ["b0"; "b1"; "pool2"]]))
       offline).

(** ** What [percent] cannot compute *)

(** The least magnitude that binary64 rounding takes to an infinity: half
    a unit in the last place above the greatest finite float. *)
Definition FLOAT_OVERFLOW : Z := 2 ^ 1024 - 2 ^ 970.

(** The fraction [n / d], for [0 < d], is beyond the float range: rounding
    it gives an infinity. *)
Definition beyond_float_range (n d : Z) : Prop := FLOAT_OVERFLOW * d <= Z.abs n.

(** The product of a float with 100 is beyond the float range. *)
Definition times_100_beyond_float_range (x : Binary64.f64) : Prop :=
  match x with
  | Binary64.Finite m e =>
      if 0 <=? e then beyond_float_range (100 * m * 2 ^ e) 1
      else beyond_float_range (100 * m) (2 ^ (- e))
  | Binary64.Infinity _ => True
  | Binary64.NaN => False
  end.

(** The states in which [percent] cannot finish: the quotient
    [current / total], or the product of the rounded quotient with 100, is
    beyond the float range. *)
Definition percent_overflows (current total : Z) : Prop :=
  beyond_float_range current total
  \/ times_100_beyond_float_range (Binary64.round64 current total).

(** ** The order of the pools and the fee total *)






(** Three protocol transactions with one pool each; the pools report the
    fees 0.2, 0.3 and 0.1. *)
Definition three_small_fees : World :=
  with_signatures
    (fun _ => Ok [{| signature := "5sigA"; block_time := Some 1700000000 |};
                  {| signature := "5sigB"; block_time := Some 1700000060 |};
                  {| signature := "5sigC"; block_time := Some 1700000120 |}])
    (with_transactions
       (fun _ sig =>
          Ok (Some [UiPartiallyDecodedInstruction METEORA_PROGRAM_ID
                      ["a0"; "a1";
                       if String.eqb sig "5sigA" then "pool1"
                       else if String.eqb sig "5sigB" then "pool2" else "pool3"]]))
       (with_earnings
          (fun _ pool =>
             if String.eqb pool "pool1" then
               Ok (JDict [("total_fee_usd_claimed", JFloat 0.2%float)])
             else if String.eqb pool "pool2" then
               Ok (JDict [("total_fee_usd_claimed", JFloat 0.3%float)])
             else Ok (JDict [("total_fee_usd_claimed", JFloat 0.1%float)]))
          offline)).

(** The value of an outcome, if any. *)
Definition option_of {A} (r : outcome A) : option A :=
  match r with
  | Ok a => Some a
  | Raise _ => None
  end.

(** * Properties *)

(** ** Tactics for the two monads *)

Ltac unfold_monads :=
  unfold mbind, mret, stm_bind, stm_ret, outcome_bind, outcome_ret,
    lift, modify, get_state, try_except, try_outcome in *.

Ltac unfold_bot :=
  unfold Bot.task, Bot.update_progress in *; unfold_monads.

(** ** The calendar model *)

Lemma all_from_spec p count :
  forall start, all_from start count p = true ->
  forall n, start <= n < start + Z.of_nat count -> p n = true.
Proof.
  induction count as [|k IH]; intros start H n Hn; [lia|].
  cbn [all_from] in H. apply andb_prop in H as [Hstart Hrest].
  destruct (Z.eq_dec n start) as [->|Hne]; [exact Hstart|].
  apply (IH (start + 1) Hrest). lia.
Qed.

(** Every day from 2020-01-01 to 2039-12-31, by evaluation. *)
Lemma dates_2020_2040 : all_from 737425 (Z.to_nat 7305) valid_date_of = true.
Proof. vm_compute. reflexivity. Qed.

(** For a timestamp of the years 2020 to 2039, [gmtime] yields a date of the
    calendar whose ordinal is the day of the timestamp, and [isocalendar]
    yields a week from 1 to 53 and the weekday of that ordinal. *)
Lemma gmtime_is_a_date ts iy iw id :
  1577836800 <= ts < 2208988800 ->
  isocalendar (gmtime ts) = (iy, iw, id) ->
  let date := gmtime ts in
  1 <= month date <= 12
  /\ 1 <= day date <= days_in_month (year date) (month date)
  /\ ymd2ord (year date) (month date) (day date) = EPOCH_ORDINAL + ts / 86400
  /\ year date - 1 <= iy <= year date + 1 /\ 1 <= iw <= 53
  /\ id = (EPOCH_ORDINAL + ts / 86400 + 6) mod 7 + 1.
Proof.
  intros Hts Hiso.
  assert (Hord : 737425 <= EPOCH_ORDINAL + ts / 86400 < 737425 + Z.of_nat (Z.to_nat 7305)).
  { rewrite Z2Nat.id by lia. unfold EPOCH_ORDINAL.
    assert (18262 <= ts / 86400) by (apply Z.div_le_lower_bound; lia).
    assert (ts / 86400 < 25567) by (apply Z.div_lt_upper_bound; lia). lia. }
  pose proof (all_from_spec _ _ _ dates_2020_2040 _ Hord) as H.
  unfold valid_date_of in H. unfold gmtime in *. cbn zeta in *.
  destruct (ord2ymd (EPOCH_ORDINAL + ts / 86400)) as [[y m] d].
  unfold isocalendar in *. cbn [year month day] in *.
  rewrite Hiso in H.
  repeat (apply andb_prop in H as [H ?]).
  repeat match goal with
         | H : (_ <=? _) = true |- _ => apply Z.leb_le in H
         | H : (_ =? _) = true |- _ => apply Z.eqb_eq in H
         end.
  repeat split; lia.
Qed.

(** ** The transaction-history fetcher *)

Lemma truthy_is_Some (t : option Z) : truthy t = true -> is_Some t.
Proof. destruct t; [eauto | discriminate]. Qed.

Lemma fetched_records_truthy (value : list SignatureInfo) :
  Forall (fun r : TransactionRecord => truthy (snd r) = true)
    (map (fun sig => (signature sig, block_time sig))
       (List.filter (fun sig => truthy (block_time sig)) value)).
Proof.
  induction value as [|sig value IH]; simpl; [constructor|].
  destruct (truthy (block_time sig)) eqn:E; simpl; [constructor; assumption | assumption].
Qed.

(** ** The protocol filter *)

Lemma scan_instructions_spec record instructions acc :
  scan_instructions record instructions acc =
  if existsb is_meteora instructions then acc ++ [record] else acc.
Proof.
  induction instructions as [|instr rest IH]; simpl; [reflexivity|].
  destruct (is_meteora instr); simpl; [reflexivity | exact IH].
Qed.

Lemma filter_step_spec w acc record :
  filter_step w acc record = if keeps w record then acc ++ [record] else acc.
Proof.
  unfold filter_step, keeps.
  destruct (get_transaction w Filtering (fst record)) as [[instructions|]|e];
    [apply scan_instructions_spec | reflexivity | reflexivity].
Qed.

Lemma filter_fold w transactions acc :
  fold_left (filter_step w) transactions acc = acc ++ List.filter (keeps w) transactions.
Proof.
  revert acc; induction transactions as [|record rest IH]; intros acc; simpl.
  - symmetry; apply app_nil_r.
  - rewrite IH, filter_step_spec.
    destruct (keeps w record); [rewrite <- app_assoc; reflexivity | reflexivity].
Qed.

Lemma filter_meteora_transactions_eq w transactions :
  Cli.filter_meteora_transactions w transactions = List.filter (keeps w) transactions.
Proof. unfold Cli.filter_meteora_transactions. apply filter_fold. Qed.

Lemma keeps_iff w record :
  keeps w record = true <->
  exists instructions pid accounts,
    get_transaction w Filtering (fst record) = Ok (Some instructions)
    /\ In (UiPartiallyDecodedInstruction pid accounts) instructions
    /\ pid = METEORA_PROGRAM_ID.
Proof.
  unfold keeps. split.
  - destruct (get_transaction w Filtering (fst record)) as [[instructions|]|e];
      try discriminate.
    intros H. apply existsb_exists in H as [instr [Hin Hm]].
    destruct instr as [pid|pid accounts]; simpl in Hm; [discriminate|].
    apply String.eqb_eq in Hm. eauto 6.
  - intros (instructions & pid & accounts & -> & Hin & ->).
    apply existsb_exists. eexists; split; [exact Hin|]. reflexivity.
Qed.

Lemma bot_filter_loop w l :
  forall index p, exists p',
    Bot.filter_loop w l index p = (Ok tt, p')
    /\ Bot.meteora_transactions p' = fold_left (filter_step w) l (Bot.meteora_transactions p)
    /\ Bot.transactions p' = Bot.transactions p.
Proof.
  induction l as [|record rest IH]; intros index p.
  - exists p. repeat split.
  - cbn [Bot.filter_loop]. unfold_bot.
    destruct (get_transaction w Filtering (fst record)) as [[instructions|]|e];
      match goal with
      | |- context [Bot.filter_loop w rest ?i ?s] =>
          destruct (IH i s) as (p' & -> & Hm & Ht)
      end;
      exists p'; (split; [reflexivity|]); rewrite Hm, Ht; split; reflexivity.
Qed.

Lemma bot_filter_stage w p :
  exists p',
    Bot.filter_meteora_transactions w p = (Ok tt, p')
    /\ Bot.meteora_transactions p' = List.filter (keeps w) (Bot.transactions p)
    /\ Bot.transactions p' = Bot.transactions p.
Proof.
  unfold Bot.filter_meteora_transactions. unfold_bot.
  match goal with
  | |- context [Bot.filter_loop w ?l ?i ?s] =>
      destruct (bot_filter_loop w l i s) as (p' & -> & Hm & Ht)
  end.
  eexists; split; [reflexivity|]. cbn. rewrite Hm, Ht. cbn.
  split; [apply (filter_fold w _ []) | reflexivity].
Qed.

Lemma list_filter_sublist {A} (f : A -> bool) (l : list A) : sublist (List.filter f l) l.
Proof.
  induction l as [|x l IH]; simpl; [constructor|].
  destruct (f x); [apply sublist_skip | apply sublist_cons]; exact IH.
Qed.

Lemma Forall_list_filter {A} (P : A -> Prop) (f : A -> bool) (l : list A) :
  Forall P l -> Forall P (List.filter f l).
Proof.
  induction 1 as [|x l Hx Hl IH]; simpl; [constructor|].
  destruct (f x); [constructor; assumption | assumption].
Qed.

Lemma scan_stops_at_first_match record pre instr post acc :
  existsb is_meteora pre = false -> is_meteora instr = true ->
  scan_instructions record (pre ++ instr :: post) acc = acc ++ [record].
Proof.
  intros Hpre Hinstr. induction pre as [|i pre IH]; simpl in *.
  - rewrite Hinstr. reflexivity.
  - apply orb_false_iff in Hpre as [-> Hpre]. apply IH, Hpre.
Qed.

(** C3, as stated, fails: an instruction that carries the target program
    identifier but is not partially decoded does not make the filter keep
    the record. *)
Lemma C3_filter_ignores_parsed_instructions :
  Cli.filter_meteora_transactions parsed_only [("5sig"%string, Some 1700000000)]
  <> List.filter (spec_keeps parsed_only) [("5sig"%string, Some 1700000000)].
Proof. vm_compute. discriminate. Qed.

(** C3 (amended): for every input list the protocol filter returns the
    sub-list, in the same relative order, of exactly those records whose
    transaction was fetched and has a partially decoded top-level instruction
    with the target program identifier; the instruction scan appends the
    record once, at the first match, whatever follows; a record whose fetch
    fails or yields nothing is skipped and the rest is still processed.  The
    bot's stage computes the same list. *)
Theorem C3_filter_meteora_transactions (w : World) (transactions : list TransactionRecord) :
  Cli.filter_meteora_transactions w transactions = List.filter (keeps w) transactions
  /\ sublist (Cli.filter_meteora_transactions w transactions) transactions
  /\ (forall record, keeps w record = true <->
        exists instructions pid accounts,
          get_transaction w Filtering (fst record) = Ok (Some instructions)
          /\ In (UiPartiallyDecodedInstruction pid accounts) instructions
          /\ pid = METEORA_PROGRAM_ID)
  /\ (forall record pre instr post acc,
        existsb is_meteora pre = false -> is_meteora instr = true ->
        scan_instructions record (pre ++ instr :: post) acc = acc ++ [record])
  /\ (forall p,
        fst (Bot.filter_meteora_transactions w p) = Ok tt
        /\ Bot.meteora_transactions (snd (Bot.filter_meteora_transactions w p))
           = List.filter (keeps w) (Bot.transactions p)).
Proof.
  split; [apply filter_meteora_transactions_eq|].
  split; [rewrite filter_meteora_transactions_eq; apply list_filter_sublist|].
  split; [apply keeps_iff|].
  split; [apply scan_stops_at_first_match|].
  intros p. destruct (bot_filter_stage w p) as (p' & -> & Hm & _).
  split; [reflexivity | exact Hm].
Qed.

(** C8: every record the transaction-history fetcher produces has a block
    timestamp (not [None]); the records are those of the signatures whose
    block time is present, so signatures without one are dropped; a failure
    of the request yields the empty list; and the records that the protocol
    filter passes on have timestamps too.  The same holds for the bot's
    stage, started on a fresh processor. *)
Theorem C8_records_have_timestamps (w : World) (wallet : Pubkey) (address : string) :
  exists records,
    Cli.get_transactions w wallet = Ok records
    /\ Forall (fun r => is_Some (snd r)) records
    /\ Forall (fun r => is_Some (snd r)) (Cli.filter_meteora_transactions w records)
    /\ (forall value, get_signatures_for_address w wallet = Ok value ->
          forall r, In r records <->
            exists sig, In sig value /\ r = (signature sig, block_time sig)
                        /\ truthy (block_time sig) = true)
    /\ (forall e, get_signatures_for_address w wallet = Raise e -> records = [])
    /\ Forall (fun r => is_Some (snd r))
         (Bot.transactions (snd (Bot.get_transactions w (Bot.new_processor address)))).
Proof.
  assert (Hsome : forall value : list SignatureInfo,
             Forall (fun r : TransactionRecord => is_Some (snd r))
               (map (fun sig => (signature sig, block_time sig))
                  (List.filter (fun sig => truthy (block_time sig)) value))).
  { intros value. eapply Forall_impl; [apply fetched_records_truthy|].
    intros r Hr. apply truthy_is_Some, Hr. }
  unfold Cli.get_transactions. unfold_monads.
  destruct (get_signatures_for_address w wallet) as [value|e] eqn:E.
  - eexists; split; [reflexivity|]. split; [apply Hsome|].
    split.
    { rewrite filter_meteora_transactions_eq.
      apply Forall_list_filter, Hsome. }
    split.
    { intros value' [= <-] r. rewrite in_map_iff. split.
      - intros (sig & <- & Hin). apply filter_In in Hin as [Hin Ht]. eauto.
      - intros (sig & Hin & -> & Ht). exists sig. split; [reflexivity|].
        apply filter_In. split; assumption. }
    split; [discriminate|].
    unfold Bot.get_transactions. unfold_bot. unfold Pubkey_from_string. cbn.
    destruct (is_pubkey w address); cbn; [|constructor].
    destruct (get_signatures_for_address w address); cbn; [apply Hsome | constructor].
  - exists []. split; [reflexivity|]. split; [constructor|]. split; [constructor|].
    split; [discriminate|]. split; [reflexivity|].
    unfold Bot.get_transactions. unfold_bot. unfold Pubkey_from_string. cbn.
    destruct (is_pubkey w address); cbn; [|constructor].
    destruct (get_signatures_for_address w address); cbn; [apply Hsome | constructor].
Qed.

(** ** The pool-address extractor *)

Lemma pool_of_instructions_spec instructions :
  Cli.pool_of_instructions instructions = Ok (head (candidate_pools instructions)).
Proof.
  induction instructions as [|instr rest IH]; [reflexivity|].
  unfold candidate_pools in *. cbn [Cli.pool_of_instructions omap list_omap pool_candidate].
  destruct instr as [pid|pid accounts]; [exact IH|].
  cbn [pool_candidate].
  destruct (String.eqb pid METEORA_PROGRAM_ID); [|exact IH].
  unfold list_getitem. unfold_monads.
  destruct (accounts !! 2%nat) as [a|]; [reflexivity | exact IH].
Qed.

Lemma extract_pool_address_spec w sig :
  Cli.extract_pool_address w sig = Ok (head (fetched_pools w sig)).
Proof.
  unfold Cli.extract_pool_address, fetched_pools. unfold_monads.
  destruct (get_transaction w Extracting sig) as [[instructions|]|e];
    [|reflexivity|reflexivity].
  rewrite pool_of_instructions_spec. reflexivity.
Qed.

Lemma pool_set_spec w (l : list TransactionRecord) :
  Cli.pool_set w l
  = Ok (list_to_set (omap (fun r : TransactionRecord => head (fetched_pools w (fst r))) l)).
Proof.
  induction l as [|[sig ts] rest IH]; [reflexivity|].
  cbn [Cli.pool_set]. rewrite extract_pool_address_spec, IH. unfold_monads.
  cbn [omap list_omap fst]. destruct (head (fetched_pools w sig)); reflexivity.
Qed.

Lemma add_pools_spec instructions :
  forall unique : gset string,
    Bot.add_pools instructions unique
    = (Ok tt, list_to_set (candidate_pools instructions) ∪ unique).
Proof.
  unfold candidate_pools.
  induction instructions as [|instr rest IH]; intros unique.
  - cbn. f_equal. set_solver.
  - cbn [Bot.add_pools omap list_omap]. unfold_monads.
    destruct instr as [pid|pid accounts]; cbn [pool_candidate]; [apply IH|].
    destruct (String.eqb pid METEORA_PROGRAM_ID); [|apply IH].
    unfold list_getitem.
    destruct (accounts !! 2%nat) as [a|]; rewrite IH; [|reflexivity].
    f_equal. cbn. set_solver.
Qed.

Lemma add_pools_of_spec w sig (unique : gset string) :
  Bot.add_pools_of w sig unique = (Ok tt, list_to_set (fetched_pools w sig) ∪ unique).
Proof.
  unfold Bot.add_pools_of, fetched_pools. unfold_monads.
  destruct (get_transaction w Extracting sig) as [[instructions|]|e].
  - rewrite add_pools_spec. reflexivity.
  - f_equal. set_solver.
  - f_equal. set_solver.
Qed.

Lemma bot_extract_loop w l :
  forall index (unique : gset string) p, exists p',
    Bot.extract_loop w l index unique p
    = (Ok (list_to_set (concat (map (fun r : TransactionRecord => fetched_pools w (fst r)) l))
           ∪ unique), p')
    /\ Bot.pool_addresses p' = Bot.pool_addresses p.
Proof.
  induction l as [|[sig ts] rest IH]; intros index unique p.
  - exists p. split; [|reflexivity]. cbn [Bot.extract_loop map concat]. unfold_monads.
    f_equal. f_equal. set_solver.
  - cbn [Bot.extract_loop]. unfold_bot. rewrite add_pools_of_spec. cbn [snd].
    destruct (get_transaction w Extracting sig) as [[instructions|]|e];
      match goal with
      | |- context [Bot.extract_loop w rest ?i ?u ?s] =>
          destruct (IH i u s) as (p' & -> & Hp)
      end;
      exists p'; (split; [|exact Hp]); f_equal; f_equal; cbn [map concat fst];
      rewrite list_to_set_app_L; set_solver.
Qed.

Lemma candidate_pools_iff instructions x :
  In x (candidate_pools instructions) <->
  exists pid accounts,
    In (UiPartiallyDecodedInstruction pid accounts) instructions
    /\ pid = METEORA_PROGRAM_ID /\ accounts !! 2%nat = Some x.
Proof.
  unfold candidate_pools. rewrite <- list_elem_of_In, list_elem_of_omap. split.
  - intros (instr & Hin & Hc). apply list_elem_of_In in Hin.
    destruct instr as [pid|pid accounts]; [discriminate|]. cbn in Hc.
    destruct (String.eqb pid METEORA_PROGRAM_ID) eqn:E; [|discriminate].
    apply String.eqb_eq in E. eauto.
  - intros (pid & accounts & Hin & -> & Hx).
    exists (UiPartiallyDecodedInstruction METEORA_PROGRAM_ID accounts).
    split; [apply list_elem_of_In, Hin | exact Hx].
Qed.

(** Whatever the order of the process, the list of a set holds the elements
    of the set, each once. *)
Lemma elem_of_list_of_set (o : SetOrder) (s : gset string) (x : string) :
  x ∈ list_of_set o s <-> x ∈ s.
Proof. rewrite (list_of_set_perm o s). apply elem_of_elements. Qed.

Lemma NoDup_list_of_set (o : SetOrder) (s : gset string) : NoDup (list_of_set o s).
Proof. rewrite (list_of_set_perm o s). apply NoDup_elements. Qed.

Lemma length_list_of_set (o : SetOrder) (s : gset string) :
  length (list_of_set o s) = size s.
Proof. rewrite (list_of_set_perm o s). reflexivity. Qed.

Lemma list_of_set_empty (o : SetOrder) (s : gset string) : s = ∅ -> list_of_set o s = [].
Proof.
  intros ->. apply Permutation_nil. rewrite (list_of_set_perm o ∅), elements_empty.
  reflexivity.
Qed.

(** C1, as stated, fails: when the first matching instruction has no
    account at index 2, the code goes on to the next matching instruction,
    so the transaction still contributes a pool address. *)
Lemma C1_short_account_list_is_skipped :
  Cli.extract_pool_address short_then_long "5sig"
  <> Ok (spec_extract_pool_address short_then_long "5sig").
Proof. vm_compute. discriminate. Qed.

(** C1 (amended): a matching instruction is a partially decoded one with the
    target program identifier; its candidate is the account at index 2, when
    the list is that long.  The command-line tool takes, per transaction,
    the first candidate among the matching instructions (a matching
    instruction without index 2 is passed over); the bot takes every
    candidate.  A transaction whose fetch fails or yields nothing has no
    candidate.  The result is the set of the addresses taken: the bot's
    list of pools is that set as the process lists it, so it holds exactly
    the addresses taken and has no duplicates. *)
Theorem C1_pool_address_extraction (w : World) :
  (forall sig, Cli.extract_pool_address w sig = Ok (head (fetched_pools w sig)))
  /\ (forall l : list TransactionRecord,
        Cli.pool_set w l
        = Ok (list_to_set (omap (fun r : TransactionRecord => head (fetched_pools w (fst r))) l)))
  /\ (forall p, exists p',
        Bot.extract_pool_addresses w p = (Ok tt, p')
        /\ Bot.pool_addresses p'
           = list_of_set (pool_order w)
               (list_to_set
                  (concat (map (fun r : TransactionRecord => fetched_pools w (fst r))
                               (Bot.meteora_transactions p))))
        /\ (forall x, x ∈ Bot.pool_addresses p'
                      <-> exists r, r ∈ Bot.meteora_transactions p
                                    /\ x ∈ fetched_pools w (fst r))
        /\ NoDup (Bot.pool_addresses p'))
  /\ (forall sig x,
        In x (fetched_pools w sig) <->
        exists instructions pid accounts,
          get_transaction w Extracting sig = Ok (Some instructions)
          /\ In (UiPartiallyDecodedInstruction pid accounts) instructions
          /\ pid = METEORA_PROGRAM_ID /\ accounts !! 2%nat = Some x).
Proof.
  split; [apply extract_pool_address_spec|].
  split; [apply pool_set_spec|].
  split.
  - intros p. unfold Bot.extract_pool_addresses. unfold_bot.
    match goal with
    | |- context [Bot.extract_loop w ?l ?i ?u ?s] =>
        destruct (bot_extract_loop w l i u s) as (p' & -> & Hp)
    end.
    eexists; split; [reflexivity|]. cbn [Bot.pool_addresses Bot.set_tasks Bot.set_pool_addresses
      Bot.meteora_transactions].
    rewrite (right_id_L ∅ (∪)).
    split; [reflexivity|]. split; [|apply NoDup_list_of_set].
    intros x. rewrite elem_of_list_of_set, elem_of_list_to_set.
    setoid_rewrite list_elem_of_In. rewrite in_concat. split.
    + intros (l & Hl & Hx). apply in_map_iff in Hl as (r & <- & Hr). eauto.
    + intros (r & Hr & Hx). exists (fetched_pools w (fst r)).
      split; [apply in_map_iff; eauto | exact Hx].
  - intros sig x. unfold fetched_pools.
    destruct (get_transaction w Extracting sig) as [[instructions|]|e].
    + rewrite candidate_pools_iff. split.
      * intros (pid & accounts & H). exists instructions, pid, accounts. tauto.
      * intros (instructions' & pid & accounts & [= <-] & H). eauto.
    + split; [intros [] | intros (? & ? & ? & [=] & _)].
    + split; [intros [] | intros (? & ? & ? & [=] & _)].
Qed.

(** ** The per-wallet pipeline *)

Lemma try_outcome_total {A} (body : outcome A) (a : A) :
  exists x, try_outcome body (fun _ => Ok a) = Ok x.
Proof. destruct body; cbn; eauto. Qed.

Lemma cli_check_cnft_total w address : exists c, Cli.check_cnft w address = Ok c.
Proof. apply try_outcome_total. Qed.

Lemma cli_get_pool_fees_total w address pool :
  exists fees, Cli.get_pool_fees w address pool = Ok fees.
Proof. apply try_outcome_total. Qed.

(** X1: the command-line tool's [process_wallet] returns a record for every
    address and every behaviour of the collaborators. *)
Theorem cli_process_wallet_returns w address bl :
  exists metrics, Cli.process_wallet w address bl = Ok metrics.
Proof.
  unfold Cli.process_wallet. unfold_monads.
  destruct (Cli.process_wallet_body w address bl (initial_metrics address)) as [[[]|e] s];
    cbn; eauto.
Qed.

(** C6, on the bot: the scan of an asset whose name is [null] raises
    [TypeError] inside the [try] of [check_cnft]; matching it against the
    [except] clauses raises [NameError], which leaves
    [WalletProcessor.process]. *)
Theorem C6_bot_process_raises :
  Bot.process null_name_assets ∅ "7wallet" = Raise NameError.
Proof.
  unfold Bot.process. vm_compute. reflexivity.
Qed.

(** C9, as stated, fails: for an address that does not parse, is not
    blacklisted and for which the cNFT check is negative, the record returned
    is the all-defaults record. *)
Lemma C9_unparsable_record_can_be_default :
  is_pubkey never_parses "not-a-key" = false
  /\ Cli.check_cnft never_parses "not-a-key" = Ok false
  /\ ("not-a-key"%string ∉ (∅ : gset string))
  /\ Cli.process_wallet never_parses "not-a-key" ∅ = Ok (initial_metrics "not-a-key").
Proof.
  split; [reflexivity|]. split; [vm_compute; reflexivity|].
  split; [apply not_elem_of_empty|]. vm_compute. reflexivity.
Qed.

(** C9 (amended): when the address does not parse as a public key,
    [process_wallet] still returns a record; [blacklist] is the membership
    test and [cnft] the result of the cNFT check, both made before the parse,
    and the other five fields keep their defaults; the record differs from
    the all-defaults record exactly when one of the two checks is
    positive. *)
Theorem C9_unparsable_address (w : World) (address : string) (bl : gset string) :
  is_pubkey w address = false ->
  exists c,
    Cli.check_cnft w address = Ok c
    /\ Cli.process_wallet w address bl
       = Ok {| wallet := address; total_fees := 0%float; pools_with_fees := 0%nat;
               first_tx := "N/A"; active_weeks := 0%nat; active_months := 0%nat;
               cnft := c; blacklist := bool_decide (address ∈ bl) |}
    /\ (Cli.process_wallet w address bl <> Ok (initial_metrics address)
        <-> c = true \/ address ∈ bl).
Proof.
  intros Hparse. destruct (cli_check_cnft_total w address) as [c Hc].
  exists c. split; [exact Hc|].
  assert (Hrun : Cli.process_wallet w address bl
                 = Ok {| wallet := address; total_fees := 0%float; pools_with_fees := 0%nat;
                         first_tx := "N/A"; active_weeks := 0%nat; active_months := 0%nat;
                         cnft := c; blacklist := bool_decide (address ∈ bl) |}).
  { unfold Cli.process_wallet, Cli.process_wallet_body, Pubkey_from_string.
    unfold_monads. rewrite Hc, Hparse. reflexivity. }
  split; [exact Hrun|].
  rewrite Hrun. unfold initial_metrics. split.
  - intros Hne. destruct c; [left; reflexivity|]. right.
    destruct (decide (address ∈ bl)) as [Hin|Hout]; [exact Hin|].
    exfalso. apply Hne. rewrite bool_decide_eq_false_2 by exact Hout. reflexivity.
  - intros Hpos [= Hcnft Hbl].
    destruct Hpos as [->|Hin]; [discriminate|].
    rewrite bool_decide_eq_true_2 in Hbl by exact Hin. discriminate.
Qed.

(** C9 at a blacklisted holder of the certificate: the record differs from
    the defaults in both flags. *)
Lemma C9_unparsable_address_witness :
  exists c,
    Cli.check_cnft unparsable "not-a-key" = Ok c
    /\ Cli.process_wallet unparsable "not-a-key" {[ "not-a-key"%string ]}
       = Ok {| wallet := "not-a-key"; total_fees := 0%float; pools_with_fees := 0%nat;
               first_tx := "N/A"; active_weeks := 0%nat; active_months := 0%nat;
               cnft := c;
               blacklist := bool_decide ("not-a-key"%string ∈ ({[ "not-a-key"%string ]} : gset string)) |}
    /\ (Cli.process_wallet unparsable "not-a-key" {[ "not-a-key"%string ]}
        <> Ok (initial_metrics "not-a-key")
        <-> c = true \/ "not-a-key"%string ∈ ({[ "not-a-key"%string ]} : gset string)).
Proof. exact (C9_unparsable_address unparsable "not-a-key" {[ "not-a-key"%string ]} eq_refl). Defined.

Example unparsable_record_is_not_default :
  Cli.process_wallet unparsable "not-a-key" {[ "not-a-key"%string ]}
  = Ok {| wallet := "not-a-key"; total_fees := 0%float; pools_with_fees := 0%nat;
          first_tx := "N/A"; active_weeks := 0%nat; active_months := 0%nat;
          cnft := true; blacklist := true |}.
Proof. vm_compute. reflexivity. Qed.

(** ** The activity metrics *)

Lemma utcfromtimestamp_in_range ts :
  in_datetime_range ts -> utcfromtimestamp ts = Ok (gmtime ts).
Proof.
  unfold in_datetime_range, MIN_TIMESTAMP, MAX_TIMESTAMP, utcfromtimestamp,
    EPOCH_ORDINAL, MAX_ORDINAL.
  intros [Hlo Hhi].
  assert (H1 : -719162 <= ts / 86400) by (apply Z.div_le_lower_bound; lia).
  assert (H2 : ts / 86400 < 2932897) by (apply Z.div_lt_upper_bound; lia).
  destruct (1 <=? 719163 + ts / 86400) eqn:E1; [|lia].
  destruct (719163 + ts / 86400 <=? 3652059) eqn:E2; [reflexivity | lia].
Qed.

Lemma utcfromtimestamp_out_of_range ts :
  ~ in_datetime_range ts -> utcfromtimestamp ts = Raise (range_error ts).
Proof.
  unfold in_datetime_range, MIN_TIMESTAMP, MAX_TIMESTAMP, utcfromtimestamp,
    EPOCH_ORDINAL, MAX_ORDINAL.
  intros Hout.
  destruct (1 <=? 719163 + ts / 86400) eqn:E1; [|reflexivity].
  destruct (719163 + ts / 86400 <=? 3652059) eqn:E2; [|reflexivity].
  exfalso. apply Hout.
  apply Z.leb_le in E1, E2. split.
  - destruct (Z_lt_le_dec ts (-62135596800)) as [Hlt|]; [|assumption].
    assert (ts / 86400 < -719162) by (apply Z.div_lt_upper_bound; lia). lia.
  - destruct (Z_lt_le_dec 253402300799 ts) as [Hlt|]; [|assumption].
    assert (2932897 <= ts / 86400) by (apply Z.div_le_lower_bound; lia). lia.
Qed.

Lemma activity_loop_spec timestamps :
  Forall in_datetime_range timestamps ->
  forall weeks months : gset (Z * Z),
    activity_loop timestamps weeks months
    = Ok (list_to_set (map iso_week timestamps) ∪ weeks,
          list_to_set (map calendar_month timestamps) ∪ months).
Proof.
  induction 1 as [|ts rest Hts Hrest IH]; intros weeks months.
  - cbn [activity_loop map]. f_equal. f_equal; set_solver.
  - cbn [activity_loop map]. rewrite (utcfromtimestamp_in_range ts Hts). unfold_monads.
    unfold iso_week at 1. destruct (isocalendar (gmtime ts)) as [[y week] wday].
    rewrite IH. f_equal. unfold calendar_month at 2. f_equal; set_solver.
Qed.

Lemma size_list_to_set_remove_dups (l : list (Z * Z)) :
  size (list_to_set l : gset (Z * Z)) = length (remove_dups l).
Proof.
  rewrite <- (size_list_to_set (C := gset (Z * Z)) (remove_dups l))
    by apply NoDup_remove_dups.
  f_equal. apply set_eq. intros x.
  rewrite !elem_of_list_to_set, elem_of_remove_dups. reflexivity.
Qed.

Lemma calculate_activity_metrics_spec timestamps :
  Forall in_datetime_range timestamps ->
  Cli.calculate_activity_metrics timestamps
  = Ok (length (remove_dups (map iso_week timestamps)),
        length (remove_dups (map calendar_month timestamps))).
Proof.
  intros H. unfold Cli.calculate_activity_metrics.
  rewrite (activity_loop_spec timestamps H). unfold_monads.
  rewrite !(right_id_L ∅ (∪)), !size_list_to_set_remove_dups. reflexivity.
Qed.

Lemma calculate_activity_metrics_sets timestamps :
  Forall in_datetime_range timestamps ->
  Cli.calculate_activity_metrics timestamps
  = Ok (size (list_to_set (map iso_week timestamps) : gset (Z * Z)),
        size (list_to_set (map calendar_month timestamps) : gset (Z * Z))).
Proof.
  intros H. rewrite (calculate_activity_metrics_spec timestamps H).
  rewrite !size_list_to_set_remove_dups. reflexivity.
Qed.

Lemma size_list_to_set_snoc (l : list (Z * Z)) (x : Z * Z) :
  (size (list_to_set l : gset (Z * Z)) <= size (list_to_set (l ++ [x]) : gset (Z * Z)))%nat
  /\ (In x l -> size (list_to_set (l ++ [x]) : gset (Z * Z)) = size (list_to_set l : gset (Z * Z))).
Proof.
  rewrite list_to_set_app_L. split.
  - apply subseteq_size. set_solver.
  - intros Hin. f_equal. apply list_elem_of_In in Hin.
    assert (x ∈ (list_to_set l : gset (Z * Z))) by (apply elem_of_list_to_set, Hin).
    cbn. set_solver.
Qed.

(** ** The fee aggregator *)

Lemma get_pool_fees_spec w address pool :
  Cli.get_pool_fees w address pool = Ok (reported_fee w address pool).
Proof.
  unfold Cli.get_pool_fees, reported_fee. unfold_monads.
  destruct (get_earning w address pool) as [data|e]; [|reflexivity].
  destruct data as [| | | | | |kvs]; try reflexivity. cbn.
  destruct (dict_get "total_fee_usd_claimed" kvs) as [v|]; cbn; [|reflexivity].
  destruct (py_float (float_of_string w) v); reflexivity.
Qed.

Lemma fee_loop_spec w address pools :
  forall r,
    Cli.fee_loop w address pools r
    = (Ok tt, fold_left (fun r pool => add_fees (reported_fee w address pool) r) pools r).
Proof.
  induction pools as [|pool rest IH]; intros r; [reflexivity|].
  cbn [Cli.fee_loop fold_left]. unfold_monads. rewrite get_pool_fees_spec, IH. reflexivity.
Qed.

Lemma fold_add_fees (fees : list float) :
  forall r,
    let r' := fold_left (fun r f => add_fees f r) fees r in
    total_fees r' = fold_left PrimFloat.add fees (total_fees r)
    /\ pools_with_fees r'
       = (pools_with_fees r + length (List.filter (fun f => (0.01 <=? f)%float) fees))%nat
    /\ wallet r' = wallet r /\ first_tx r' = first_tx r
    /\ active_weeks r' = active_weeks r /\ active_months r' = active_months r
    /\ cnft r' = cnft r /\ blacklist r' = blacklist r.
Proof.
  induction fees as [|f rest IH]; intros r; cbn zeta.
  - cbn. rewrite Nat.add_0_r. repeat split.
  - cbn [fold_left List.filter]. specialize (IH (add_fees f r)). cbn zeta in IH.
    destruct IH as (Ht & Hp & Hw & Hf & Haw & Ham & Hc & Hb).
    rewrite Ht, Hp, Hw, Hf, Haw, Ham, Hc, Hb. cbn.
    destruct (0.01 <=? f)%float; cbn [length]; repeat split; lia.
Qed.

Lemma fold_left_map {A B C} (g : A -> B -> A) (h : C -> B) (l : list C) (a : A) :
  fold_left (fun a x => g a (h x)) l a = fold_left g (map h l) a.
Proof. revert a; induction l as [|x l IH]; intros a; cbn; [reflexivity | apply IH]. Qed.

(** C4: for every list of pools the fee loop ends normally; [total_fees] is
    the running float sum, in iteration order, of the fees the per-pool
    lookup reports, and [pools_with_fees] grows by the number of pools whose
    fee is at least 0.01.  The lookup reports 0.0 when the request fails,
    when the field is absent and when its value cannot be converted, and
    never raises, so no pool stops the loop.  Fees 0.02, 0.0 and 5.00 give
    5.02 and 2. *)
Theorem C4_fee_aggregation (w : World) (address : string) (pools : list string)
    (r : WalletMetrics) :
  let fees := map (reported_fee w address) pools in
  (exists r',
      Cli.fee_loop w address pools r = (Ok tt, r')
      /\ total_fees r' = fold_left PrimFloat.add fees (total_fees r)
      /\ pools_with_fees r'
         = (pools_with_fees r + length (List.filter (fun f => (0.01 <=? f)%float) fees))%nat)
  /\ (forall pool, Cli.get_pool_fees w address pool = Ok (reported_fee w address pool))
  /\ (forall pool e, get_earning w address pool = Raise e -> reported_fee w address pool = 0%float)
  /\ (forall pool kvs,
        get_earning w address pool = Ok (JDict kvs) ->
        dict_get "total_fee_usd_claimed" kvs = None -> reported_fee w address pool = 0%float)
  /\ (forall pool kvs v e,
        get_earning w address pool = Ok (JDict kvs) ->
        dict_get "total_fee_usd_claimed" kvs = Some v ->
        py_float (float_of_string w) v = Raise e -> reported_fee w address pool = 0%float)
  /\ (exists r',
        Cli.fee_loop three_pools "7wallet" ["pool1"; "pool2"; "pool3"] (initial_metrics "7wallet")
        = (Ok tt, r')
        /\ total_fees r' = 5.02%float /\ pools_with_fees r' = 2%nat).
Proof.
  cbn zeta. split.
  { rewrite fee_loop_spec. eexists; split; [reflexivity|].
    rewrite (fold_left_map (fun r f => add_fees f r) (reported_fee w address)).
    pose proof (fold_add_fees (map (reported_fee w address) pools) r) as H.
    cbn zeta in H. destruct H as (Ht & Hp & _). split; assumption. }
  split; [apply get_pool_fees_spec|].
  split; [intros pool e H; unfold reported_fee; rewrite H; reflexivity|].
  split; [intros pool kvs H1 H2; unfold reported_fee; rewrite H1, H2; reflexivity|].
  split; [intros pool kvs v e H1 H2 H3; unfold reported_fee; rewrite H1, H2, H3; reflexivity|].
  eexists. split; [vm_compute; reflexivity|]. split; reflexivity.
Qed.

(** ** The pipeline on its normal path *)

Lemma expect_ints_records (l : list TransactionRecord) :
  Forall (fun r => is_Some (snd r)) l -> expect_ints (map snd l) = Ok (omap snd l).
Proof.
  induction 1 as [|[sig [t|]] l Hr Hl IH]; cbn; [reflexivity| |destruct Hr; discriminate].
  rewrite IH. reflexivity.
Qed.

Lemma fold_min_le (l : list Z) : forall x, fold_left Z.min l x <= x.
Proof.
  induction l as [|y l IH]; intros x; cbn; [lia|].
  specialize (IH (Z.min x y)). lia.
Qed.

Lemma fold_min_spec (l : list Z) :
  forall x, In (fold_left Z.min l x) (x :: l) /\ Forall (fun y => fold_left Z.min l x <= y) (x :: l).
Proof.
  induction l as [|y l IH]; intros x; cbn [fold_left].
  - split; [left; reflexivity | constructor; [lia | constructor]].
  - destruct (IH (Z.min x y)) as [Hin Hall]. split.
    + destruct Hin as [Hin|Hin]; [|right; right; exact Hin].
      rewrite <- Hin.
      destruct (Z.min_spec x y) as [[_ E]|[_ E]]; rewrite E;
        [left | right; left]; reflexivity.
    + inversion Hall as [|? ? Hhd Htl]; subst.
      constructor; [lia|]. constructor; [lia | exact Htl].
Qed.

Lemma cli_get_transactions_total w address :
  exists records,
    Cli.get_transactions w address = Ok records
    /\ Forall (fun r => is_Some (snd r)) records.
Proof.
  unfold Cli.get_transactions. unfold_monads.
  destruct (get_signatures_for_address w address) as [value|e].
  - eexists; split; [reflexivity|].
    eapply Forall_impl; [apply fetched_records_truthy|].
    intros r Hr. apply truthy_is_Some, Hr.
  - exists []. split; [reflexivity | constructor].
Qed.

Lemma cli_process_wallet_run w address bl :
  is_pubkey w address = true ->
  Forall in_datetime_range (protocol_timestamps w address) ->
  exists c r,
    Cli.check_cnft w address = Ok c
    /\ Cli.process_wallet w address bl = Ok r
    /\ wallet r = address
    /\ blacklist r = bool_decide (address ∈ bl)
    /\ cnft r = c
    /\ first_tx r = first_tx_of (protocol_timestamps w address)
    /\ active_weeks r = length (remove_dups (map iso_week (protocol_timestamps w address)))
    /\ active_months r
       = length (remove_dups (map calendar_month (protocol_timestamps w address)))
    /\ total_fees r
       = fold_left PrimFloat.add (map (reported_fee w address) (queried_pools w address))
           0%float
    /\ pools_with_fees r
       = length (List.filter (fun f => (0.01 <=? f)%float)
                   (map (reported_fee w address) (queried_pools w address))).
Proof.
  intros Hparse Hrange.
  destruct (cli_check_cnft_total w address) as [c Hc].
  destruct (cli_get_transactions_total w address) as (records & Hrec & Hsome).
  unfold protocol_timestamps, queried_pools in *. rewrite Hrec in *.
  set (mtx := Cli.filter_meteora_transactions w records) in *.
  assert (Hints : expect_ints (map snd mtx) = Ok (omap snd mtx)).
  { apply expect_ints_records. unfold mtx. rewrite filter_meteora_transactions_eq.
    apply Forall_list_filter, Hsome. }
  set (timestamps := omap snd mtx) in *.
  exists c. unfold Cli.process_wallet, Cli.process_wallet_body, Pubkey_from_string.
  unfold_monads. rewrite Hc, Hparse, Hrec. fold mtx. rewrite Hints.
  rewrite (calculate_activity_metrics_spec timestamps Hrange).
  rewrite pool_set_spec.
  set (pools := list_of_set _ _).
  assert (Hfirst : forall r0,
    (match timestamps with
     | [] => fun s : WalletMetrics => (Ok tt, s)
     | _ :: _ => fun s : WalletMetrics =>
         let (o, s') := (py_min timestamps, s) in
         match o with
         | Ok a =>
             let (o0, s'0) := (utcfromtimestamp a, s') in
             match o0 with
             | Ok a0 => (Ok tt, set_first_tx (strftime_dmY a0) s'0)
             | Raise e => (Raise e, s'0)
             end
         | Raise e => (Raise e, s')
         end
     end) r0 = (Ok tt, if decide (timestamps = []) then r0
                       else set_first_tx (first_tx_of timestamps) r0)).
  { intros r0. destruct timestamps as [|t rest] eqn:Et; [reflexivity|].
    cbn [py_min first_tx_of]. 
    destruct (fold_min_spec rest t) as [Hin _].
    rewrite utcfromtimestamp_in_range; [reflexivity|].
    rewrite Forall_forall in Hrange. apply Hrange, list_elem_of_In, Hin. }
  rewrite Hfirst. rewrite fee_loop_spec.
  rewrite (fold_left_map (fun r f => add_fees f r) (reported_fee w address)).
  match goal with
  | |- context [fold_left _ ?fees ?r0] =>
      pose proof (fold_add_fees fees r0) as H; cbn zeta in H;
      destruct H as (Ht & Hp & Hw & Hf & Haw & Ham & Hcn & Hb)
  end.
  eexists. split; [reflexivity|]. split; [reflexivity|]. cbn [fst].
  rewrite Ht, Hp, Hw, Hf, Haw, Ham, Hcn, Hb.
  destruct (decide (timestamps = [])) as [->|Hne]; cbn; repeat split.
Qed.

(** X2: on its normal path (the address parses and every protocol timestamp is
    within the range of [datetime]) [process_wallet] returns the record
    whose eight fields are: the address; the blacklist membership; the
    result of the cNFT check; the date of the least protocol timestamp; the
    two bucket counts; the running sum of the reported fees over the pools
    queried, in the order in which the process lists their set; and the
    number of those fees that are at least 0.01. *)
Theorem cli_process_wallet_normal_path (w : World) (address : string) (bl : gset string) :
  is_pubkey w address = true ->
  Forall in_datetime_range (protocol_timestamps w address) ->
  exists c r,
    Cli.check_cnft w address = Ok c
    /\ Cli.process_wallet w address bl = Ok r
    /\ wallet r = address
    /\ blacklist r = bool_decide (address ∈ bl)
    /\ cnft r = c
    /\ first_tx r = first_tx_of (protocol_timestamps w address)
    /\ active_weeks r = length (remove_dups (map iso_week (protocol_timestamps w address)))
    /\ active_months r
       = length (remove_dups (map calendar_month (protocol_timestamps w address)))
    /\ total_fees r
       = fold_left PrimFloat.add (map (reported_fee w address) (queried_pools w address))
           0%float
    /\ pools_with_fees r
       = length (List.filter (fun f => (0.01 <=? f)%float)
                   (map (reported_fee w address) (queried_pools w address))).
Proof. intros Hparse Hrange. exact (cli_process_wallet_run w address bl Hparse Hrange). Qed.

Example process_wallet_end_to_end :
  Cli.process_wallet active_wallet "7wallet" {[ "7wallet"%string ]}
  = Ok {| wallet := "7wallet"; total_fees := 5.02%float; pools_with_fees := 2%nat;
          first_tx := "15.04.2022"; active_weeks := 2%nat; active_months := 2%nat;
          cnft := false; blacklist := true |}.
Proof. vm_compute. reflexivity. Qed.

Example bot_process_end_to_end :
  Bot.process active_wallet {[ "7wallet"%string ]} "7wallet"
  = Ok {| wallet := "7wallet"; total_fees := 5.02%float; pools_with_fees := 2%nat;
          first_tx := "15.04.2022"; active_weeks := 2%nat; active_months := 2%nat;
          cnft := true; blacklist := true |}.
Proof. vm_compute. reflexivity. Qed.

(** The normal path on the wallet of the example. *)
Lemma cli_process_wallet_normal_path_witness :
  exists c r,
    Cli.check_cnft active_wallet "7wallet" = Ok c
    /\ Cli.process_wallet active_wallet "7wallet" {[ "7wallet"%string ]} = Ok r
    /\ wallet r = "7wallet"%string
    /\ blacklist r = bool_decide ("7wallet"%string ∈ ({[ "7wallet"%string ]} : gset string))
    /\ cnft r = c
    /\ first_tx r = first_tx_of (protocol_timestamps active_wallet "7wallet")
    /\ active_weeks r
       = length (remove_dups (map iso_week (protocol_timestamps active_wallet "7wallet")))
    /\ active_months r
       = length (remove_dups (map calendar_month (protocol_timestamps active_wallet "7wallet")))
    /\ total_fees r
       = fold_left PrimFloat.add
           (map (reported_fee active_wallet "7wallet") (queried_pools active_wallet "7wallet"))
           0%float
    /\ pools_with_fees r
       = length (List.filter (fun f => (0.01 <=? f)%float)
                   (map (reported_fee active_wallet "7wallet")
                        (queried_pools active_wallet "7wallet"))).
Proof.
  apply (cli_process_wallet_normal_path active_wallet "7wallet" {[ "7wallet"%string ]}).
  - reflexivity.
  - replace (protocol_timestamps active_wallet "7wallet") with [1700000000; 1650000000]
      by (vm_compute; reflexivity).
    repeat constructor; unfold MIN_TIMESTAMP; unfold MAX_TIMESTAMP; lia.
Defined.

(** C5, as stated, fails for a timestamp that [datetime] cannot represent
    (here the first second of the year 10000): the list of protocol
    timestamps is not empty, yet the conversion raises, the counts are never
    assigned and the record keeps "N/A", 0 and 0. *)
Lemma C5_timestamp_beyond_datetime :
  protocol_timestamps (ledger [253402300800]) "7wallet" = [253402300800]
  /\ Cli.calculate_activity_metrics [253402300800] = Raise ValueError
  /\ exists r,
       Cli.process_wallet (ledger [253402300800]) "7wallet" ∅ = Ok r
       /\ first_tx r = "N/A" /\ active_weeks r = 0%nat /\ active_months r = 0%nat.
Proof.
  split; [vm_compute; reflexivity|]. split; [vm_compute; reflexivity|].
  eexists. split; [vm_compute; reflexivity|]. repeat split.
Qed.

(** The year of a date is written on four digits from the year 1000 on. *)
Lemma strftime_Y_four_digits (y : Z) : 1000 <= y -> strftime_Y y = pad4 y.
Proof.
  intros Hy. unfold strftime_Y.
  destruct (Z.ltb_spec y 10); [lia|]. destruct (Z.ltb_spec y 100); [lia|].
  destruct (Z.ltb_spec y 1000); [lia | reflexivity].
Qed.

(** C5 (amended): for every list of protocol-transaction timestamps that
    [datetime] can represent (years 1 to 9999): the counts returned by
    [calculate_activity_metrics] are the numbers of distinct (ISO year, ISO
    week) pairs and of distinct (year, month) pairs of the UTC dates; and in
    the record of a wallet with these timestamps, [first_tx] is "N/A" with
    both counts 0 when the list is empty, and otherwise the UTC date of the
    least timestamp, with the same two counts: the day and the month on two
    digits and the year in decimal without padding, which is DD.MM.YYYY from
    the year 1000 on. *)
Theorem C5_activity_metrics (timestamps : list Z) (w : World) (address : string)
    (bl : gset string) :
  Forall in_datetime_range timestamps ->
  is_pubkey w address = true ->
  protocol_timestamps w address = timestamps ->
  Cli.calculate_activity_metrics timestamps
  = Ok (length (remove_dups (map iso_week timestamps)),
        length (remove_dups (map calendar_month timestamps)))
  /\ exists r,
       Cli.process_wallet w address bl = Ok r
       /\ active_weeks r = length (remove_dups (map iso_week timestamps))
       /\ active_months r = length (remove_dups (map calendar_month timestamps))
       /\ (timestamps = [] ->
           first_tx r = "N/A" /\ active_weeks r = 0%nat /\ active_months r = 0%nat)
       /\ (forall t rest, timestamps = t :: rest ->
           exists first,
             In first timestamps
             /\ Forall (fun x => first <= x) timestamps
             /\ first_tx r
                = pad2 (day (gmtime first)) +:+ "." +:+ pad2 (month (gmtime first))
                  +:+ "." +:+ strftime_Y (year (gmtime first))
             /\ (1000 <= year (gmtime first) ->
                 first_tx r
                 = pad2 (day (gmtime first)) +:+ "." +:+ pad2 (month (gmtime first))
                   +:+ "." +:+ pad4 (year (gmtime first)))).
Proof.
  intros Hrange Hparse Hts.
  split; [apply calculate_activity_metrics_spec, Hrange|].
  rewrite <- Hts in Hrange.
  destruct (cli_process_wallet_run w address bl Hparse Hrange)
    as (c & r & _ & Hrun & _ & _ & _ & Hfirst & Hweeks & Hmonths & _).
  rewrite Hts in *. exists r.
  split; [exact Hrun|]. split; [exact Hweeks|]. split; [exact Hmonths|]. split.
  - intros ->. rewrite Hfirst, Hweeks, Hmonths. repeat split.
  - intros t rest ->. exists (fold_left Z.min rest t).
    destruct (fold_min_spec rest t) as [Hin Hall].
    split; [exact Hin|]. split; [exact Hall|]. split; [exact Hfirst|].
    intros Hy. rewrite Hfirst. cbn [first_tx_of]. unfold strftime_dmY.
    rewrite (strftime_Y_four_digits _ Hy). reflexivity.
Qed.

(** C5 on the timestamps 1700000000 and 1650000000. *)
Lemma C5_activity_metrics_witness :
  Cli.calculate_activity_metrics [1700000000; 1650000000]
  = Ok (length (remove_dups (map iso_week [1700000000; 1650000000])),
        length (remove_dups (map calendar_month [1700000000; 1650000000])))
  /\ exists r,
       Cli.process_wallet (ledger [1700000000; 1650000000]) "7wallet" ∅ = Ok r
       /\ active_weeks r = length (remove_dups (map iso_week [1700000000; 1650000000]))
       /\ active_months r
          = length (remove_dups (map calendar_month [1700000000; 1650000000]))
       /\ ([1700000000; 1650000000] = [] ->
           first_tx r = "N/A" /\ active_weeks r = 0%nat /\ active_months r = 0%nat)
       /\ (forall t rest, [1700000000; 1650000000] = t :: rest ->
           exists first,
             In first [1700000000; 1650000000]
             /\ Forall (fun x => first <= x) [1700000000; 1650000000]
             /\ first_tx r
                = pad2 (day (gmtime first)) +:+ "." +:+ pad2 (month (gmtime first))
                  +:+ "." +:+ strftime_Y (year (gmtime first))
             /\ (1000 <= year (gmtime first) ->
                 first_tx r
                 = pad2 (day (gmtime first)) +:+ "." +:+ pad2 (month (gmtime first))
                   +:+ "." +:+ pad4 (year (gmtime first)))).
Proof.
  apply (C5_activity_metrics [1700000000; 1650000000]
           (ledger [1700000000; 1650000000]) "7wallet" ∅).
  - repeat constructor; unfold MIN_TIMESTAMP; unfold MAX_TIMESTAMP; lia.
  - reflexivity.
  - vm_compute. reflexivity.
Defined.

Example first_tx_is_the_earlier_date :
  exists r,
    Cli.process_wallet (ledger [1700000000; 1650000000]) "7wallet" ∅ = Ok r
    /\ first_tx r = "15.04.2022" /\ active_weeks r = 2%nat /\ active_months r = 2%nat.
Proof. eexists. split; [vm_compute; reflexivity|]. repeat split. Qed.

(** Beyond the range of [datetime] the class of the exception follows the
    magnitude of the timestamp; the pipeline catches each of them. *)
Example utcfromtimestamp_beyond_the_range :
  utcfromtimestamp 253402300800 = Raise ValueError
  /\ utcfromtimestamp (-62135596801) = Raise ValueError
  /\ utcfromtimestamp (10 ^ 17) = Raise OSError
  /\ utcfromtimestamp (10 ^ 20) = Raise OverflowError.
Proof. repeat split; vm_compute; reflexivity. Qed.

(** The twelfth of June 999: the year is written on three digits. *)
Example first_tx_before_the_year_1000 :
  in_datetime_range (-30627763200)
  /\ exists r,
       Cli.process_wallet (ledger [-30627763200]) "7wallet" ∅ = Ok r
       /\ first_tx r = "12.06.999" /\ active_weeks r = 1%nat /\ active_months r = 1%nat.
Proof.
  split; [unfold in_datetime_range; vm_compute; split; discriminate|].
  eexists. split; [vm_compute; reflexivity|]. repeat split.
Qed.

Example no_protocol_transactions :
  exists r,
    Cli.process_wallet (ledger []) "7wallet" ∅ = Ok r
    /\ first_tx r = "N/A" /\ active_weeks r = 0%nat /\ active_months r = 0%nat.
Proof. eexists. split; [vm_compute; reflexivity|]. repeat split. Qed.

(** C7, as stated, fails when the added timestamp is one that [datetime]
    cannot represent: the function raises instead of returning counts, and
    the record's counts fall from 1 to 0. *)
Lemma C7_added_timestamp_beyond_datetime :
  Cli.calculate_activity_metrics [1700000000] = Ok (1%nat, 1%nat)
  /\ Cli.calculate_activity_metrics ([1700000000] ++ [253402300800]) = Raise ValueError
  /\ (exists r,
        Cli.process_wallet (ledger [1700000000]) "7wallet" ∅ = Ok r
        /\ active_weeks r = 1%nat /\ active_months r = 1%nat)
  /\ (exists r,
        Cli.process_wallet (ledger ([1700000000] ++ [253402300800])) "7wallet" ∅ = Ok r
        /\ active_weeks r = 0%nat /\ active_months r = 0%nat).
Proof.
  split; [vm_compute; reflexivity|]. split; [vm_compute; reflexivity|].
  split; eexists; (split; [vm_compute; reflexivity|]); split; reflexivity.
Qed.

(** C7 (amended): for every list [L] of timestamps and every further
    timestamp [t], all within the range of [datetime], both calls return
    counts; neither count decreases from [L] to [L ++ [t]]; a count is
    unchanged when the bucket of [t] is already that of an element of [L],
    and grows by one otherwise. *)
Theorem C7_bucket_counts_monotone (L : list Z) (t : Z) :
  Forall in_datetime_range L -> in_datetime_range t ->
  exists weeks months weeks' months',
    Cli.calculate_activity_metrics L = Ok (weeks, months)
    /\ Cli.calculate_activity_metrics (L ++ [t]) = Ok (weeks', months')
    /\ (weeks <= weeks')%nat /\ (months <= months')%nat
    /\ ((exists x, In x L /\ iso_week x = iso_week t) -> weeks' = weeks)
    /\ ((exists x, In x L /\ calendar_month x = calendar_month t) -> months' = months)
    /\ ((forall x, In x L -> iso_week x <> iso_week t) -> weeks' = S weeks)
    /\ ((forall x, In x L -> calendar_month x <> calendar_month t) -> months' = S months).
Proof.
  intros HL Ht.
  assert (HLt : Forall in_datetime_range (L ++ [t])).
  { apply Forall_app. split; [exact HL | constructor; [exact Ht | constructor]]. }
  do 4 eexists.
  split; [apply calculate_activity_metrics_sets, HL|].
  split; [apply calculate_activity_metrics_sets, HLt|].
  rewrite !map_app. cbn [map].
  destruct (size_list_to_set_snoc (map iso_week L) (iso_week t)) as [Hw1 Hw2].
  destruct (size_list_to_set_snoc (map calendar_month L) (calendar_month t)) as [Hm1 Hm2].
  split; [exact Hw1|]. split; [exact Hm1|].
  split; [intros (x & Hx & E); apply Hw2; rewrite <- E; apply in_map, Hx|].
  split; [intros (x & Hx & E); apply Hm2; rewrite <- E; apply in_map, Hx|].
  split.
  - intros Hfresh. rewrite list_to_set_app_L, size_union.
    + cbn [list_to_set]. rewrite (right_id_L ∅ (∪)), size_singleton. lia.
    + assert (iso_week t ∉ (list_to_set (map iso_week L) : gset (Z * Z))).
      { rewrite elem_of_list_to_set, list_elem_of_In, in_map_iff.
        intros (x & E & Hx). exact (Hfresh x Hx E). }
      apply elem_of_disjoint. intros x Hx Hx'.
      apply elem_of_list_to_set, list_elem_of_In in Hx'. destruct Hx' as [<-|[]].
      exact (H Hx).
  - intros Hfresh. rewrite list_to_set_app_L, size_union.
    + cbn [list_to_set]. rewrite (right_id_L ∅ (∪)), size_singleton. lia.
    + assert (calendar_month t ∉ (list_to_set (map calendar_month L) : gset (Z * Z))).
      { rewrite elem_of_list_to_set, list_elem_of_In, in_map_iff.
        intros (x & E & Hx). exact (Hfresh x Hx E). }
      apply elem_of_disjoint. intros x Hx Hx'.
      apply elem_of_list_to_set, list_elem_of_In in Hx'. destruct Hx' as [<-|[]].
      exact (H Hx).
Qed.

(** C7 on a second transaction in the week and month of the first. *)
Lemma C7_bucket_counts_monotone_witness :
  exists weeks months weeks' months',
    Cli.calculate_activity_metrics [1700000000] = Ok (weeks, months)
    /\ Cli.calculate_activity_metrics ([1700000000] ++ [1700003600]) = Ok (weeks', months')
    /\ (weeks <= weeks')%nat /\ (months <= months')%nat
    /\ ((exists x, In x [1700000000] /\ iso_week x = iso_week 1700003600) -> weeks' = weeks)
    /\ ((exists x, In x [1700000000] /\ calendar_month x = calendar_month 1700003600)
        -> months' = months)
    /\ ((forall x, In x [1700000000] -> iso_week x <> iso_week 1700003600)
        -> weeks' = S weeks)
    /\ ((forall x, In x [1700000000] -> calendar_month x <> calendar_month 1700003600)
        -> months' = S months).
Proof.
  apply (C7_bucket_counts_monotone [1700000000] 1700003600).
  - repeat constructor; unfold MIN_TIMESTAMP; unfold MAX_TIMESTAMP; lia.
  - unfold in_datetime_range, MIN_TIMESTAMP, MAX_TIMESTAMP. lia.
Defined.

(** ** Binary64 rounding and [TaskProgress.percent] *)

Import Binary64.

Lemma round_half_even_bounds N D K :
  0 < D -> 0 <= N -> N <= K * D -> 0 <= round_half_even N D <= K.
Proof.
  intros HD HN HK. unfold round_half_even.
  pose proof (Z.div_mod N D ltac:(lia)) as Hdm.
  pose proof (Z.mod_pos_bound N D HD) as Hr.
  assert (Hq0 : 0 <= N / D) by (apply Z.div_pos; lia).
  assert (HqK : N / D <= K) by (apply Z.div_le_upper_bound; lia).
  assert (Hlt : N / D = K -> N mod D = 0) by nia.
  destruct (2 * (N mod D) <? D) eqn:E1; [lia|].
  apply Z.ltb_ge in E1.
  assert (N / D < K) by (destruct (Z.eq_dec (N / D) K) as [E|]; [specialize (Hlt E)|]; lia).
  destruct (D <? 2 * (N mod D)); [lia|].
  destruct (Z.even (N / D)); lia.
Qed.

Lemma ilog2_frac_le n d B :
  0 < n -> 0 < d -> n <= B * d -> B < 2 ^ 53 -> ilog2_frac n d <= 52.
Proof.
  intros Hn Hd HB HB53. unfold ilog2_frac, shift_frac.
  assert (HBpos : 0 < B) by nia.
  assert (HlB : Z.log2 B < 53) by (apply Z.log2_lt_pow2; lia).
  assert (Hln : Z.log2 n <= Z.log2 (B * d)) by (apply Z.log2_le_mono; lia).
  pose proof (Z.log2_mul_above B d ltac:(lia) ltac:(lia)) as Hmul.
  destruct (0 <=? Z.log2 n - Z.log2 d) eqn:E0.
  - apply Z.leb_le in E0.
    destruct (d * 2 ^ (Z.log2 n - Z.log2 d) <=? n) eqn:E1; [|lia].
    apply Z.leb_le in E1.
    assert (0 < 2 ^ (Z.log2 n - Z.log2 d)) by (apply Z.pow_pos_nonneg; lia).
    assert (2 ^ (Z.log2 n - Z.log2 d) <= B) by nia.
    assert (Z.log2 n - Z.log2 d < 53) by (apply (Z.pow_lt_mono_r_iff 2); lia).
    lia.
  - destruct (d <=? n * 2 ^ (- (Z.log2 n - Z.log2 d))); lia.
Qed.

Lemma round_pos_bounds n d B :
  0 < n -> 0 < d -> n <= B * d -> B < 2 ^ 53 ->
  exists m e, round_pos n d = (m, e) /\ e <= 0 /\ 0 <= m <= B * 2 ^ (- e).
Proof.
  intros Hn Hd HB HB53. unfold round_pos.
  pose proof (ilog2_frac_le n d B Hn Hd HB HB53) as Hlog.
  set (e := Z.max (ilog2_frac n d) (-1022) - 52).
  assert (He : e <= 0) by lia.
  assert (Hpow : 0 < 2 ^ (- e)) by (apply Z.pow_pos_nonneg; lia).
  unfold shift_frac. destruct (0 <=? e) eqn:E0.
  - apply Z.leb_le in E0. assert (e = 0) as -> by lia. cbn [Z.opp] in *.
    change (2 ^ 0) with 1 in *.
    do 2 eexists. split; [reflexivity|]. split; [lia|].
    apply round_half_even_bounds; lia.
  - do 2 eexists. split; [reflexivity|]. split; [lia|].
    apply round_half_even_bounds; [lia | lia | nia].
Qed.

Lemma round64_bounds n d B :
  0 <= n -> 0 < d -> n <= B * d -> 0 <= B < 2 ^ 53 ->
  exists m e, round64 n d = Finite m e /\ e <= 0 /\ 0 <= m <= B * 2 ^ (- e).
Proof.
  intros Hn Hd HB [HB0 HB53]. unfold round64.
  destruct (n =? 0) eqn:E0.
  - exists 0, 0. split; [reflexivity|]. change (2 ^ (- 0)) with 1. lia.
  - apply Z.eqb_neq in E0.
    rewrite Z.abs_eq by lia.
    destruct (round_pos_bounds n d B ltac:(lia) Hd HB HB53) as (m & e & -> & He & Hm).
    assert (Hsgn : Z.sgn n = 1) by (apply Z.sgn_pos; lia). rewrite Hsgn.
    assert (Hno : (0 <=? e) && (2 ^ 1024 <=? m * 2 ^ e) = false).
    { destruct (0 <=? e) eqn:E1; [|reflexivity]. apply Z.leb_le in E1.
      assert (e = 0) as -> by lia. change (2 ^ (- 0)) with 1 in Hm. change (2 ^ 0) with 1.
      cbn [andb]. apply Z.leb_gt.
      assert (2 ^ 53 < 2 ^ 1024) by (apply Z.pow_lt_mono_r; lia). lia. }
    rewrite Hno. exists m, e. split; [f_equal; lia|]. split; assumption.
Qed.

Lemma int_truediv_unit_interval c t :
  0 < t -> 0 <= c <= t ->
  exists m e, int_truediv c t = Ok (Finite m e) /\ e <= 0 /\ 0 <= m <= 2 ^ (- e).
Proof.
  intros Ht Hc. unfold int_truediv.
  destruct (t =? 0) eqn:E0; [apply Z.eqb_eq in E0; lia|].
  destruct (0 <? t) eqn:E1; [|apply Z.ltb_ge in E1; lia].
  destruct (round64_bounds c t 1 ltac:(lia) Ht ltac:(lia) ltac:(split; [lia | reflexivity]))
    as (m & e & -> & He & Hm).
  exists m, e. split; [reflexivity|]. split; [exact He | lia].
Qed.

Lemma times_100_bounds m e :
  e <= 0 -> 0 <= m <= 2 ^ (- e) ->
  exists m' e', float_mul (Finite m e) (float_of_Z 100) = Finite m' e'
                /\ e' <= 0 /\ 0 <= m' <= 100 * 2 ^ (- e').
Proof.
  intros He Hm.
  change (float_of_Z 100) with (Finite 7036874417766400 (-46)).
  cbn [float_mul]. destruct (0 <=? e + -46) eqn:E; [apply Z.leb_le in E; lia|].
  assert (Hpow : 2 ^ (- (e + -46)) = 2 ^ (- e) * 2 ^ 46).
  { replace (- (e + -46)) with (- e + 46) by lia. apply Z.pow_add_r; lia. }
  assert (0 < 2 ^ (- e)) by (apply Z.pow_pos_nonneg; lia).
  apply (round64_bounds _ _ 100).
  - lia.
  - rewrite Hpow. lia.
  - rewrite Hpow. change (2 ^ 46) with 70368744177664. nia.
  - split; [lia | reflexivity].
Qed.

Lemma int_of_float_bounds m e B :
  e <= 0 -> 0 <= m <= B * 2 ^ (- e) ->
  exists p, int_of_float (Finite m e) = Ok p /\ 0 <= p <= B.
Proof.
  intros He Hm. cbn [int_of_float].
  assert (Hpow : 0 < 2 ^ (- e)) by (apply Z.pow_pos_nonneg; lia).
  eexists; split; [reflexivity|].
  destruct (0 <=? e) eqn:E.
  - apply Z.leb_le in E. assert (e = 0) as -> by lia.
    change (2 ^ (- 0)) with 1 in Hm. change (2 ^ 0) with 1. lia.
  - rewrite Z.quot_div_nonneg by lia. split.
    + apply Z.div_pos; lia.
    + apply Z.div_le_upper_bound; lia.
Qed.

(** The model's division agrees with the kernel's binary64 division on the
    quotients [k / 97] and [12345 / (k + 1)] for [k < 500]. *)
Example round64_agrees_with_binary64 :
  forallb
    (fun k =>
       PrimFloat.eqb (to_prim (round64 (Z.of_nat k) 97))
         (to_prim (float_of_Z (Z.of_nat k)) / to_prim (float_of_Z 97))
       && PrimFloat.eqb (to_prim (round64 12345 (1 + Z.of_nat k)))
            (to_prim (float_of_Z 12345) / to_prim (float_of_Z (1 + Z.of_nat k))))
    (seq 0 500) = true.
Proof. vm_compute. reflexivity. Qed.

(** [int((29 / 100) * 100)] is 28: the value is not [100 * current // total]. *)
Example percent_29_of_100 :
  Bot.percent {| Bot.task_name := "get_pool_fees"; Bot.current := 29; Bot.total := 100;
                 Bot.status := "running" |} = Ok 28.
Proof. vm_compute. reflexivity. Qed.

Lemma round64_not_nan n d : round64 n d <> NaN.
Proof.
  unfold round64. destruct (n =? 0); [discriminate|].
  destruct (round_pos (Z.abs n) d) as [m e].
  destruct ((0 <=? e) && (2 ^ 1024 <=? m * 2 ^ e)); discriminate.
Qed.

(** C10, as stated, fails in one word: [percent] is not total.  With
    [current] at 10 ^ 400 and [total] at 1 the quotient is too large for a
    float and [current / total] raises [OverflowError]. *)
Lemma C10_percent_overflows :
  Bot.percent {| Bot.task_name := "get_pool_fees"; Bot.current := 10 ^ 400; Bot.total := 1;
                 Bot.status := "running" |} = Raise OverflowError.
Proof. vm_compute. reflexivity. Qed.

Lemma pow2_plus_1 x : 0 <= x -> 2 ^ (x + 1) = 2 * 2 ^ x.
Proof. intros Hx. rewrite Z.pow_add_r by lia. change (2 ^ 1) with 2. lia. Qed.

Lemma ilog2_frac_spec n d :
  0 < n -> 0 < d -> 0 <= ilog2_frac n d ->
  d * 2 ^ ilog2_frac n d <= n < d * 2 ^ (ilog2_frac n d + 1).
Proof.
  intros Hn Hd. unfold ilog2_frac, shift_frac.
  pose proof (Z.log2_spec n Hn) as [Hn1 Hn2].
  pose proof (Z.log2_spec d Hd) as [Hd1 Hd2].
  pose proof (Z.log2_nonneg n) as Ln. pose proof (Z.log2_nonneg d) as Ld.
  set (a := Z.log2 n) in *. set (b := Z.log2 d) in *.
  destruct (0 <=? a - b) eqn:E0.
  - apply Z.leb_le in E0.
    assert (Ha : 2 ^ a = 2 ^ b * 2 ^ (a - b)).
    { rewrite <- Z.pow_add_r by lia. f_equal. lia. }
    assert (Hp : 0 < 2 ^ (a - b)) by (apply Z.pow_pos_nonneg; lia).
    assert (Hpb : 0 < 2 ^ b) by (apply Z.pow_pos_nonneg; lia).
    destruct (d * 2 ^ (a - b) <=? n) eqn:E1.
    + apply Z.leb_le in E1. intros _. split; [exact E1|].
      rewrite pow2_plus_1 by lia. rewrite Z.pow_succ_r in Hn2 by lia. nia.
    + apply Z.leb_gt in E1. intros HL.
      replace (a - b - 1 + 1) with (a - b) by lia. split; [|exact E1].
      assert (Hs : 2 ^ (a - b) = 2 * 2 ^ (a - b - 1)).
      { rewrite <- pow2_plus_1 by lia. f_equal. lia. }
      rewrite Z.pow_succ_r in Hd2 by lia.
      assert (0 < 2 ^ (a - b - 1)) by (apply Z.pow_pos_nonneg; lia). nia.
  - apply Z.leb_gt in E0.
    destruct (d <=? n * 2 ^ (- (a - b))); intros; lia.
Qed.

Lemma ilog2_frac_ge n d k :
  0 < n -> 0 < d -> 0 <= k -> d * 2 ^ k <= n -> k <= ilog2_frac n d.
Proof.
  intros Hn Hd Hk Hle.
  assert (Hpk : 0 < 2 ^ k) by (apply Z.pow_pos_nonneg; lia).
  assert (Hdn : d <= n) by nia.
  assert (HL : 0 <= ilog2_frac n d).
  { unfold ilog2_frac, shift_frac.
    pose proof (Z.log2_le_mono d n Hdn) as Hlog.
    destruct (0 <=? Z.log2 n - Z.log2 d) eqn:E0; [|apply Z.leb_gt in E0; lia].
    destruct (Z.eq_dec (Z.log2 n - Z.log2 d) 0) as [E|E].
    - rewrite E. change (2 ^ 0) with 1. rewrite Z.mul_1_r.
      destruct (d <=? n) eqn:E1; [lia|apply Z.leb_gt in E1; lia].
    - destruct (d * 2 ^ (Z.log2 n - Z.log2 d) <=? n); lia. }
  destruct (ilog2_frac_spec n d Hn Hd HL) as [_ Hup].
  destruct (Z_lt_le_dec (ilog2_frac n d) k) as [Hlt|]; [|assumption].
  exfalso.
  assert (2 ^ (ilog2_frac n d + 1) <= 2 ^ k) by (apply Z.pow_le_mono_r; lia).
  nia.
Qed.

Lemma round_half_even_ge N D K :
  0 < D -> K * D <= N -> K <= round_half_even N D.
Proof.
  intros HD HK. unfold round_half_even.
  assert (K <= N / D) by (apply Z.div_le_lower_bound; lia).
  destruct (2 * (N mod D) <? D); [lia|].
  destruct (D <? 2 * (N mod D)); [lia|]. destruct (Z.even (N / D)); lia.
Qed.

Lemma round_half_even_half_ge N D K :
  0 < D -> Z.even K = true -> (2 * K - 1) * D <= 2 * N -> K <= round_half_even N D.
Proof.
  intros HD HK Hle. unfold round_half_even.
  pose proof (Z.div_mod N D ltac:(lia)) as Hdm.
  pose proof (Z.mod_pos_bound N D HD) as Hr.
  assert (Hq : K - 1 <= N / D).
  { destruct (Z_lt_le_dec (N / D) (K - 1)); [nia|assumption]. }
  destruct (Z.eq_dec (N / D) (K - 1)) as [E|E].
  - assert (D <= 2 * (N mod D)) by nia.
    destruct (2 * (N mod D) <? D) eqn:E1; [apply Z.ltb_lt in E1; lia|].
    destruct (D <? 2 * (N mod D)); [lia|].
    rewrite E. replace (K - 1) with (Z.pred K) by lia.
    rewrite Z.even_pred. rewrite <- Z.negb_even, HK. cbn. lia.
  - destruct (2 * (N mod D) <? D); [lia|].
    destruct (D <? 2 * (N mod D)); [lia|]. destruct (Z.even (N / D)); lia.
Qed.

Lemma round_half_even_half_lt N D K :
  0 < D -> 2 * N < (2 * K - 1) * D -> round_half_even N D <= K - 1.
Proof.
  intros HD Hlt. unfold round_half_even.
  pose proof (Z.div_mod N D ltac:(lia)) as Hdm.
  pose proof (Z.mod_pos_bound N D HD) as Hr.
  assert (Hq : N / D <= K - 1).
  { destruct (Z_lt_le_dec (K - 1) (N / D)); [nia|assumption]. }
  destruct (Z.eq_dec (N / D) (K - 1)) as [E|E].
  - assert (2 * (N mod D) < D) by nia.
    destruct (2 * (N mod D) <? D) eqn:E1; [lia|apply Z.ltb_ge in E1; lia].
  - destruct (2 * (N mod D) <? D); [lia|].
    destruct (D <? 2 * (N mod D)); [lia|]. destruct (Z.even (N / D)); lia.
Qed.

Lemma round_half_even_le N D K :
  0 < D -> N <= K * D -> round_half_even N D <= K.
Proof.
  intros HD HK. unfold round_half_even.
  pose proof (Z.div_mod N D ltac:(lia)) as Hdm.
  pose proof (Z.mod_pos_bound N D HD) as Hr.
  assert (HqK : N / D <= K) by (apply Z.div_le_upper_bound; lia).
  assert (Hlt : N / D = K -> N mod D = 0) by nia.
  destruct (2 * (N mod D) <? D) eqn:E1; [lia|].
  apply Z.ltb_ge in E1.
  assert (N / D < K) by (destruct (Z.eq_dec (N / D) K) as [E|]; [specialize (Hlt E)|]; lia).
  destruct (D <? 2 * (N mod D)); [lia|].
  destruct (Z.even (N / D)); lia.
Qed.

Lemma float_overflow_eq : 2 * FLOAT_OVERFLOW = (2 * 2 ^ 53 - 1) * 2 ^ 971.
Proof. reflexivity. Qed.

Lemma float_overflow_bounds : 2 ^ 1023 <= FLOAT_OVERFLOW < 2 ^ 1024.
Proof. split; [discriminate|reflexivity]. Qed.

Lemma round_pos_overflow a d m e :
  0 < a -> 0 < d -> round_pos a d = (m, e) ->
  (0 <=? e) && (2 ^ 1024 <=? m * 2 ^ e) = true <-> FLOAT_OVERFLOW * d <= a.
Proof.
  intros Ha Hd. unfold round_pos.
  set (L := ilog2_frac a d).
  pose proof float_overflow_bounds as [HT1 HT2].
  pose proof float_overflow_eq as HT.
  set (T := FLOAT_OVERFLOW) in *.
  assert (P1023 : 0 < 2 ^ 1023) by reflexivity.
  unfold shift_frac.
  destruct (0 <=? Z.max L (-1022) - 52) eqn:E0; intros [= <- <-]; rewrite E0.
  2:{ cbn [andb]. split; [discriminate|]. intros Hbig. exfalso.
      apply Z.leb_gt in E0.
      assert (H1023 : d * 2 ^ 1023 <= a) by nia.
      pose proof (ilog2_frac_ge a d 1023 Ha Hd ltac:(lia) H1023) as HL. fold L in HL. lia. }
  apply Z.leb_le in E0. cbn [andb]. rewrite Z.leb_le.
  set (e := Z.max L (-1022) - 52) in *.
  assert (HL : 52 <= L) by lia. assert (Ee : e = L - 52) by lia.
  destruct (ilog2_frac_spec a d Ha Hd ltac:(fold L; lia)) as [Hlo Hup]. fold L in Hlo, Hup.
  assert (Hpe : 0 < 2 ^ e) by (apply Z.pow_pos_nonneg; lia).
  assert (Hup' : 2 ^ (L + 1) = 2 ^ 53 * 2 ^ e).
  { rewrite <- Z.pow_add_r by lia. f_equal. lia. }
  assert (Hlo' : 2 ^ L = 2 ^ 52 * 2 ^ e).
  { rewrite <- Z.pow_add_r by lia. f_equal. lia. }
  assert (P1024 : 2 ^ 1024 = 2 ^ 53 * 2 ^ 971) by reflexivity.
  split.
  - (* the test holds: the fraction is beyond the range *)
    intros Hm.
    destruct (Z_lt_le_dec a (T * d)) as [Hlt|]; [exfalso|assumption].
    destruct (Z_le_gt_dec L 1022) as [Hs|Hb].
    + assert (round_half_even a (d * 2 ^ e) <= 2 ^ 53)
        by (apply round_half_even_le; nia).
      assert (2 ^ (L + 1) <= 2 ^ 1023) by (apply Z.pow_le_mono_r; lia).
      assert (2 ^ 1023 < 2 ^ 1024) by reflexivity. nia.
    + assert (L = 1023).
      { destruct (Z_le_gt_dec L 1023); [lia|]. exfalso.
        assert (2 ^ 1024 <= 2 ^ L) by (apply Z.pow_le_mono_r; lia). nia. }
      assert (e = 971) as Ee' by lia. rewrite Ee' in *.
      assert (round_half_even a (d * 2 ^ 971) <= 2 ^ 53 - 1).
      { apply round_half_even_half_lt; [nia|]. nia. }
      nia.
  - (* the fraction is beyond the range: the test holds *)
    intros Hbig.
    assert (H1023 : d * 2 ^ 1023 <= a) by nia.
    pose proof (ilog2_frac_ge a d 1023 Ha Hd ltac:(lia) H1023) as HL'. fold L in HL'.
    destruct (Z.eq_dec L 1023) as [E|E].
    + assert (e = 971) as Ee' by lia. rewrite Ee' in *.
      assert (2 ^ 53 <= round_half_even a (d * 2 ^ 971)).
      { apply round_half_even_half_ge; [nia|reflexivity|nia]. }
      nia.
    + assert (2 ^ 52 <= round_half_even a (d * 2 ^ e)).
      { apply round_half_even_ge; nia. }
      assert (2 ^ 1024 <= 2 ^ L) by (apply Z.pow_le_mono_r; lia). nia.
Qed.

Lemma round64_overflow n d :
  0 < d -> (exists s, round64 n d = Infinity s) <-> beyond_float_range n d.
Proof.
  intros Hd. unfold round64, beyond_float_range.
  pose proof float_overflow_bounds as [HT1 _].
  assert (0 < 2 ^ 1023) by reflexivity.
  destruct (Z.eqb_spec n 0) as [->|Hn].
  - split; [intros [s [=]]|]. cbn [Z.abs]. nia.
  - destruct (round_pos (Z.abs n) d) as [m e] eqn:Er.
    pose proof (round_pos_overflow (Z.abs n) d m e ltac:(lia) Hd Er) as H0.
    destruct ((0 <=? e) && (2 ^ 1024 <=? m * 2 ^ e)).
    + split; [intros _; apply H0; reflexivity | eauto].
    + split; [intros [s [=]] | intros Hb; apply H0 in Hb; discriminate].
Qed.

Lemma round64_cases n d :
  0 < d ->
  (beyond_float_range n d /\ exists s, round64 n d = Infinity s)
  \/ (~ beyond_float_range n d /\ exists m e, round64 n d = Finite m e).
Proof.
  intros Hd. pose proof (round64_overflow n d Hd) as H.
  pose proof (round64_not_nan n d) as Hn.
  destruct (round64 n d) as [m e|s|]; [right|left|contradiction].
  - split; [intros Hb; apply H in Hb as [s [=]]|eauto].
  - split; [apply H; eauto|eauto].
Qed.

Lemma times_100_cases m e :
  (times_100_beyond_float_range (Finite m e)
   /\ exists s, float_mul (Finite m e) (float_of_Z 100) = Infinity s)
  \/ (~ times_100_beyond_float_range (Finite m e)
      /\ exists m' e', float_mul (Finite m e) (float_of_Z 100) = Finite m' e').
Proof.
  change (float_of_Z 100) with (Finite 7036874417766400 (-46)).
  cbn [float_mul times_100_beyond_float_range].
  assert (P46 : 2 ^ 46 = 70368744177664) by reflexivity.
  assert (Hiff : forall n d n' d', 0 < d -> 0 < d' ->
            (beyond_float_range n d <-> beyond_float_range n' d') ->
            (beyond_float_range n' d' /\ exists s, round64 n d = Infinity s)
            \/ (~ beyond_float_range n' d' /\ exists m' e', round64 n d = Finite m' e')).
  { intros n d n' d' Hd Hd' Hiff.
    destruct (round64_cases n d Hd) as [[Hb Hr]|[Hb Hr]]; [left|right]; tauto. }
  unfold beyond_float_range in *.
  destruct (0 <=? e + -46) eqn:E1; destruct (0 <=? e) eqn:E0;
    try apply Z.leb_le in E1; try apply Z.leb_gt in E1;
    try apply Z.leb_le in E0; try apply Z.leb_gt in E0; try lia.
  - apply Hiff; [lia|lia|].
    assert (2 ^ e = 2 ^ 46 * 2 ^ (e + -46)) as ->.
    { rewrite <- Z.pow_add_r by lia. f_equal. lia. }
    rewrite P46.
    replace (100 * m * (70368744177664 * 2 ^ (e + -46)))
      with (m * 7036874417766400 * 2 ^ (e + -46)) by ring. reflexivity.
  - assert (Hp : 0 < 2 ^ (- (e + -46))) by (apply Z.pow_pos_nonneg; lia).
    apply Hiff; [lia|lia|].
    assert (Hpe : 0 < 2 ^ e) by (apply Z.pow_pos_nonneg; lia).
    assert (2 ^ 46 = 2 ^ e * 2 ^ (- (e + -46))) as Hs.
    { rewrite <- Z.pow_add_r by lia. f_equal. lia. }
    rewrite !Z.abs_mul. rewrite (Z.abs_eq (2 ^ e)) by lia.
    change (Z.abs 7036874417766400) with (100 * 2 ^ 46).
    change (Z.abs 100) with 100. rewrite Hs. set (X := 2 ^ (- (e + -46))) in *.
    set (T := FLOAT_OVERFLOW). split; intros; nia.
  - assert (Hp : 0 < 2 ^ (- (e + -46))) by (apply Z.pow_pos_nonneg; lia).
    assert (Hpe : 0 < 2 ^ (- e)) by (apply Z.pow_pos_nonneg; lia).
    apply Hiff; [lia|lia|].
    assert (2 ^ (- (e + -46)) = 2 ^ 46 * 2 ^ (- e)) as ->.
    { rewrite <- Z.pow_add_r by lia. f_equal. lia. }
    rewrite !Z.abs_mul.
    change (Z.abs 7036874417766400) with (100 * 2 ^ 46).
    change (Z.abs 100) with 100. rewrite P46. set (X := 2 ^ (- e)) in *.
    set (T := FLOAT_OVERFLOW). split; intros; nia.
Qed.

Lemma percent_cases (t : Bot.TaskProgress) :
  0 < Bot.total t ->
  (percent_overflows (Bot.current t) (Bot.total t) /\ Bot.percent t = Raise OverflowError)
  \/ (~ percent_overflows (Bot.current t) (Bot.total t) /\ exists p, Bot.percent t = Ok p).
Proof.
  intros Ht. unfold Bot.percent, percent_overflows, int_truediv.
  destruct (Z.leb_spec (Bot.total t) 0); [lia|].
  destruct (Z.eqb_spec (Bot.total t) 0); [lia|].
  destruct (Z.ltb_spec 0 (Bot.total t)); [|lia].
  destruct (round64_cases (Bot.current t) (Bot.total t) Ht) as [[Hb [s ->]]|[Hb (m & e & ->)]].
  - left. split; [left; exact Hb | reflexivity].
  - cbn [mbind outcome_bind].
    destruct (times_100_cases m e) as [[Hp [s ->]]|[Hp (m' & e' & ->)]].
    + left. split; [right; exact Hp | reflexivity].
    + right. split; [tauto | cbn [int_of_float]; eauto].
Qed.

(** [int((7 / 2) * 100)] is 350; with [current] at 10 ^ 307 the quotient is
    a float, its product with 100 is not. *)
Example percent_beyond_total :
  Bot.percent {| Bot.task_name := "get_pool_fees"; Bot.current := 7; Bot.total := 2;
                 Bot.status := "running" |} = Ok 350
  /\ ~ beyond_float_range (10 ^ 307) 1
  /\ times_100_beyond_float_range (round64 (10 ^ 307) 1)
  /\ Bot.percent {| Bot.task_name := "get_pool_fees"; Bot.current := 10 ^ 307;
                    Bot.total := 1; Bot.status := "running" |} = Raise OverflowError.
Proof.
  split; [vm_compute; reflexivity|]. split; [vm_compute; intros H; apply H; reflexivity|].
  split; [vm_compute; discriminate|]. vm_compute. reflexivity.
Qed.

(** C10 (amended): [percent] never divides by zero: it returns 0 whenever
    [total <= 0]; whenever [0 <= current <= total] with [0 < total] it
    returns an integer between 0 and 100; and for [0 < total] it raises
    [OverflowError] exactly when the quotient [current / total], or the
    product of the rounded quotient with 100, is beyond the float range, and
    returns an integer in every other state. *)
Theorem C10_percent (t : Bot.TaskProgress) :
  (Bot.total t <= 0 -> Bot.percent t = Ok 0)
  /\ (0 < Bot.total t -> 0 <= Bot.current t <= Bot.total t ->
      exists p, Bot.percent t = Ok p /\ 0 <= p <= 100)
  /\ (0 < Bot.total t ->
      (percent_overflows (Bot.current t) (Bot.total t) ->
       Bot.percent t = Raise OverflowError)
      /\ (~ percent_overflows (Bot.current t) (Bot.total t) ->
          exists p, Bot.percent t = Ok p))
  /\ Bot.percent t <> Raise ZeroDivisionError.
Proof.
  split; [|split; [|split]].
  - unfold Bot.percent. intros H. apply Z.leb_le in H. rewrite H. reflexivity.
  - unfold Bot.percent.
    intros Ht Hc. destruct (Bot.total t <=? 0) eqn:E; [apply Z.leb_le in E; lia|].
    destruct (int_truediv_unit_interval _ _ Ht Hc) as (m & e & -> & He & Hm).
    cbn [mbind outcome_bind].
    destruct (times_100_bounds m e He Hm) as (m' & e' & -> & He' & Hm').
    apply int_of_float_bounds; assumption.
  - intros Ht. destruct (percent_cases t Ht) as [[Ho Hr]|[Ho Hr]].
    + split; [intros _; exact Hr | intros Hn; contradiction].
    + split; [intros Hy; contradiction | intros _; exact Hr].
  - destruct (Z_le_gt_dec (Bot.total t) 0) as [Hle|Hgt].
    + unfold Bot.percent. apply Z.leb_le in Hle. rewrite Hle. discriminate.
    + destruct (percent_cases t ltac:(lia)) as [[_ ->]|[_ [p ->]]]; discriminate.
Qed.

(** ** The certificate check *)

Lemma contains_dict k kvs :
  py_contains k (JDict kvs) = Ok (bool_decide (is_Some (dict_get k kvs))).
Proof. reflexivity. Qed.

Lemma getitem_dict k kvs v :
  dict_get k kvs = Some v -> py_getitem (JDict kvs) k = Ok v.
Proof. intros H. cbn. rewrite H. reflexivity. Qed.


Lemma list_or_absent_cases o :
  list_or_absent o = true -> o = None \/ exists l, o = Some (JList l).
Proof. destruct o as [[]|]; try discriminate; eauto. Qed.

Lemma str_or_absent_cases o :
  str_or_absent o = true -> o = None \/ exists s, o = Some (JStr s).
Proof. destruct o as [[]|]; try discriminate; eauto. Qed.

Lemma dict_or_absent_cases check o :
  dict_or_absent check o = true ->
  o = None \/ exists kvs, o = Some (JDict kvs) /\ check (JDict kvs) = true.
Proof. destruct o as [[]|]; try discriminate; eauto. Qed.

Lemma creators_field_match kvs :
  list_or_absent (dict_get "creators" kvs) = true ->
  (b ← py_contains "creators" (JDict kvs);
   if (b : bool) then cs ← py_getitem (JDict kvs) "creators"; Bot.creators_match cs
   else mret false)
  = Ok (existsb Bot.is_target_creator (listed (dict_get "creators" kvs))).
Proof.
  intros H. rewrite contains_dict. unfold py_getitem.
  destruct (list_or_absent_cases _ H) as [->|[l ->]]; reflexivity.
Qed.

Lemma name_field_match kvs :
  str_or_absent (dict_get "name" kvs) = true ->
  (b ← py_contains "name" (JDict kvs);
   if (b : bool) then nft_name ← py_getitem (JDict kvs) "name";
                      py_contains Bot.CNFT_NAME_MATCH nft_name
   else mret false)
  = Ok (names_certificate (dict_get "name" kvs)).
Proof.
  intros H. rewrite contains_dict. unfold py_getitem.
  destruct (str_or_absent_cases _ H) as [->|[s ->]]; reflexivity.
Qed.

Lemma plain_asset_inv item :
  plain_asset item = true ->
  exists kvs,
    item = JDict kvs
    /\ list_or_absent (dict_get "creators" kvs) = true
    /\ str_or_absent (dict_get "name" kvs) = true
    /\ (dict_get "content" kvs = None
        \/ exists ckvs,
             dict_get "content" kvs = Some (JDict ckvs)
             /\ list_or_absent (dict_get "creators" ckvs) = true
             /\ str_or_absent (dict_get "name" ckvs) = true
             /\ (dict_get "metadata" ckvs = None
                 \/ exists mkvs,
                      dict_get "metadata" ckvs = Some (JDict mkvs)
                      /\ str_or_absent (dict_get "name" mkvs) = true)).
Proof.
  destruct item as [| | | | | |kvs]; try discriminate. cbn [plain_asset field].
  intros H. apply andb_prop in H as [H Hcontent]. apply andb_prop in H as [Hc Hn].
  exists kvs. split; [reflexivity|]. split; [exact Hc|]. split; [exact Hn|].
  destruct (dict_or_absent_cases _ _ Hcontent) as [E|(ckvs & E & H)]; [left; exact E|].
  right. exists ckvs. split; [exact E|]. cbn [field] in H.
  apply andb_prop in H as [H Hmeta]. apply andb_prop in H as [Hcc Hcn].
  split; [exact Hcc|]. split; [exact Hcn|].
  destruct (dict_or_absent_cases _ _ Hmeta) as [E'|(mkvs & E' & H)]; [left; exact E'|].
  right. exists mkvs. split; [exact E' | exact H].
Qed.

Lemma top_level_creator_plain item :
  plain_asset item = true -> Bot.top_level_creator item = Ok (has_top_creator item).
Proof.
  intros H. destruct (plain_asset_inv item H) as (kvs & -> & Hc & _).
  unfold Bot.top_level_creator, has_top_creator. cbn [field].
  apply creators_field_match, Hc.
Qed.

Lemma content_creator_plain item :
  plain_asset item = true -> Bot.content_creator item = Ok (has_content_creator item).
Proof.
  intros H. destruct (plain_asset_inv item H) as (kvs & -> & _ & _ & Hcontent).
  unfold Bot.content_creator, has_content_creator. cbn [field]. rewrite contains_dict.
  destruct Hcontent as [E|(ckvs & E & Hcc & _)]; rewrite E; [reflexivity|].
  rewrite (getitem_dict _ _ _ E).
  cbn [bool_decide decide_rel is_Some_dec mbind outcome_bind subfield field].
  apply creators_field_match, Hcc.
Qed.

Lemma creator_found_plain item :
  plain_asset item = true -> Bot.creator_found item = Ok (has_creator item).
Proof.
  intros H. unfold Bot.creator_found, has_creator.
  rewrite (top_level_creator_plain item H). cbn [mbind outcome_bind].
  destruct (has_top_creator item); [reflexivity|].
  apply content_creator_plain, H.
Qed.

Lemma name_match_plain item :
  plain_asset item = true -> Bot.name_match item = Ok (has_name item).
Proof.
  intros H. destruct (plain_asset_inv item H) as (kvs & -> & _ & Hn & Hcontent).
  unfold Bot.name_match, has_name, Bot.name_at_metadata, Bot.name_direct, Bot.name_at_content.
  cbn [field]. rewrite (name_field_match kvs Hn). rewrite !contains_dict.
  destruct Hcontent as [E|(ckvs & E & _ & Hcn & Hmeta)]; rewrite E.
  - cbn. destruct (names_certificate (dict_get "name" kvs)); reflexivity.
  - rewrite (getitem_dict _ _ _ E).
    cbn [bool_decide decide_rel is_Some_dec mbind outcome_bind subfield field].
    rewrite (name_field_match ckvs Hcn). rewrite contains_dict.
    destruct Hmeta as [E'|(mkvs & E' & Hmn)]; rewrite E'.
    + cbn. destruct (names_certificate (dict_get "name" kvs)); reflexivity.
    + rewrite (getitem_dict _ _ _ E').
      cbn [bool_decide decide_rel is_Some_dec mbind outcome_bind subfield field].
      rewrite (name_field_match mkvs Hmn). cbn [mbind outcome_bind mret outcome_ret].
      destruct (names_certificate (dict_get "name" mkvs)); [reflexivity|].
      cbn [orb]. destruct (names_certificate (dict_get "name" kvs)); reflexivity.
Qed.

Lemma content_mentions_meteora_plain w item :
  plain_asset item = true ->
  Bot.content_mentions_meteora w item = Ok (mentions_meteora w item).
Proof.
  intros H. destruct (plain_asset_inv item H) as (kvs & -> & _ & _ & Hcontent).
  unfold Bot.content_mentions_meteora, mentions_meteora. cbn [field]. rewrite contains_dict.
  destruct Hcontent as [E|(ckvs & E & _)]; rewrite E; [reflexivity|].
  rewrite (getitem_dict _ _ _ E). reflexivity.
Qed.

Lemma check_item_plain w item :
  plain_asset item = true ->
  Bot.check_item w item
  = Ok (has_creator item && has_name item || has_creator item && mentions_meteora w item).
Proof.
  intros H. unfold Bot.check_item.
  rewrite (creator_found_plain item H), (name_match_plain item H).
  cbn [mbind outcome_bind].
  destruct (has_creator item); cbn [andb orb]; [|reflexivity].
  destruct (has_name item); cbn [orb]; [reflexivity|].
  apply content_mentions_meteora_plain, H.
Qed.

Lemma scan_items_plain w items :
  forallb plain_asset items = true ->
  Bot.scan_items w items
  = Ok (existsb (fun item => has_creator item && has_name item
                             || has_creator item && mentions_meteora w item) items).
Proof.
  induction items as [|item rest IH]; [reflexivity|].
  cbn [forallb]. intros H. apply andb_prop in H as [Hitem Hrest].
  cbn [Bot.scan_items existsb]. rewrite (check_item_plain w item Hitem).
  cbn [mbind outcome_bind].
  destruct (has_creator item && has_name item || has_creator item && mentions_meteora w item);
    [reflexivity | apply IH, Hrest].
Qed.

Lemma fallback_scan_plain items :
  forallb plain_asset items = true ->
  Bot.fallback_scan items = Ok (existsb has_top_creator items).
Proof.
  induction items as [|item rest IH]; [reflexivity|].
  cbn [forallb]. intros H. apply andb_prop in H as [Hitem Hrest].
  cbn [Bot.fallback_scan existsb]. rewrite (top_level_creator_plain item Hitem).
  cbn [mbind outcome_bind].
  destruct (has_top_creator item); [reflexivity | apply IH, Hrest].
Qed.

Lemma holds_certificate_split w items :
  holds_certificate w items
  = existsb (fun item => has_creator item && has_name item
                         || has_creator item && mentions_meteora w item) items
    || existsb has_top_creator items.
Proof.
  unfold holds_certificate. induction items as [|item rest IH]; [reflexivity|].
  cbn [existsb]. rewrite IH. clear IH.
  repeat match goal with
         | |- context [existsb ?f rest] => generalize (existsb f rest); intro
         end.
  destruct (has_creator item && has_name item || has_creator item && mentions_meteora w item),
    (has_top_creator item);
    repeat match goal with b : bool |- _ => destruct b end; reflexivity.
Qed.

Lemma payload_items_inv data items :
  payload_items data = Some items ->
  exists kvs rkvs,
    data = JDict kvs /\ dict_get "error" kvs = None
    /\ dict_get "result" kvs = Some (JDict rkvs)
    /\ dict_get "items" rkvs = Some (JList items).
Proof.
  destruct data as [| | | | | |kvs]; try discriminate. cbn [payload_items field].
  destruct (dict_get "error" kvs) eqn:Eerr; [discriminate|].
  destruct (dict_get "result" kvs) as [[| | | | | |rkvs]|] eqn:Eres; try discriminate.
  destruct (dict_get "items" rkvs) as [[| | | | |l|]|] eqn:Eitems; try discriminate.
  intros [= <-]. exists kvs, rkvs. repeat split; assumption.
Qed.

Lemma debug_first_item_plain data items :
  payload_items data = Some items -> forallb plain_asset items = true ->
  Bot.debug_first_item data = Ok tt.
Proof.
  intros Hp Hplain.
  destruct (payload_items_inv data items Hp) as (kvs & rkvs & -> & _ & Hres & Hitems).
  unfold Bot.debug_first_item. rewrite !contains_dict, Hres.
  rewrite !(getitem_dict _ _ _ Hres).
  cbn [bool_decide decide_rel is_Some_dec mbind outcome_bind].
  rewrite !contains_dict, Hitems. rewrite !(getitem_dict _ _ _ Hitems).
  cbn [bool_decide decide_rel is_Some_dec mbind outcome_bind py_len mret outcome_ret].
  destruct items as [|first_item rest]; [reflexivity|].
  cbn [length Nat.ltb Nat.leb py_first]. cbn [forallb] in Hplain.
  apply andb_prop in Hplain as [Hfirst _].
  destruct (plain_asset_inv first_item Hfirst) as (ikvs & -> & Hc & _ & Hcontent).
  cbn [py_keys mbind outcome_bind]. rewrite !contains_dict.
  assert (Hcreators :
    (if bool_decide (is_Some (dict_get "creators" ikvs))
     then py_getitem (JDict ikvs) "creators" ≫= (fun _ : json => mret tt)
     else mret tt) = Ok tt).
  { cbn [py_getitem]. destruct (dict_get "creators" ikvs); reflexivity. }
  destruct Hcontent as [E|(ckvs & E & _ & _ & Hmeta)]; rewrite E.
  - cbn [bool_decide decide_rel is_Some_dec mbind outcome_bind mret outcome_ret].
    exact Hcreators.
  - rewrite (getitem_dict _ _ _ E).
    cbn [bool_decide decide_rel is_Some_dec mbind outcome_bind]. rewrite contains_dict.
    destruct Hmeta as [E'|(mkvs & E' & _)]; rewrite E'.
    + cbn [bool_decide decide_rel is_Some_dec mbind outcome_bind mret outcome_ret].
      exact Hcreators.
    + rewrite (getitem_dict _ _ _ E').
      cbn [bool_decide decide_rel is_Some_dec mbind outcome_bind py_keys].
      exact Hcreators.
Qed.

Lemma attempt_plain w address retry_count data items :
  helius_post w retry_count address = Ok data ->
  payload_items data = Some items -> forallb plain_asset items = true ->
  Bot.attempt w address retry_count
  = Ok (if holds_certificate w items then Bot.Found else Bot.NotFound).
Proof.
  intros Hpost Hp Hplain. unfold Bot.attempt. rewrite Hpost.
  cbn [mbind outcome_bind]. rewrite (debug_first_item_plain data items Hp Hplain).
  destruct (payload_items_inv data items Hp) as (kvs & rkvs & -> & Herr & Hres & Hitems).
  rewrite !contains_dict, Herr, Hres. rewrite (getitem_dict _ _ _ Hres).
  cbn [bool_decide decide_rel is_Some_dec mbind outcome_bind negb option.is_Some_dec].
  rewrite contains_dict, Hitems. rewrite (getitem_dict _ _ _ Hitems).
  cbn [bool_decide decide_rel is_Some_dec mbind outcome_bind negb py_len py_iter].
  rewrite (scan_items_plain w items Hplain), (fallback_scan_plain items Hplain).
  rewrite holds_certificate_split. cbn [mbind outcome_bind].
  destruct (existsb _ items); [reflexivity|].
  destruct (existsb has_top_creator items); reflexivity.
Qed.

Lemma bot_check_cnft_plain w address data items :
  helius_post w 0%nat address = Ok data ->
  payload_items data = Some items -> forallb plain_asset items = true ->
  exists p',
    Bot.check_cnft w (Bot.new_processor address) = (Ok tt, p')
    /\ cnft (Bot.result p') = holds_certificate w items.
Proof.
  intros Hpost Hp Hplain. unfold Bot.check_cnft, Bot.max_retries.
  cbn [Bot.cnft_loop]. unfold Bot.task, Bot.update_progress.
  unfold mbind, mret, stm_bind, stm_ret, lift, modify, get_state.
  cbn [Bot.wallet_address Bot.set_result Bot.set_tasks Bot.new_processor].
  rewrite (attempt_plain w address 0%nat data items Hpost Hp Hplain).
  cbn [try_outcome].
  destruct (holds_certificate w items); eexists; split; reflexivity.
Qed.







Example certificate_is_found :
  exists p',
    Bot.check_cnft certificate_holder (Bot.new_processor "7wallet") = (Ok tt, p')
    /\ cnft (Bot.result p') = true.
Proof. eexists. split; [vm_compute; reflexivity | reflexivity]. Qed.

(** ** The retry bound of the certificate check *)

(** X3: when the request fails three times the bot gives up: the stage ends
    without raising, [cnft] is false and the task is marked failed. *)
Theorem bot_check_cnft_gives_up (w : World) (address : string) :
  helius_post w 0%nat address = Raise RequestException ->
  helius_post w 1%nat address = Raise RequestException ->
  helius_post w 2%nat address = Raise RequestException ->
  exists p',
    Bot.check_cnft w (Bot.new_processor address) = (Ok tt, p')
    /\ cnft (Bot.result p') = false
    /\ Bot.status <$> (Bot.tasks p' !! "check_cnft"%string) = Some "failed"%string.
Proof.
  intros H0 H1 H2. unfold Bot.check_cnft, Bot.max_retries.
  cbn [Bot.cnft_loop]. unfold Bot.attempt. unfold_bot.
  cbn [Bot.wallet_address Bot.set_result Bot.set_tasks Bot.new_processor].
  rewrite H0.
  cbn [Bot.attempt_handler Bot.wallet_address Bot.set_result Bot.set_tasks Bot.new_processor].
  rewrite H1.
  cbn [Bot.attempt_handler Bot.wallet_address Bot.set_result Bot.set_tasks Bot.new_processor].
  rewrite H2.
  cbn [Bot.attempt_handler Bot.wallet_address Bot.set_result Bot.set_tasks Bot.new_processor].
  eexists. split; [reflexivity|]. split; [reflexivity|]. vm_compute. reflexivity.
Qed.

(** The retry bound in the world where every request fails. *)
Lemma bot_check_cnft_gives_up_witness :
  exists p',
    Bot.check_cnft offline (Bot.new_processor "7wallet") = (Ok tt, p')
    /\ cnft (Bot.result p') = false
    /\ Bot.status <$> (Bot.tasks p' !! "check_cnft"%string) = Some "failed"%string.
Proof.
  exact (bot_check_cnft_gives_up offline "7wallet" eq_refl eq_refl eq_refl).
Defined.

(** * Further properties *)

(** ** Words and white space *)

Lemma append_empty_r (s : string) : s +:+ "" = s.
Proof. induction s as [|c s IH]; simpl; [reflexivity|]. unfold String.app in *. simpl. f_equal. exact IH. Qed.

Lemma append_assoc (a b c : string) : (a +:+ b) +:+ c = a +:+ (b +:+ c).
Proof. unfold String.app. induction a as [|x a IH]; simpl; [reflexivity|]. f_equal. exact IH. Qed.

Lemma no_space_app (a b : string) : no_space (a +:+ b) = no_space a && no_space b.
Proof.
  unfold String.app. induction a as [|c a IH]; simpl; [reflexivity|].
  rewrite IH. apply andb_assoc.
Qed.

Lemma eqb_empty_app (word : string) (c : ascii) : String.eqb (word +:+ String c "") "" = false.
Proof. unfold String.app. destruct word; reflexivity. Qed.

Lemma split_from_words (s : string) :
  forall word, no_space word = true -> Forall is_word (split_from word s).
Proof.
  induction s as [|c rest IH]; intros word Hw; simpl.
  - destruct (String.eqb word "") eqn:E; [constructor|].
    repeat constructor; [|exact Hw]. intros ->. discriminate.
  - destruct (isspace c) eqn:Hc.
    + destruct (String.eqb word "") eqn:E.
      * apply IH. reflexivity.
      * constructor; [|apply IH; reflexivity].
        split; [intros ->; discriminate|exact Hw].
    + apply IH. rewrite no_space_app, Hw. simpl. rewrite Hc. reflexivity.
Qed.

Lemma split_from_visible (s : string) :
  forall word, fold_right String.app "" (split_from word s) = word +:+ visible s.
Proof.
  induction s as [|c rest IH]; intros word; simpl.
  - destruct (String.eqb word "") eqn:E; simpl.
    + apply String.eqb_eq in E. subst. reflexivity.
    + reflexivity.
  - destruct (isspace c) eqn:Hc.
    + destruct (String.eqb word "") eqn:E; simpl.
      * apply String.eqb_eq in E. subst. apply IH.
      * rewrite IH. reflexivity.
    + rewrite IH, append_assoc. reflexivity.
Qed.

Lemma split_from_lstrip (s : string) : split_from "" (lstrip s) = split_from "" s.
Proof.
  induction s as [|c rest IH]; simpl; [reflexivity|].
  destruct (isspace c) eqn:Hc; [exact IH|]. simpl. rewrite Hc. reflexivity.
Qed.

Lemma split_from_rstrip (s : string) :
  forall word, split_from word (rstrip s) = split_from word s.
Proof.
  induction s as [|c rest IH]; intros word; [reflexivity|].
  cbn [rstrip]. destruct (rstrip rest) as [|c' r] eqn:E.
  - destruct (isspace c) eqn:Hc.
    + cbn [split_from]. rewrite Hc, <- !IH. cbn [split_from].
      destruct (String.eqb word ""); reflexivity.
    + cbn [split_from]. rewrite Hc, <- IH. reflexivity.
  - cbn [split_from]. rewrite <- !IH. reflexivity.
Qed.

Lemma split_strip (s : string) : split (strip s) = split s.
Proof. unfold split, strip. rewrite split_from_rstrip. apply split_from_lstrip. Qed.

Lemma filter_words (l : list string) :
  Forall is_word l -> List.filter (fun w => negb (String.eqb w "")) l = l.
Proof.
  induction 1 as [|w l [Hne _] _ IH]; simpl; [reflexivity|].
  destruct (String.eqb w "") eqn:E.
  - apply String.eqb_eq in E. contradiction.
  - simpl. f_equal. exact IH.
Qed.

Lemma visible_blank (s : string) : visible s = "" <-> blank s = true.
Proof.
  induction s as [|c rest IH]; simpl; [tauto|].
  destruct (isspace c); simpl; [exact IH|]. split; discriminate.
Qed.

Lemma split_nil_blank (s : string) : split s = [] <-> blank s = true.
Proof.
  rewrite <- visible_blank. unfold split. split; intros H.
  - pose proof (split_from_visible s "") as E. rewrite H in E. simpl in E. symmetry. exact E.
  - pose proof (split_from_visible s "") as E.
    pose proof (split_from_words s "" eq_refl) as W.
    destruct (split_from "" s) as [|w ws]; [reflexivity|].
    inversion W as [|? ? [Hne _] _]; subst.
    rewrite H in E. simpl in E. destruct w; [contradiction|discriminate].
Qed.

Lemma split_from_word (w : string) :
  no_space w = true ->
  forall word rest, split_from word (w +:+ rest) = split_from (word +:+ w) rest.
Proof.
  unfold String.app.
  induction w as [|c w IH]; intros Hw word rest; simpl.
  - pose proof (append_empty_r word) as E. unfold String.app in E. rewrite E. reflexivity.
  - simpl in Hw. apply andb_true_iff in Hw as [Hc Hw]. apply negb_true_iff in Hc.
    rewrite Hc. rewrite (IH Hw). f_equal.
    pose proof (append_assoc word (String c "") w) as E. unfold String.app in E. exact E.
Qed.

Lemma split_join_spaces (l : list string) :
  Forall is_word l -> split (join_spaces l) = l.
Proof.
  unfold split. induction 1 as [|w l [Hne Hw] Hl IH]; [reflexivity|].
  destruct l as [|w' l'].
  - cbn [join_spaces]. rewrite <- (append_empty_r w) at 1.
    rewrite (split_from_word w Hw "" ""). change ("" +:+ w) with w. simpl.
    destruct (String.eqb w "") eqn:E; [apply String.eqb_eq in E; contradiction|reflexivity].
  - change (join_spaces (w :: w' :: l')) with (w +:+ " " +:+ join_spaces (w' :: l')).
    rewrite (split_from_word w Hw "" _). change ("" +:+ w) with w.
    change (" " +:+ join_spaces (w' :: l')) with (String " " (join_spaces (w' :: l'))).
    cbn [split_from]. change (isspace " ") with true. cbn iota.
    destruct (String.eqb w "") eqn:E; [apply String.eqb_eq in E; contradiction|].
    f_equal. exact IH.
Qed.

(** X4: [handle_wallets] stores exactly the words of the message: the [strip]
    and the filter on empty strings change nothing.  The words are not empty,
    hold no white space, and together hold the characters of the message
    that are not white space, in order.  Nothing is stored, and the reply
    asks to try again, exactly when the message is blank. *)
Theorem handle_wallets_words (text : string) :
  match fst (handle_wallets text) with
  | Some wallets =>
      wallets = split text /\ wallets <> [] /\ Forall is_word wallets
      /\ fold_right String.app "" wallets = visible text
      /\ blank text = false
      /\ snd (handle_wallets text)
         = "Found " +:+ pretty (length wallets) +:+ " wallet(s). Please select output format:"
  | None =>
      blank text = true
      /\ snd (handle_wallets text) = "No valid wallet addresses found. Please try again."
  end.
Proof.
  unfold handle_wallets. rewrite split_strip.
  pose proof (split_from_words text "" eq_refl) as W. fold (split text) in W.
  rewrite (filter_words _ W).
  destruct (split text) as [|w ws] eqn:E; cbn [fst snd].
  - split; [|reflexivity]. apply split_nil_blank. exact E.
  - repeat split; try assumption.
    + discriminate.
    + rewrite <- E. unfold split. rewrite split_from_visible. reflexivity.
    + destruct (blank text) eqn:B; [|reflexivity].
      apply split_nil_blank in B. congruence.
Qed.

(** X5: Addresses sent separated by single spaces come back as they were sent:
    for non-empty words without white space, [handle_wallets] applied to
    their [" ".join] stores the same list. *)
Theorem handle_wallets_round_trip (wallets : list string) :
  wallets <> [] -> Forall is_word wallets ->
  fst (handle_wallets (join_spaces wallets)) = Some wallets.
Proof.
  intros Hne W. unfold handle_wallets. rewrite split_strip, (split_join_spaces _ W).
  rewrite (filter_words _ W). destruct wallets; [contradiction|reflexivity].
Qed.

Lemma handle_wallets_round_trip_witness :
  fst (handle_wallets (join_spaces ["7wallet"; "8wallet"]%string))
  = Some ["7wallet"; "8wallet"]%string.
Proof.
  apply handle_wallets_round_trip; [discriminate|].
  repeat constructor; discriminate.
Defined.

(** ** Start-up: endpoints *)

Lemma strip_head (s : string) :
  lstrip s = "" \/ exists c t, lstrip s = String c t /\ isspace c = false.
Proof.
  induction s as [|c rest IH]; simpl; [left; reflexivity|].
  destruct (isspace c) eqn:Hc; [exact IH|]. right. eauto.
Qed.

Lemma rstrip_idem (s : string) : rstrip (rstrip s) = rstrip s.
Proof.
  induction s as [|c rest IH]; [reflexivity|].
  cbn [rstrip]. destruct (rstrip rest) as [|c' r] eqn:E.
  - destruct (isspace c) eqn:Hc; [reflexivity|]. cbn [rstrip]. rewrite Hc. reflexivity.
  - cbn [rstrip]. cbn [rstrip] in IH. rewrite IH. reflexivity.
Qed.

Lemma rstrip_keeps_head (c : ascii) (t : string) :
  isspace c = false -> exists t', rstrip (String c t) = String c t'.
Proof.
  intros Hc. cbn [rstrip]. destruct (rstrip t); [rewrite Hc|]; eauto.
Qed.

Lemma strip_idem (s : string) : strip (strip s) = strip s.
Proof.
  unfold strip. destruct (strip_head s) as [E|(c & t & E & Hc)]; rewrite E.
  - reflexivity.
  - destruct (rstrip_keeps_head c t Hc) as [t' E']. rewrite E'.
    cbn [lstrip]. rewrite Hc, <- E'. apply rstrip_idem.
Qed.

Lemma use_fallback_not_empty h name endpoints :
  Forall (fun e => e <> "") endpoints -> Forall (fun e => e <> "") (use_fallback h name endpoints).
Proof.
  intros H. unfold use_fallback. destruct (environ h !! name) as [fallback|]; [|exact H].
  destruct (String.eqb fallback "") eqn:E; [exact H|].
  repeat constructor. intros ->. discriminate.
Qed.

Lemma nonblank_lines (lines : list string) :
  Forall (fun e => e <> "")
    (List.filter (fun line => negb (String.eqb line "")) (map strip lines)).
Proof.
  induction lines as [|l lines IH]; simpl; [constructor|].
  destruct (String.eqb (strip l) "") eqn:E; simpl; [exact IH|].
  constructor; [|exact IH]. intros E'. rewrite E' in E. discriminate.
Qed.

Lemma read_endpoints_not_empty h filename :
  Forall (fun e => e <> "") (fst (read_endpoints h filename)).
Proof.
  unfold read_endpoints. destruct (bool_decide _); [|constructor].
  destruct (read_lines h filename) as [[lines []]|]; cbn [fst]; try constructor.
  - pose proof (nonblank_lines lines) as H.
    destruct (List.filter _ _); [constructor|exact H].
  - apply nonblank_lines.
Qed.

Lemma load_api_endpoints_ok h filename endpoints :
  load_api_endpoints h filename = Ok endpoints ->
  endpoints <> [] /\ Forall (fun e => e <> "") endpoints.
Proof.
  unfold load_api_endpoints. pose proof (read_endpoints_not_empty h filename) as H.
  destruct (read_endpoints h filename) as [l raised]. cbn [fst] in H.
  assert (Forall (fun e => e <> "") (if raised then fallback_endpoints h filename l else l)) as H'.
  { destruct raised; [|exact H]. unfold fallback_endpoints.
    repeat (destruct (String.eqb filename _)); auto using use_fallback_not_empty. }
  destruct (if raised then _ else _) as [|e l']; [discriminate|].
  intros [= <-]. split; [discriminate|exact H'].
Qed.

(** X6: [load_api_endpoints] returns a list that is not empty and holds no
    empty string, or raises [ValueError]; no other exception leaves it. *)
Theorem load_api_endpoints_result (h : Host) (filename : string) :
  match load_api_endpoints h filename with
  | Ok endpoints => endpoints <> [] /\ Forall (fun e => e <> "") endpoints
  | Raise e => e = ValueError
  end.
Proof.
  destruct (load_api_endpoints h filename) as [l|e] eqn:E.
  - apply (load_api_endpoints_ok h filename l E).
  - unfold load_api_endpoints in E. destruct (read_endpoints h filename) as [l raised].
    destruct (if raised then _ else _); congruence.
Qed.

(** X7: When reading the file fails after some lines, and no fallback variable
    is set for the file name, the lines read so far are the result: the
    [except] clause leaves [endpoints] as the interrupted loop left it. *)
Theorem load_api_endpoints_keeps_partial_read (h : Host) (filename : string)
    (lines : list string) :
  filename ∈ files h ->
  read_lines h filename = Some (lines, ReadFails) ->
  fallback_endpoints h filename [] = [] ->
  List.filter (fun line => negb (String.eqb line "")) (map strip lines) <> [] ->
  load_api_endpoints h filename
  = Ok (List.filter (fun line => negb (String.eqb line "")) (map strip lines)).
Proof.
  intros Hex Hread Hfb Hne. unfold load_api_endpoints, read_endpoints.
  rewrite (bool_decide_eq_true_2 _ Hex), Hread.
  assert (forall l, fallback_endpoints h filename l = l) as Hid.
  { intros l. revert Hfb. unfold fallback_endpoints, use_fallback.
    repeat (destruct (String.eqb filename _)); try reflexivity;
      (destruct (environ h !! _) as [fb|]; [|reflexivity]);
      (destruct (String.eqb fb ""); [reflexivity|discriminate]). }
  rewrite Hid. destruct (List.filter _ _); [contradiction|reflexivity].
Qed.

Lemma load_api_endpoints_keeps_partial_read_witness :
  load_api_endpoints interrupted_host "RPC_URL.txt"
  = Ok (List.filter (fun line => negb (String.eqb line ""))
          (map strip ["https://rpc-a.example" +:+ String "010" ""])).
Proof.
  apply load_api_endpoints_keeps_partial_read.
  - vm_compute. reflexivity.
  - reflexivity.
  - reflexivity.
  - vm_compute. discriminate.
Defined.

(** ** Start-up: the blacklist *)

Lemma add_rows_stripped (rows : list (gmap string (option string))) :
  forall blacklist : gset string,
    (forall a, a ∈ blacklist -> strip a = a) ->
    forall a, a ∈ add_rows rows blacklist -> strip a = a.
Proof.
  induction rows as [|row rest IH]; intros blacklist Hb a; simpl; [apply Hb|].
  destruct (row !! "address"%string) as [[address|]|]; try apply Hb.
  apply IH. intros x Hx. apply elem_of_union in Hx as [Hx|Hx]; [|apply Hb; exact Hx].
  apply elem_of_singleton in Hx. subst. apply strip_idem.
Qed.

Lemma load_blacklist_stripped h a : a ∈ load_blacklist h -> strip a = a.
Proof.
  unfold load_blacklist. destruct (bool_decide _); [|set_solver].
  destruct (read_csv h BLACKLIST_FILE) as [[rows fin]|]; [|set_solver].
  apply add_rows_stripped. set_solver.
Qed.

Lemma add_rows_prefix (good : list (gmap string (option string))) :
  Forall (fun row => is_Some (address_of row)) good ->
  forall bad rest (blacklist : gset string),
    address_of bad = None ->
    add_rows (good ++ bad :: rest) blacklist
    = list_to_set (map strip (omap address_of good)) ∪ blacklist.
Proof.
  induction 1 as [|row good [a Ha] _ IH]; intros bad rest blacklist Hbad.
  - simpl. unfold address_of in Hbad.
    destruct (bad !! "address"%string) as [[?|]|]; try discriminate; set_solver.
  - assert (row !! "address"%string = Some (Some a)) as E.
    { unfold address_of in Ha. destruct (row !! "address"%string) as [[?|]|]; congruence. }
    rewrite <- app_comm_cons. cbn [add_rows]. rewrite E, (IH bad rest _ Hbad).
    cbn [omap list_omap]. rewrite Ha. cbn [map list_to_set]. set_solver.
Qed.

(** X8: A row without an [address] (a missing column or a short line) ends the
    loading of the blacklist: the stripped addresses of the rows before it
    are kept, the rows after it are never read. *)
Theorem load_blacklist_stops_at_bad_row (h : Host)
    (good rest : list (gmap string (option string))) (bad : gmap string (option string))
    (fin : read_end) :
  BLACKLIST_FILE ∈ files h ->
  read_csv h BLACKLIST_FILE = Some (good ++ bad :: rest, fin) ->
  Forall (fun row => is_Some (address_of row)) good ->
  address_of bad = None ->
  load_blacklist h = list_to_set (map strip (omap address_of good)).
Proof.
  intros Hex Hread Hgood Hbad.
  unfold load_blacklist. rewrite (bool_decide_eq_true_2 _ Hex), Hread.
  rewrite (add_rows_prefix good Hgood bad rest ∅ Hbad). set_solver.
Qed.

Lemma load_blacklist_stops_at_bad_row_witness :
  load_blacklist configured_host
  = list_to_set
      (map strip
         (omap address_of
            [{[ "address"%string := Some " 7wallet"%string ]};
             {[ "address"%string := Some "8wallet "%string ]}])).
Proof.
  apply (load_blacklist_stops_at_bad_row configured_host
           [{[ "address"%string := Some " 7wallet"%string ]};
            {[ "address"%string := Some "8wallet "%string ]}]
           [{[ "address"%string := Some "9wallet"%string ]}]
           {[ "address"%string := None ]} EndOfFile).
  - vm_compute. reflexivity.
  - reflexivity.
  - repeat constructor; vm_compute; eauto.
  - reflexivity.
Defined.

(** ** Report file names *)

Lemma length_app (a b : string) :
  String.length (a +:+ b) = (String.length a + String.length b)%nat.
Proof. unfold String.app. induction a as [|x a IH]; simpl; [reflexivity|]. rewrite IH. reflexivity. Qed.

Lemma append_inj_r (a b t : string) : a +:+ t = b +:+ t -> a = b.
Proof.
  revert b. induction a as [|x a IH]; intros [|y b] H.
  - reflexivity.
  - apply (f_equal String.length) in H. rewrite !length_app in H. simpl in H. lia.
  - apply (f_equal String.length) in H. rewrite !length_app in H. simpl in H. lia.
  - unfold String.app in H. simpl in H. injection H as -> H. f_equal. apply IH. exact H.
Qed.

Lemma report_name_inj today : Inj (=) (=) (report_name today).
Proof.
  intros j k H. unfold report_name in H.
  do 4 apply (inj (String.app _)) in H.
  apply append_inj_r in H. apply (inj pretty) in H. exact H.
Qed.

Lemma first_free_name_some existing today fuel :
  forall counter filename,
    first_free_name existing today fuel counter = Some filename ->
    exists k, (counter <= k)%nat /\ filename = report_name today k
              /\ (filename ∉ existing)
              /\ (forall j, (counter <= j < k)%nat -> report_name today j ∈ existing).
Proof.
  induction fuel as [|fuel IH]; intros counter filename H; [discriminate|].
  cbn [first_free_name] in H. case_bool_decide as Hin.
  - destruct (IH _ _ H) as (k & Hk & -> & Hfree & Hbelow).
    exists k. repeat split; [lia|exact Hfree|].
    intros j Hj. destruct (decide (j = counter)) as [->|]; [exact Hin|]. apply Hbelow. lia.
  - injection H as <-. exists counter. repeat split; [lia|exact Hin|]. intros j Hj. lia.
Qed.

Lemma first_free_name_none existing today fuel :
  forall counter,
    first_free_name existing today fuel counter = None ->
    forall j, (counter <= j < counter + fuel)%nat -> report_name today j ∈ existing.
Proof.
  induction fuel as [|fuel IH]; intros counter H j Hj; [lia|].
  cbn [first_free_name] in H. case_bool_decide as Hin; [|discriminate].
  destruct (decide (j = counter)) as [->|]; [exact Hin|]. apply (IH _ H). lia.
Qed.

Lemma names_in_set (existing : gset string) today n :
  (forall j, (j < n)%nat -> report_name today j ∈ existing) -> (n <= size existing)%nat.
Proof.
  intros H. pose proof (report_name_inj today) as Hinj.
  assert (NoDup (report_name today <$> seq 0 n)) as Hnd.
  { apply (NoDup_fmap_2 _). apply NoDup_seq. }
  assert (size (list_to_set (report_name today <$> seq 0 n) : gset string) = n) as E.
  { rewrite size_list_to_set by exact Hnd. rewrite length_fmap. apply length_seq. }
  rewrite <- E at 1. apply subseteq_size. intros x Hx. apply elem_of_list_to_set in Hx.
  apply list_elem_of_fmap in Hx as (j & -> & Hj). apply elem_of_seq in Hj.
  apply H. lia.
Qed.

(** X9: [generate_filename] ends and returns [Meteora_<today>_<k>.csv] for the
    least counter [k] whose name does not exist yet: the name returned is
    free, and the names of all smaller counters are taken. *)
Theorem generate_filename_first_free (h : Host) :
  exists k,
    generate_filename h = Some (report_name (strftime_Ymd (now h)) k)
    /\ (report_name (strftime_Ymd (now h)) k ∉ files h)
    /\ (forall j, (j < k)%nat -> report_name (strftime_Ymd (now h)) j ∈ files h)
    /\ (k <= size (files h))%nat.
Proof.
  unfold generate_filename.
  destruct (first_free_name (files h) (strftime_Ymd (now h)) (S (size (files h))) 0)
    as [filename|] eqn:E.
  - destruct (first_free_name_some _ _ _ _ _ E) as (k & _ & -> & Hfree & Hbelow).
    exists k. repeat split; [exact Hfree|intros j Hj; apply Hbelow; lia|].
    apply names_in_set with (today := strftime_Ymd (now h)). intros j Hj. apply Hbelow. lia.
  - exfalso. pose proof (first_free_name_none _ _ _ _ E) as H.
    assert (S (size (files h)) <= size (files h))%nat; [|lia].
    apply names_in_set with (today := strftime_Ymd (now h)). intros j Hj. apply H. lia.
Qed.

(** ** The order of binary64 values *)

Ltac compare_cases :=
  repeat match goal with
  | |- context [Z.compare ?a ?b] => destruct (Z.compare_spec a b); subst
  | H : context [Z.compare ?a ?b] |- _ => destruct (Z.compare_spec a b); subst
  | |- context [Pos.compare_cont Eq ?a ?b] =>
      change (Pos.compare_cont Eq a b) with (Pos.compare a b)
  | H : context [Pos.compare_cont Eq ?a ?b] |- _ =>
      change (Pos.compare_cont Eq a b) with (Pos.compare a b) in H
  | |- context [Pos.compare ?a ?b] => destruct (Pos.compare_spec a b); subst
  | H : context [Pos.compare ?a ?b] |- _ => destruct (Pos.compare_spec a b); subst
  end; simpl in *; try congruence; try lia.

Lemma SFltb_trans x y z : SFltb x y = true -> SFltb y z = true -> SFltb x z = true.
Proof.
  unfold SFltb, SFcompare.
  destruct x as [[]|[]| |[] mx ex], y as [[]|[]| |[] my ey], z as [[]|[]| |[] mz ez];
    simpl; try congruence; intros; compare_cases.
Qed.

Lemma SFltb_neg_trans x y z :
  y <> S754_nan -> SFltb x y = false -> SFltb y z = false -> SFltb x z = false.
Proof.
  unfold SFltb, SFcompare.
  destruct x as [[]|[]| |[] mx ex], y as [[]|[]| |[] my ey], z as [[]|[]| |[] mz ez];
    simpl; try congruence; intros; compare_cases.
Qed.

Lemma SFltb_irrefl x : SFltb x x = false.
Proof.
  unfold SFltb, SFcompare. destruct x as [[]|[]| |[] mx ex]; simpl; try reflexivity;
    rewrite Z.compare_refl; change (Pos.compare_cont Eq mx mx) with (Pos.compare mx mx);
    rewrite Pos.compare_refl; reflexivity.
Qed.

Lemma ltb_trans (x y z : float) :
  (x <? y)%float = true -> (y <? z)%float = true -> (x <? z)%float = true.
Proof. rewrite !ltb_spec. apply SFltb_trans. Qed.

Lemma ltb_irrefl (x : float) : (x <? x)%float = false.
Proof. rewrite ltb_spec. apply SFltb_irrefl. Qed.

Lemma ltb_asym (x y : float) : (x <? y)%float = true -> (y <? x)%float = false.
Proof.
  intros H. destruct (y <? x)%float eqn:E; [|reflexivity].
  pose proof (ltb_trans _ _ _ H E) as C. rewrite ltb_irrefl in C. discriminate.
Qed.

Lemma not_nan_spec (x : float) : PrimFloat.is_nan x = false -> Prim2SF x <> S754_nan.
Proof.
  unfold PrimFloat.is_nan. rewrite FloatAxioms.eqb_spec. intros H E. rewrite E in H. discriminate.
Qed.

Lemma ltb_neg_trans (x y z : float) :
  PrimFloat.is_nan y = false ->
  (x <? y)%float = false -> (y <? z)%float = false -> (x <? z)%float = false.
Proof. rewrite !ltb_spec. intros H. apply SFltb_neg_trans, not_nan_spec, H. Qed.

Lemma ltb_not_nan_l (x y : float) : (x <? y)%float = true -> PrimFloat.is_nan x = false.
Proof.
  rewrite ltb_spec. unfold PrimFloat.is_nan. rewrite FloatAxioms.eqb_spec.
  unfold SFltb, SFeqb, SFcompare.
  destruct (Prim2SF x) as [[]|[]| |[] mx ex], (Prim2SF y) as [[]|[]| |[] my ey];
    simpl; try congruence; intros _;
    rewrite Z.compare_refl; change (Pos.compare_cont Eq mx mx) with (Pos.compare mx mx);
    rewrite Pos.compare_refl; reflexivity.
Qed.

Lemma ltb_not_nan_r (x y : float) : (x <? y)%float = true -> PrimFloat.is_nan y = false.
Proof.
  rewrite ltb_spec. unfold PrimFloat.is_nan. rewrite FloatAxioms.eqb_spec.
  unfold SFltb, SFeqb, SFcompare.
  destruct (Prim2SF x) as [[]|[]| |[] mx ex], (Prim2SF y) as [[]|[]| |[] my ey];
    simpl; try congruence; intros _;
    rewrite Z.compare_refl; change (Pos.compare_cont Eq my my) with (Pos.compare my my);
    rewrite Pos.compare_refl; reflexivity.
Qed.

Lemma infinity_is_greatest (x : float) : (infinity <? x)%float = false.
Proof.
  rewrite ltb_spec. change (Prim2SF infinity) with (S754_infinity false).
  unfold SFltb, SFcompare. destruct (Prim2SF x) as [[]|[]| |[] mx ex]; reflexivity.
Qed.

(** ** The endpoint manager *)

Import ApiManager.

Section LeastUsed.

Variable m : APIManager.
Variable l : list string.
Hypothesis recorded_not_nan :
  forall key t, last_used m !! key = Some t -> PrimFloat.is_nan t = false.

Lemma usage_time_not_nan i : PrimFloat.is_nan (usage_time m l i) = false.
Proof.
  unfold usage_time, last_used_time.
  destruct (last_used m !! key_of m l i) as [t|] eqn:E; [exact (recorded_not_nan _ _ E)|].
  reflexivity.
Qed.

Lemma least_used_loop_spec n :
  forall a min_time min_index,
    let r := least_used_loop m l (seq a n) min_time min_index in
    (r = min_index
     /\ forall i, (a <= i < a + n)%nat -> (usage_time m l i <? min_time)%float = false)
    \/ ((a <= r < a + n)%nat
        /\ (usage_time m l r <? min_time)%float = true
        /\ (forall i, (a <= i < a + n)%nat -> (usage_time m l i <? usage_time m l r)%float = false)
        /\ (forall i, (a <= i < r)%nat -> (usage_time m l r <? usage_time m l i)%float = true)).
Proof.
  induction n as [|n IH]; intros a min_time min_index; cbn zeta.
  - left. split; [reflexivity|]. intros i Hi. lia.
  - cbn [seq least_used_loop]. fold (usage_time m l a).
    destruct (usage_time m l a <? min_time)%float eqn:Ha.
    + right. destruct (IH (S a) (usage_time m l a) a) as [[-> Hall]|(Hr & Hlt & Hall & Hfirst)].
      * repeat split; [lia|lia|exact Ha| |intros i Hi; lia].
        intros i Hi. destruct (decide (i = a)) as [->|]; [apply ltb_irrefl|]. apply Hall. lia.
      * repeat split; [lia|lia|exact (ltb_trans _ _ _ Hlt Ha)| |].
        -- intros i Hi. destruct (decide (i = a)) as [->|]; [exact (ltb_asym _ _ Hlt)|].
           apply Hall. lia.
        -- intros i Hi. destruct (decide (i = a)) as [->|]; [exact Hlt|]. apply Hfirst. lia.
    + destruct (IH (S a) min_time min_index) as [[-> Hall]|(Hr & Hlt & Hall & Hfirst)].
      * left. split; [reflexivity|].
        intros i Hi. destruct (decide (i = a)) as [->|]; [exact Ha|]. apply Hall. lia.
      * right. repeat split; [lia|lia|exact Hlt| |].
        -- intros i Hi. destruct (decide (i = a)) as [->|]; [|apply Hall; lia].
           destruct (usage_time m l a <? usage_time m l _)%float eqn:E; [|reflexivity].
           rewrite (ltb_trans _ _ _ E Hlt) in Ha. discriminate.
        -- intros i Hi. destruct (decide (i = a)) as [->|]; [|apply Hfirst; lia].
           destruct (usage_time m l _ <? usage_time m l a)%float eqn:E; [reflexivity|].
           rewrite (ltb_neg_trans _ _ _ (usage_time_not_nan a) E Ha) in Hlt. discriminate.
Qed.

Lemma least_used_index_spec :
  l <> [] ->
  let r := _get_least_used_index m l in
  (r < length l)%nat
  /\ (forall i, (i < length l)%nat -> (usage_time m l i <? usage_time m l r)%float = false)
  /\ (forall i, (i < r)%nat -> (usage_time m l r <? usage_time m l i)%float = true).
Proof.
  intros Hne. cbn zeta. unfold _get_least_used_index.
  assert (0 < length l)%nat as Hlen by (destruct l; [contradiction|simpl; lia]).
  destruct (least_used_loop_spec (length l) 0%nat infinity 0%nat)
    as [[-> Hall]|(Hr & Hlt & Hall & Hfirst)].
  - repeat split; [lia| |intros i Hi; lia].
    intros i Hi. apply (ltb_neg_trans _ infinity); [reflexivity|apply Hall; lia|].
    apply infinity_is_greatest.
  - repeat split; [lia|intros i Hi; apply Hall; lia|intros i Hi; apply Hfirst; lia].
Qed.

End LeastUsed.

Lemma least_used_index_lt m l : l <> [] -> (_get_least_used_index m l < length l)%nat.
Proof.
  intros Hne. unfold _get_least_used_index.
  assert (0 < length l)%nat as Hlen by (destruct l; [contradiction|simpl; lia]).
  assert (forall n a min_time min_index,
            let r := least_used_loop m l (seq a n) min_time min_index in
            r = min_index \/ (a <= r < a + n)%nat) as H.
  { induction n as [|n IH]; intros a min_time min_index; cbn zeta; [left; reflexivity|].
    cbn [seq least_used_loop]. destruct (_ <? _)%float.
    - destruct (IH (S a) (last_used_time m (key_of m l a)) a) as [->|]; right; lia.
    - destruct (IH (S a) min_time min_index) as [->|]; [left; reflexivity|right; lia]. }
  destruct (H (length l) 0%nat infinity 0%nat) as [->|]; lia.
Qed.

Lemma nonempty_length {A} (l : list A) : l <> [] -> exists n, length l = S n.
Proof. destruct l; [contradiction|]. simpl. eauto. Qed.

Lemma next_indices_lt m u :
  rpc_urls m <> [] -> helius_api_keys m <> [] ->
  (fst (next_indices m u) < length (rpc_urls m))%nat
  /\ (snd (next_indices m u) < length (helius_api_keys m))%nat.
Proof.
  intros Hr Hh. unfold next_indices.
  destruct (user_counters m !! u) as [[i j]|]; cbn [fst snd].
  - destruct (nonempty_length _ Hr) as [n ->], (nonempty_length _ Hh) as [k ->].
    split; apply Nat.mod_upper_bound; lia.
  - split; apply least_used_index_lt; assumption.
Qed.

Lemma get_endpoints_run m t u :
  rpc_urls m <> [] -> helius_api_keys m <> [] ->
  exists url key,
    rpc_urls m !! fst (next_indices m u) = Some url
    /\ helius_api_keys m !! snd (next_indices m u) = Some key
    /\ get_endpoints_for_user t u m
       = (Ok (url, key),
          {| rpc_urls := rpc_urls m; helius_api_keys := helius_api_keys m;
             user_counters := <[u := next_indices m u]> (user_counters m);
             last_used :=
               <["helius_" +:+ pretty (snd (next_indices m u)) := t]>
                 (<["rpc_" +:+ pretty (fst (next_indices m u)) := t]> (last_used m)) |}).
Proof.
  intros Hr Hh. destruct (next_indices_lt m u Hr Hh) as [Hi Hj].
  destruct (lookup_lt_is_Some_2 _ _ Hi) as [url Hurl].
  destruct (lookup_lt_is_Some_2 _ _ Hj) as [key Hkey].
  exists url, key. split; [exact Hurl|]. split; [exact Hkey|].
  revert Hurl Hkey. unfold next_indices, get_endpoints_for_user. unfold_monads.
  destruct (user_counters m !! u) as [[i j]|]; cbn [fst snd]; intros Hurl Hkey.
  - destruct (nonempty_length _ Hr) as [n En], (nonempty_length _ Hh) as [k Ek].
    unfold py_mod. rewrite En, Ek in *. cbn [set_user_counters set_last_used rpc_urls
      helius_api_keys user_counters last_used].
    unfold list_getitem. rewrite Hurl, Hkey. reflexivity.
  - cbn [set_user_counters set_last_used rpc_urls helius_api_keys user_counters last_used].
    unfold list_getitem. rewrite Hurl, Hkey. reflexivity.
Qed.

(** X10: With at least one endpoint of each kind, [get_endpoints_for_user] does
    not raise: it returns the endpoints at the indices it records for the
    user, stamps their two keys with the clock reading, and changes nothing
    else (the counters of the other users, the other time stamps, the
    lists).  A user already known is moved to the next index of each list,
    cyclically. *)
Theorem get_endpoints_for_user_succeeds (m : APIManager) (t : float) (u : Z) :
  rpc_urls m <> [] -> helius_api_keys m <> [] ->
  exists i j url key m',
    get_endpoints_for_user t u m = (Ok (url, key), m')
    /\ rpc_urls m !! i = Some url /\ helius_api_keys m !! j = Some key
    /\ user_counters m' = <[u := (i, j)]> (user_counters m)
    /\ last_used m' = <["helius_" +:+ pretty j := t]> (<["rpc_" +:+ pretty i := t]> (last_used m))
    /\ rpc_urls m' = rpc_urls m /\ helius_api_keys m' = helius_api_keys m
    /\ (forall i0 j0, user_counters m !! u = Some (i0, j0) ->
          i = ((i0 + 1) mod length (rpc_urls m))%nat
          /\ j = ((j0 + 1) mod length (helius_api_keys m))%nat).
Proof.
  intros Hr Hh. destruct (get_endpoints_run m t u Hr Hh) as (url & key & Hurl & Hkey & Hrun).
  exists (fst (next_indices m u)), (snd (next_indices m u)), url, key. eexists.
  split; [exact Hrun|]. cbn [rpc_urls helius_api_keys user_counters last_used].
  repeat split; try assumption.
  - destruct (next_indices m u); reflexivity.
  - unfold next_indices. rewrite H. reflexivity.
  - unfold next_indices. rewrite H. reflexivity.
Qed.

Lemma get_endpoints_for_user_succeeds_witness :
  exists i j url key m',
    get_endpoints_for_user 1700000000%float 7 two_endpoints = (Ok (url, key), m')
    /\ rpc_urls two_endpoints !! i = Some url /\ helius_api_keys two_endpoints !! j = Some key
    /\ user_counters m' = <[7 := (i, j)]> (user_counters two_endpoints)
    /\ last_used m'
       = <["helius_" +:+ pretty j := 1700000000%float]>
           (<["rpc_" +:+ pretty i := 1700000000%float]> (last_used two_endpoints))
    /\ rpc_urls m' = rpc_urls two_endpoints
    /\ helius_api_keys m' = helius_api_keys two_endpoints
    /\ (forall i0 j0, user_counters two_endpoints !! 7 = Some (i0, j0) ->
          i = ((i0 + 1) mod length (rpc_urls two_endpoints))%nat
          /\ j = ((j0 + 1) mod length (helius_api_keys two_endpoints))%nat).
Proof. apply get_endpoints_for_user_succeeds; discriminate. Defined.

(** X11: Without an endpoint in one of the lists every call raises, and the
    first call leaves a trace: for a user not yet known the counters are
    written before [IndexError] is raised, so that every later call for the
    same user, at whatever time, fails differently, with
    [ZeroDivisionError], in the rotation, and changes nothing. *)
Theorem get_endpoints_for_user_without_endpoints (m : APIManager) (t : float) (u : Z) :
  rpc_urls m = [] \/ helius_api_keys m = [] ->
  (user_counters m !! u = None ->
   exists m',
     get_endpoints_for_user t u m = (Raise IndexError, m')
     /\ is_Some (user_counters m' !! u)
     /\ (rpc_urls m' = [] \/ helius_api_keys m' = [])
     /\ forall t', get_endpoints_for_user t' u m' = (Raise ZeroDivisionError, m'))
  /\ (is_Some (user_counters m !! u) ->
      get_endpoints_for_user t u m = (Raise ZeroDivisionError, m)).
Proof.
  intros Hempty.
  assert (forall m0, rpc_urls m0 = [] \/ helius_api_keys m0 = [] ->
            is_Some (user_counters m0 !! u) ->
            forall t0, get_endpoints_for_user t0 u m0 = (Raise ZeroDivisionError, m0)) as Hknown.
  { intros m0 Hm0 [[i j] Hu] t0. unfold get_endpoints_for_user. unfold_monads. rewrite Hu.
    destruct Hm0 as [E|E]; rewrite E; cbn [length py_mod]; [reflexivity|].
    destruct (length (rpc_urls m0)); reflexivity. }
  split; [|intros Hu; apply Hknown; assumption].
  intros Hu. eexists.
  split; [|split; [|split]].
  - unfold get_endpoints_for_user. unfold_monads. rewrite Hu.
    cbn [set_user_counters set_last_used rpc_urls helius_api_keys user_counters last_used].
    unfold list_getitem.
    assert (forall l : list string, l = [] -> l !! _get_least_used_index m l = None) as Hnone.
    { intros l ->. reflexivity. }
    destruct Hempty as [E|E].
    + rewrite (Hnone _ E). reflexivity.
    + rewrite (Hnone _ E). destruct (rpc_urls m !! _) as [url|]; reflexivity.
  - cbn [set_user_counters set_last_used user_counters]. rewrite lookup_insert_eq. eauto.
  - exact Hempty.
  - intros t'. apply Hknown;
      cbn [set_user_counters set_last_used rpc_urls helius_api_keys user_counters];
      [exact Hempty|].
    rewrite lookup_insert_eq. eauto.
Qed.

Lemma get_endpoints_for_user_without_endpoints_witness :
  (ApiManager.user_counters no_rpc_endpoint !! 7 = None ->
   exists m',
     ApiManager.get_endpoints_for_user 1700000000%float 7 no_rpc_endpoint
     = (Raise IndexError, m')
     /\ is_Some (ApiManager.user_counters m' !! 7)
     /\ (ApiManager.rpc_urls m' = [] \/ ApiManager.helius_api_keys m' = [])
     /\ forall t', ApiManager.get_endpoints_for_user t' 7 m'
                   = (Raise ZeroDivisionError, m'))
  /\ (is_Some (ApiManager.user_counters no_rpc_endpoint !! 7) ->
      ApiManager.get_endpoints_for_user 1700000000%float 7 no_rpc_endpoint
      = (Raise ZeroDivisionError, no_rpc_endpoint)).
Proof. apply get_endpoints_for_user_without_endpoints. left. reflexivity. Defined.

Lemma endpoints_for_batch_run times :
  forall m u,
    rpc_urls m <> [] -> helius_api_keys m <> [] ->
    exists results m',
      endpoints_for_batch times u m = (Ok results, m')
      /\ length results = length times
      /\ rpc_urls m' = rpc_urls m /\ helius_api_keys m' = helius_api_keys m
      /\ forall k url key,
           results !! k = Some (url, key) ->
           rpc_urls m !! ((fst (next_indices m u) + k) mod length (rpc_urls m))%nat = Some url
           /\ helius_api_keys m
                !! ((snd (next_indices m u) + k) mod length (helius_api_keys m))%nat
              = Some key.
Proof.
  induction times as [|t rest IH]; intros m u Hr Hh.
  - exists [], m. do 4 (split; [reflexivity|]).
    intros k url key H. rewrite lookup_nil in H. discriminate.
  - destruct (get_endpoints_run m t u Hr Hh) as (url0 & key0 & Hurl & Hkey & Hrun).
    destruct (next_indices_lt m u Hr Hh) as [Hi Hj].
    set (m1 := {| rpc_urls := rpc_urls m; helius_api_keys := helius_api_keys m;
                  user_counters := _; last_used := _ |}) in Hrun.
    destruct (IH m1 u Hr Hh) as (results & m' & Hrest & Hlen & Hr' & Hh' & Hk).
    exists ((url0, key0) :: results), m'.
    split; [|split; [|split; [|split]]].
    + cbn [endpoints_for_batch]. unfold_monads. rewrite Hrun.
      unfold_monads. rewrite Hrest. reflexivity.
    + simpl. rewrite Hlen. reflexivity.
    + exact Hr'.
    + exact Hh'.
    + assert (next_indices m1 u
              = ((fst (next_indices m u) + 1) mod length (rpc_urls m),
                 (snd (next_indices m u) + 1) mod length (helius_api_keys m))%nat) as Hnext.
      { unfold next_indices at 1. subst m1. cbn [user_counters rpc_urls helius_api_keys].
        rewrite lookup_insert_eq. destruct (next_indices m u). reflexivity. }
      intros [|k] url key H.
      * injection H as <- <-. rewrite !Nat.add_0_r, !Nat.mod_small by assumption. auto.
      * cbn [lookup list_lookup] in H. destruct (Hk k url key H) as [H1 H2].
        rewrite Hnext in H1, H2. cbn [fst snd rpc_urls helius_api_keys m1] in H1, H2.
        rewrite Nat.Div0.add_mod_idemp_l in H1, H2.
        replace (fst (next_indices m u) + S k)%nat with (fst (next_indices m u) + 1 + k)%nat by lia.
        replace (snd (next_indices m u) + S k)%nat with (snd (next_indices m u) + 1 + k)%nat by lia.
        auto.
Qed.

(** X12: Consecutive calls for a user are given the endpoints in rotation: the
    call number [k] (counting from 0) returns the endpoints [k] places after
    those of the first call, cyclically in each list; no call raises. *)
Theorem endpoints_for_batch_rotates (m : APIManager) (times : list float) (u : Z) :
  rpc_urls m <> [] -> helius_api_keys m <> [] ->
  exists results m',
    endpoints_for_batch times u m = (Ok results, m')
    /\ length results = length times
    /\ forall k url key,
         results !! k = Some (url, key) ->
         rpc_urls m !! ((fst (next_indices m u) + k) mod length (rpc_urls m))%nat = Some url
         /\ helius_api_keys m
              !! ((snd (next_indices m u) + k) mod length (helius_api_keys m))%nat
            = Some key.
Proof.
  intros Hr Hh.
  destruct (endpoints_for_batch_run times m u Hr Hh) as (results & m' & H1 & H2 & _ & _ & H3).
  eauto.
Qed.

Lemma endpoints_for_batch_rotates_witness :
  exists results m',
    endpoints_for_batch [1700000000; 1700000060; 1700000120]%float 7 two_endpoints
    = (Ok results, m')
    /\ length results = length [1700000000; 1700000060; 1700000120]%float
    /\ forall k url key,
         results !! k = Some (url, key) ->
         rpc_urls two_endpoints
           !! ((fst (next_indices two_endpoints 7) + k) mod length (rpc_urls two_endpoints))%nat
         = Some url
         /\ helius_api_keys two_endpoints
              !! ((snd (next_indices two_endpoints 7) + k)
                  mod length (helius_api_keys two_endpoints))%nat
            = Some key.
Proof. apply endpoints_for_batch_rotates; discriminate. Defined.





Lemma rpc_key_inj (i j : nat) : "rpc_" +:+ pretty i = "rpc_" +:+ pretty j -> i = j.
Proof. intros H. apply (inj (String.app _)) in H. apply (inj pretty) in H. exact H. Qed.

Lemma usage_time_rpc m i :
  usage_time m (rpc_urls m) i = default 0%float (last_used m !! ("rpc_" +:+ pretty i)).
Proof.
  unfold usage_time, last_used_time, key_of. rewrite bool_decide_eq_true_2 by reflexivity.
  reflexivity.
Qed.

(** X15: Two users who arrive one after the other are not given the same RPC
    endpoint, when there are at least two and the clock has advanced past
    every recorded use: the first user's endpoint then carries the latest
    time and is not the least recently used for the second. *)
Theorem consecutive_users_get_different_endpoints (m : APIManager) (t1 t2 : float)
    (u1 u2 : Z) :
  (2 <= length (rpc_urls m))%nat -> helius_api_keys m <> [] ->
  u1 <> u2 -> user_counters m !! u1 = None -> user_counters m !! u2 = None ->
  (0 <? t1)%float = true ->
  (forall key t, last_used m !! key = Some t -> (t <? t1)%float = true) ->
  exists i1 j1 i2 j2 r1 r2 m1 m2,
    get_endpoints_for_user t1 u1 m = (Ok r1, m1)
    /\ get_endpoints_for_user t2 u2 m1 = (Ok r2, m2)
    /\ user_counters m2 !! u1 = Some (i1, j1)
    /\ user_counters m2 !! u2 = Some (i2, j2)
    /\ rpc_urls m !! i1 = Some (fst r1)
    /\ rpc_urls m !! i2 = Some (fst r2)
    /\ i1 <> i2.
Proof.
  intros Hlen Hh Hu Hu1 Hu2 Hpos Hold.
  assert (rpc_urls m <> []) as Hr by (intros E; rewrite E in Hlen; simpl in Hlen; lia).
  destruct (get_endpoints_run m t1 u1 Hr Hh) as (url1 & key1 & Hurl1 & _ & Hrun1).
  set (i1 := fst (next_indices m u1)) in *. set (j1 := snd (next_indices m u1)) in *.
  set (m1 := {| rpc_urls := rpc_urls m; helius_api_keys := helius_api_keys m;
                user_counters := _; last_used := _ |}) in Hrun1.
  destruct (get_endpoints_run m1 t2 u2 Hr Hh) as (url2 & key2 & Hurl2 & _ & Hrun2).
  assert (user_counters m1 !! u2 = None) as Hu2'.
  { subst m1. cbn [user_counters]. rewrite lookup_insert_ne by exact Hu. exact Hu2. }
  assert (next_indices m1 u2
          = (_get_least_used_index m1 (rpc_urls m1),
             _get_least_used_index m1 (helius_api_keys m1))) as Hnext.
  { unfold next_indices. rewrite Hu2'. reflexivity. }
  set (i2 := _get_least_used_index m1 (rpc_urls m1)) in *.
  exists i1, j1, i2, (snd (next_indices m1 u2)), (url1, key1), (url2, key2), m1. eexists.
  split; [exact Hrun1|]. split; [exact Hrun2|]. cbn [user_counters fst].
  split; [|split; [|split; [|split]]].
  - rewrite lookup_insert_ne by congruence. subst m1. cbn [user_counters].
    rewrite lookup_insert_eq. subst i1 j1. destruct (next_indices m u1); reflexivity.
  - rewrite lookup_insert_eq, Hnext. reflexivity.
  - exact Hurl1.
  - rewrite Hnext in Hurl2. exact Hurl2.
  - assert (forall key t, last_used m1 !! key = Some t -> PrimFloat.is_nan t = false) as Hnan.
    { intros key t. subst m1. cbn [last_used]. intros H.
      apply lookup_insert_Some in H as [[_ <-]|[_ H]]; [exact (ltb_not_nan_r _ _ Hpos)|].
      apply lookup_insert_Some in H as [[_ <-]|[_ H]]; [exact (ltb_not_nan_r _ _ Hpos)|].
      exact (ltb_not_nan_l _ _ (Hold _ _ H)). }
    destruct (least_used_index_spec m1 (rpc_urls m1) Hnan Hr) as (_ & Hmin & _).
    fold i2 in Hmin.
    assert (usage_time m1 (rpc_urls m1) i1 = t1) as E1.
    { rewrite usage_time_rpc. subst m1. cbn [last_used].
      rewrite lookup_insert_ne by discriminate. rewrite lookup_insert_eq. reflexivity. }
    assert (forall i, i <> i1 -> (usage_time m1 (rpc_urls m1) i <? t1)%float = true) as Eother.
    { intros i Hi. rewrite usage_time_rpc. subst m1. cbn [last_used].
      rewrite lookup_insert_ne by discriminate.
      rewrite lookup_insert_ne by (intros E; apply rpc_key_inj in E; congruence).
      destruct (last_used m !! ("rpc_" +:+ pretty i)) as [t|] eqn:E; [exact (Hold _ _ E)|].
      exact Hpos. }
    intros Heq. set (other := if decide (i1 = 0%nat) then 1%nat else 0%nat).
    assert (other <> i1 /\ other < length (rpc_urls m1))%nat as [Hne Hlt].
    { subst other m1. cbn [rpc_urls]. destruct (decide (i1 = 0%nat)); split; lia. }
    specialize (Hmin other Hlt). rewrite <- Heq, E1, (Eother other Hne) in Hmin. discriminate.
Qed.

Lemma consecutive_users_get_different_endpoints_witness :
  exists i1 j1 i2 j2 r1 r2 m1 m2,
    get_endpoints_for_user 1700000000%float 7 two_endpoints = (Ok r1, m1)
    /\ get_endpoints_for_user 1700000060%float 8 m1 = (Ok r2, m2)
    /\ user_counters m2 !! 7 = Some (i1, j1)
    /\ user_counters m2 !! 8 = Some (i2, j2)
    /\ rpc_urls two_endpoints !! i1 = Some (fst r1)
    /\ rpc_urls two_endpoints !! i2 = Some (fst r2)
    /\ i1 <> i2.
Proof.
  apply consecutive_users_get_different_endpoints;
    try reflexivity; try discriminate; try (simpl; lia).
Defined.

(** X16: [release_user] undoes the registration and nothing else: after a first
    call for a user and the user's release, the counters are those before
    the call, while the time stamps of the call stay; releasing a user who
    is not known changes nothing. *)
Theorem release_user_forgets (m : APIManager) (t : float) (u : Z) :
  rpc_urls m <> [] -> helius_api_keys m <> [] ->
  user_counters m !! u = None ->
  release_user u m = (Ok tt, m)
  /\ exists r m1 m2,
       get_endpoints_for_user t u m = (Ok r, m1)
       /\ release_user u m1 = (Ok tt, m2)
       /\ user_counters m2 = user_counters m
       /\ last_used m2 = last_used m1
       /\ last_used m1 !! ("rpc_" +:+ pretty (fst (next_indices m u))) = Some t.
Proof.
  intros Hr Hh Hu. split.
  - unfold release_user. unfold_monads. rewrite bool_decide_eq_false_2; [reflexivity|].
    rewrite Hu. intros [? ?]. discriminate.
  - destruct (get_endpoints_run m t u Hr Hh) as (url & key & _ & _ & Hrun).
    eexists _, _, _. split; [exact Hrun|].
    unfold release_user. unfold_monads. cbn [user_counters].
    rewrite bool_decide_eq_true_2 by (rewrite lookup_insert_eq; eauto).
    split; [reflexivity|]. cbn [set_user_counters user_counters last_used].
    split; [|split; [reflexivity|]].
    + rewrite delete_insert_eq. apply delete_id. exact Hu.
    + rewrite lookup_insert_ne by discriminate. apply lookup_insert_eq.
Qed.

Lemma release_user_forgets_witness :
  release_user 7 two_endpoints = (Ok tt, two_endpoints)
  /\ exists r m1 m2,
       get_endpoints_for_user 1700000000%float 7 two_endpoints = (Ok r, m1)
       /\ release_user 7 m1 = (Ok tt, m2)
       /\ user_counters m2 = user_counters two_endpoints
       /\ last_used m2 = last_used m1
       /\ last_used m1 !! ("rpc_" +:+ pretty (fst (next_indices two_endpoints 7)))
          = Some 1700000000%float.
Proof. apply release_user_forgets; [discriminate|discriminate|reflexivity]. Defined.

(** X17: The lists loaded at start-up always serve: when both files load, every
    batch of calls on a manager holding the loaded lists returns, and every
    endpoint handed out is a non-empty text. *)
Theorem loaded_endpoints_always_serve (h : Host) (m : APIManager) (times : list float)
    (u : Z) :
  load_api_endpoints h "RPC_URL.txt" = Ok (rpc_urls m) ->
  load_api_endpoints h "HELIUS_API_KEY.txt" = Ok (helius_api_keys m) ->
  exists results m',
    endpoints_for_batch times u m = (Ok results, m')
    /\ length results = length times
    /\ Forall (fun r => fst r <> "" /\ snd r <> "") results.
Proof.
  intros Hrpc Hkeys.
  destruct (load_api_endpoints_ok _ _ _ Hrpc) as [Hr Hr'].
  destruct (load_api_endpoints_ok _ _ _ Hkeys) as [Hh Hh'].
  destruct (endpoints_for_batch_run times m u Hr Hh) as (results & m' & H1 & H2 & _ & _ & H3).
  exists results, m'. split; [exact H1|]. split; [exact H2|].
  apply Forall_lookup. intros k [url key] Hk. destruct (H3 k url key Hk) as [Hu Hk'].
  cbn [fst snd]. split.
  - exact (proj1 (Forall_lookup _ _) Hr' _ _ Hu).
  - exact (proj1 (Forall_lookup _ _) Hh' _ _ Hk').
Qed.

Lemma loaded_endpoints_always_serve_witness :
  exists results m',
    endpoints_for_batch [1700000000; 1700000060]%float 7 two_endpoints = (Ok results, m')
    /\ length results = length [1700000000; 1700000060]%float
    /\ Forall (fun r => fst r <> "" /\ snd r <> "") results.
Proof.
  apply (loaded_endpoints_always_serve configured_host); vm_compute; reflexivity.
Defined.

(** ** The program logic *)

Lemma triple_conseq {S A} (P P' : S -> Prop) (c : stm S A) (Q Q' : A -> S -> Prop)
    (R R' : S -> Prop) :
  triple P' c Q' R' ->
  (forall s, P s -> P' s) -> (forall a s, Q' a s -> Q a s) -> (forall s, R' s -> R s) ->
  triple P c Q R.
Proof.
  intros H HP HQ HR s Hs. specialize (H s (HP s Hs)).
  destruct (c s) as [[a|e] s']; auto.
Qed.

Lemma triple_ret {S A} (P : S -> Prop) (a : A) (Q : A -> S -> Prop) (R : S -> Prop) :
  (forall s, P s -> Q a s) -> triple P (mret a) Q R.
Proof. intros H s Hs. apply H, Hs. Qed.

Lemma triple_bind {S A B} (P : S -> Prop) (m : stm S A) (f : A -> stm S B)
    (Q1 : A -> S -> Prop) (Q : B -> S -> Prop) (R : S -> Prop) :
  triple P m Q1 R -> (forall a, triple (Q1 a) (f a) Q R) -> triple P (m ≫= f) Q R.
Proof.
  intros Hm Hf s Hs. specialize (Hm s Hs). unfold mbind, stm_bind.
  destruct (m s) as [[a|e] s']; [apply Hf, Hm|exact Hm].
Qed.

Lemma triple_lift {S A} (P : S -> Prop) (r : outcome A) (Q : A -> S -> Prop) (R : S -> Prop) :
  (forall a s, r = Ok a -> P s -> Q a s) -> (forall e s, r = Raise e -> P s -> R s) ->
  triple P (lift r) Q R.
Proof. intros HQ HR s Hs. unfold lift. destruct r; eauto. Qed.

Lemma triple_modify {S} (P : S -> Prop) (f : S -> S) (Q : unit -> S -> Prop) (R : S -> Prop) :
  (forall s, P s -> Q tt (f s)) -> triple P (modify f) Q R.
Proof. intros H s Hs. apply H, Hs. Qed.

Lemma triple_get {S} (P : S -> Prop) (Q : S -> S -> Prop) (R : S -> Prop) :
  (forall s, P s -> Q s s) -> triple P get_state Q R.
Proof. intros H s Hs. apply H, Hs. Qed.

Lemma triple_try {S A} (P : S -> Prop) (body : stm S A) (handler : exn -> stm S A)
    (Q : A -> S -> Prop) (R' R : S -> Prop) :
  triple P body Q R' -> (forall e, triple R' (handler e) Q R) ->
  triple P (try_except body handler) Q R.
Proof.
  intros Hb Hh s Hs. specialize (Hb s Hs). unfold try_except.
  destruct (body s) as [[a|e] s']; [exact Hb|apply Hh, Hb].
Qed.







Lemma preserves_ret {S A} (I : S -> Prop) (a : A) : preserves I (mret a : stm S A).
Proof. apply triple_ret. auto. Qed.

Lemma preserves_bind {S A B} (I : S -> Prop) (m : stm S A) (f : A -> stm S B) :
  preserves I m -> (forall a, preserves I (f a)) -> preserves I (m ≫= f).
Proof. intros Hm Hf. eapply triple_bind; [exact Hm|exact Hf]. Qed.

Lemma preserves_lift {S A} (I : S -> Prop) (r : outcome A) : preserves I (lift r : stm S A).
Proof. apply triple_lift; auto. Qed.

Lemma preserves_get {S} (I : S -> Prop) : preserves I (get_state : stm S S).
Proof. apply triple_get. auto. Qed.

Lemma preserves_modify {S} (I : S -> Prop) (f : S -> S) :
  (forall s, I s -> I (f s)) -> preserves I (modify f).
Proof. intros H. apply triple_modify. exact H. Qed.

Lemma preserves_try {S A} (I : S -> Prop) (body : stm S A) (handler : exn -> stm S A) :
  preserves I body -> (forall e, preserves I (handler e)) ->
  preserves I (try_except body handler).
Proof. intros Hb Hh. eapply triple_try; [exact Hb|exact Hh]. Qed.

(** A statement that keeps [I] and is followed, whether it returns or
    raises, by statements that do not raise and lead to [Q], as in
    [try: body; end  except Exception: end']. *)
Lemma returns_try {S A} (I Q : S -> Prop) (body : stm S A) (handler : exn -> stm S A) :
  triple I body (fun _ => Q) I -> (forall e, returns I (handler e) Q) ->
  returns I (try_except body handler) Q.
Proof. intros Hb Hh. eapply triple_try; [exact Hb|exact Hh]. Qed.

Lemma returns_bind {S A B} (P Q1 Q : S -> Prop) (m : stm S A) (f : A -> stm S B) :
  returns P m Q1 -> (forall a, returns Q1 (f a) Q) -> returns P (m ≫= f) Q.
Proof. intros Hm Hf. eapply triple_bind; [exact Hm|exact Hf]. Qed.

Lemma returns_modify {S} (P Q : S -> Prop) (f : S -> S) :
  (forall s, P s -> Q (f s)) -> returns P (modify f) Q.
Proof. intros H. apply triple_modify. exact H. Qed.

Lemma returns_ret {S A} (P Q : S -> Prop) (a : A) :
  (forall s, P s -> Q s) -> returns P (mret a : stm S A) Q.
Proof. intros H. apply triple_ret. exact H. Qed.


(** The steps of a proof that a statement keeps an invariant; [side] solves
    the conditions on the state changes. *)
Ltac preserves_with side :=
  repeat
    (cbn beta;
     lazymatch goal with
     | |- preserves _ (mbind _ _) => apply preserves_bind; [|intros ?]
     | |- preserves _ (mret _) => apply preserves_ret
     | |- preserves _ (lift _) => apply preserves_lift
     | |- preserves _ get_state => apply preserves_get
     | |- preserves _ (try_except _ _) => apply preserves_try; [|intros ?]
     | |- preserves _ (modify _) => apply preserves_modify; side
     | |- preserves _ (Bot.task _ _) => apply preserves_modify; side
     | |- preserves _ Bot.update_progress => apply preserves_ret
     | |- preserves _ (match ?x with _ => _ end) => destruct x
     | |- preserves _ (if ?x then _ else _) => destruct x
     | |- preserves _ (let '(_, _) := ?x in _) => destruct x
     end).


(** ** What the stages of the bots do to the processor *)

Lemma tasks_settled_fields names p p' :
  Bot.tasks p' = Bot.tasks p -> tasks_settled names p -> tasks_settled names p'.
Proof. unfold tasks_settled, settled. intros ->. auto. Qed.

Lemma tasks_settled_task names name f p :
  ~ In name names ->
  tasks_settled names p -> tasks_settled names (Bot.set_tasks (alter f name) p).
Proof.
  intros Hn [Hall Hset]. split.
  - intros n Hin. cbn [Bot.set_tasks Bot.tasks]. apply lookup_alter_is_Some, Hall, Hin.
  - intros n Hin. destruct (Hset n Hin) as (t & Ht & Hs). exists t. split; [|exact Hs].
    cbn [Bot.set_tasks Bot.tasks]. rewrite lookup_alter_ne; [exact Ht|]. intros ->. contradiction.
Qed.

Lemma tasks_settled_end names name f p :
  In name Bot.task_names ->
  (forall t, Bot.status (f t) = "completed"%string \/ Bot.status (f t) = "failed"%string) ->
  ~ In name names ->
  tasks_settled names p -> tasks_settled (name :: names) (Bot.set_tasks (alter f name) p).
Proof.
  intros Hname Hf Hn H. pose proof (tasks_settled_task names name f p Hn H) as [Hall Hset].
  split; [exact Hall|]. intros n [<-|Hin]; [|apply Hset, Hin].
  destruct H as [Hall0 _]. destruct (Hall0 name Hname) as [t Ht].
  exists (f t). split; [|apply Hf]. cbn [Bot.set_tasks Bot.tasks].
  rewrite lookup_alter_eq, Ht. reflexivity.
Qed.

Ltac settled_side :=
  intros ? ?;
  first [ apply tasks_settled_task; [simpl; intuition discriminate|assumption]
        | eapply tasks_settled_fields; [|eassumption]; reflexivity ].

Section Loops.

Variable w : World.
Variable I : Bot.WalletProcessor -> Prop.

Lemma filter_loop_preserves l :
  (forall f p, I p -> I (Bot.set_meteora_transactions f p)) ->
  (forall f p, I p -> I (Bot.set_tasks (alter f "filter_meteora_transactions"%string) p)) ->
  forall index, preserves I (Bot.filter_loop w l index).
Proof.
  intros Hset Htask. induction l as [|record rest IH]; intros index; cbn [Bot.filter_loop].
  - apply preserves_ret.
  - apply preserves_bind; [|intros ?; apply preserves_bind; [|intros ?; apply IH]];
      preserves_with ltac:(intros ? ?; first [apply Htask; assumption|apply Hset; assumption]).
Qed.

Lemma extract_loop_preserves l :
  (forall f p, I p -> I (Bot.set_tasks (alter f "extract_pool_address"%string) p)) ->
  forall index unique, preserves I (Bot.extract_loop w l index unique).
Proof.
  intros Htask. induction l as [|[sig ts] rest IH]; intros index unique;
    cbn [Bot.extract_loop].
  - apply preserves_ret.
  - cbn zeta. apply preserves_bind; [|intros ?; apply IH].
    preserves_with ltac:(intros ? ?; apply Htask; assumption).
Qed.

Lemma fees_loop_preserves l :
  (forall fees p, I p -> I (Bot.set_result (add_fees fees) p)) ->
  (forall f p, I p -> I (Bot.set_tasks (alter f "get_pool_fees"%string) p)) ->
  forall index, preserves I (Bot.fees_loop w l index).
Proof.
  intros Hset Htask. induction l as [|pool rest IH]; intros index; cbn [Bot.fees_loop].
  - apply preserves_ret.
  - apply preserves_bind;
      [|intros ?; apply preserves_bind;
          [|intros ?; apply preserves_bind; [|intros ?; apply IH]]];
      preserves_with ltac:(intros ? ?; first [apply Htask; assumption|apply Hset; assumption]).
Qed.

End Loops.

Section Stages.

Variable w : World.
Variable names : list string.

Lemma filter_loop_settled l :
  ~ In "filter_meteora_transactions"%string names ->
  forall index, preserves (tasks_settled names) (Bot.filter_loop w l index).
Proof.
  intros Hn. apply (filter_loop_preserves w (tasks_settled names)).
  - intros f p. apply tasks_settled_fields. reflexivity.
  - intros f p. apply tasks_settled_task, Hn.
Qed.

Lemma extract_loop_settled l :
  ~ In "extract_pool_address"%string names ->
  forall index unique, preserves (tasks_settled names) (Bot.extract_loop w l index unique).
Proof.
  intros Hn. apply (extract_loop_preserves w (tasks_settled names)).
  intros f p. apply tasks_settled_task, Hn.
Qed.

Lemma fees_loop_settled l :
  ~ In "get_pool_fees"%string names ->
  forall index, preserves (tasks_settled names) (Bot.fees_loop w l index).
Proof.
  intros Hn. apply (fees_loop_preserves w (tasks_settled names)).
  - intros f p. apply tasks_settled_fields. reflexivity.
  - intros f p. apply tasks_settled_task, Hn.
Qed.

End Stages.

Ltac settled_end :=
  intros ? ?;
  apply tasks_settled_end;
    [simpl; tauto
    |intros ?; first [left; reflexivity|right; reflexivity]
    |simpl; intuition discriminate
    |assumption].

(** A block that keeps the invariant until its last statement, which ends
    the task. *)
Ltac ends_task :=
  unfold returns; cbn beta zeta;
  lazymatch goal with
  | |- triple ?I (mbind ?f (Bot.task ?n Bot.complete)) ?Q ?R =>
      apply (triple_bind I (Bot.task n Bot.complete) f Q _ R);
        [apply triple_modify; settled_end|intros ?; apply triple_ret; auto]
  | |- triple ?I (mbind ?f (Bot.task ?n Bot.fail)) ?Q ?R =>
      apply (triple_bind I (Bot.task n Bot.fail) f Q _ R);
        [apply triple_modify; settled_end|intros ?; apply triple_ret; auto]
  | |- triple _ (Bot.task _ Bot.complete) _ _ => apply triple_modify; settled_end
  | |- triple _ (Bot.task _ Bot.fail) _ _ => apply triple_modify; settled_end
  | |- triple ?I (mbind ?f ?m) _ _ =>
      apply (triple_bind I m f (fun _ => I));
        [change (preserves I m); preserves_with settled_side|intros ?; ends_task]
  | |- triple _ (match ?x with _ => _ end) _ _ => destruct x; ends_task
  end.

(** A stage: statements that keep the invariant, then the [try] whose two
    ways out end the task, then the progress update. *)
Ltac stage_returns :=
  cbn beta zeta;
  lazymatch goal with
  | |- returns _ (try_except _ _) _ => apply returns_try; [ends_task|intros ?; ends_task]
  | |- returns ?I (mbind ?f (try_except ?b ?h)) ?Q =>
      apply (returns_bind I Q Q (try_except b h) f);
        [apply returns_try; [ends_task|intros ?; ends_task]
        |intros ?; apply returns_ret; auto]
  | |- returns ?I (mbind ?f get_state) _ =>
      apply (returns_bind I I _ get_state f);
        [apply triple_get; auto|intros ?; stage_returns]
  | |- returns ?I (mbind ?f ?m) _ =>
      apply (returns_bind I I _ m f);
        [apply returns_modify; settled_side|intros ?; stage_returns]
  end.

Section StagesReturn.

Variable w : World.
Variable names : list string.

Lemma check_blacklist_settled bl :
  ~ In "check_blacklist"%string names ->
  returns (tasks_settled names) (Bot.check_blacklist bl)
    (tasks_settled ("check_blacklist"%string :: names)).
Proof. intros Hn. unfold Bot.check_blacklist. stage_returns. Qed.

Lemma get_transactions_settled :
  ~ In "get_transactions"%string names ->
  returns (tasks_settled names) (Bot.get_transactions w)
    (tasks_settled ("get_transactions"%string :: names)).
Proof. intros Hn. unfold Bot.get_transactions. stage_returns. Qed.

Lemma filter_meteora_transactions_settled :
  ~ In "filter_meteora_transactions"%string names ->
  returns (tasks_settled names) (Bot.filter_meteora_transactions w)
    (tasks_settled ("filter_meteora_transactions"%string :: names)).
Proof.
  intros Hn. unfold Bot.filter_meteora_transactions.
  stage_returns. apply (filter_loop_settled w names _ Hn).
Qed.

Lemma process_timestamps_settled :
  ~ In "process_timestamps"%string names ->
  returns (tasks_settled names) Bot.process_timestamps
    (tasks_settled ("process_timestamps"%string :: names)).
Proof. intros Hn. unfold Bot.process_timestamps. stage_returns. Qed.

Lemma calculate_activity_metrics_settled :
  ~ In "calculate_activity_metrics"%string names ->
  returns (tasks_settled names) Bot.calculate_activity_metrics
    (tasks_settled ("calculate_activity_metrics"%string :: names)).
Proof. intros Hn. unfold Bot.calculate_activity_metrics. stage_returns. Qed.

Lemma extract_pool_addresses_settled :
  ~ In "extract_pool_address"%string names ->
  returns (tasks_settled names) (Bot.extract_pool_addresses w)
    (tasks_settled ("extract_pool_address"%string :: names)).
Proof.
  intros Hn. unfold Bot.extract_pool_addresses.
  stage_returns. apply (extract_loop_settled w names _ Hn).
Qed.

Lemma get_pool_fees_settled :
  ~ In "get_pool_fees"%string names ->
  returns (tasks_settled names) (Bot.get_pool_fees w)
    (tasks_settled ("get_pool_fees"%string :: names)).
Proof.
  intros Hn. unfold Bot.get_pool_fees.
  stage_returns. apply (fees_loop_settled w names _ Hn).
Qed.

Lemma v1_check_cnft_settled :
  ~ In "check_cnft"%string names ->
  returns (tasks_settled names) (BotV1.check_cnft w)
    (tasks_settled ("check_cnft"%string :: names)).
Proof. intros Hn. unfold BotV1.check_cnft. stage_returns. Qed.

End StagesReturn.

Lemma cnft_loop_settled w names remaining :
  ~ In "check_cnft"%string names ->
  forall retry_count,
    triple (tasks_settled names) (Bot.cnft_loop w remaining retry_count)
      (fun r p => if fst r then tasks_settled ("check_cnft"%string :: names) p
                  else tasks_settled names p)
      (fun _ => True).
Proof.
  intros Hn. induction remaining as [|remaining IH]; intros retry_count; cbn [Bot.cnft_loop].
  - apply triple_ret. auto.
  - apply (triple_bind _ _ _ (fun _ => tasks_settled names)); [apply triple_get; auto|intros p].
    apply (triple_bind _ _ _ (fun _ => tasks_settled names)); [apply triple_lift; auto|intros r].
    destruct r.
    + apply (triple_bind _ _ _ (fun _ => tasks_settled names));
        [apply triple_modify; settled_side|intros ?].
      apply (triple_bind _ _ _ (fun _ => tasks_settled ("check_cnft"%string :: names)));
        [apply triple_modify; settled_end|intros ?].
      apply (triple_bind _ _ _ (fun _ => tasks_settled ("check_cnft"%string :: names)));
        [apply triple_ret; auto|intros ?].
      apply triple_ret. auto.
    + apply triple_ret. auto.
    + apply IH.
Qed.

Lemma v3_check_cnft_settled w names :
  ~ In "check_cnft"%string names ->
  triple (tasks_settled names) (Bot.check_cnft w)
    (fun _ => tasks_settled ("check_cnft"%string :: names)) (fun _ => True).
Proof.
  intros Hn. unfold Bot.check_cnft.
  apply (triple_bind _ _ _ (fun _ => tasks_settled names));
    [apply triple_modify; settled_side|intros ?].
  apply (triple_bind _ _ _ (fun _ => tasks_settled names));
    [apply triple_modify; settled_side|intros ?].
  eapply triple_bind; [apply (cnft_loop_settled w names _ Hn)|intros [returned retry_count]].
  cbn [fst]. destruct returned.
  - apply triple_ret. auto.
  - apply (triple_bind _ _ _ (fun _ => tasks_settled ("check_cnft"%string :: names)));
      [|intros ?; apply triple_ret; auto].
    apply triple_modify. destruct (_ <? _)%nat; settled_end.
Qed.

Lemma new_processor_tasks address : tasks_settled [] (Bot.new_processor address).
Proof.
  split; [|intros name []]. intros name Hin. cbn in Hin.
  repeat (destruct Hin as [<-|Hin]; [vm_compute; eauto|]). contradiction.
Qed.

Lemma returns_then {S A B} (P Q1 Q : S -> Prop) (m : stm S A) (k : stm S B) :
  returns P m Q1 -> returns Q1 k Q -> returns P (m ≫= fun _ => k) Q.
Proof. intros Hm Hk. apply (returns_bind P Q1 Q); [exact Hm|intros _; exact Hk]. Qed.

Lemma triple_then {S A B} (P Q1 : S -> Prop) (Q : B -> S -> Prop) (R : S -> Prop)
    (m : stm S A) (k : stm S B) :
  triple P m (fun _ => Q1) R -> triple Q1 k Q R -> triple P (m ≫= fun _ => k) Q R.
Proof. intros Hm Hk. apply (triple_bind P m _ (fun _ => Q1)); [exact Hm|intros _; exact Hk]. Qed.

Ltac not_in_names := simpl; intuition discriminate.

(** The stages from [get_transactions] on, with the final read of the
    result: they return, and their six tasks have ended. *)
Lemma later_stages_return w names :
  (forall name, In name names ->
     ~ In name ["get_transactions"; "filter_meteora_transactions"; "process_timestamps";
                "calculate_activity_metrics"; "extract_pool_address";
                "get_pool_fees"]%string) ->
  returns (tasks_settled names)
    (Bot.get_transactions w;;
     Bot.filter_meteora_transactions w;;
     Bot.process_timestamps;;
     Bot.calculate_activity_metrics;;
     Bot.extract_pool_addresses w;;
     Bot.get_pool_fees w;;
     p ← get_state;
     mret (Bot.result p))
    (tasks_settled
       (["get_pool_fees"; "extract_pool_address"; "calculate_activity_metrics";
         "process_timestamps"; "filter_meteora_transactions"; "get_transactions"]%string
        ++ names)).
Proof.
  intros Hn.
  assert (forall name rest, In name ["get_transactions"; "filter_meteora_transactions";
                                     "process_timestamps"; "calculate_activity_metrics";
                                     "extract_pool_address"; "get_pool_fees"]%string ->
                            ~ In name rest -> ~ In name (rest ++ names)) as Hfresh.
  { intros name rest Hin Hrest Happ. apply in_app_or in Happ as [?|Hin']; [tauto|].
    exact (Hn _ Hin' Hin). }
  eapply returns_then;
    [apply (get_transactions_settled w names);
     apply (Hfresh _ []); simpl; intuition discriminate|].
  eapply returns_then;
    [apply (filter_meteora_transactions_settled w (["get_transactions"%string] ++ names));
     apply Hfresh; simpl; intuition discriminate|].
  eapply returns_then;
    [apply (process_timestamps_settled
              (["filter_meteora_transactions"; "get_transactions"]%string ++ names));
     apply Hfresh; simpl; intuition discriminate|].
  eapply returns_then;
    [apply (calculate_activity_metrics_settled
              (["process_timestamps"; "filter_meteora_transactions";
                "get_transactions"]%string ++ names));
     apply Hfresh; simpl; intuition discriminate|].
  eapply returns_then;
    [apply (extract_pool_addresses_settled w
              (["calculate_activity_metrics"; "process_timestamps";
                "filter_meteora_transactions"; "get_transactions"]%string ++ names));
     apply Hfresh; simpl; intuition discriminate|].
  eapply returns_then;
    [apply (get_pool_fees_settled w
              (["extract_pool_address"; "calculate_activity_metrics"; "process_timestamps";
                "filter_meteora_transactions"; "get_transactions"]%string ++ names));
     apply Hfresh; simpl; intuition discriminate|].
  eapply returns_bind; [apply triple_get; intros s Hs; exact Hs|intros p].
  apply returns_ret. auto.
Qed.

Lemma all_tasks_settled p :
  tasks_settled
    (["get_pool_fees"; "extract_pool_address"; "calculate_activity_metrics";
      "process_timestamps"; "filter_meteora_transactions"; "get_transactions"]%string
     ++ ["check_cnft"; "check_blacklist"]%string) p ->
  forall name, In name Bot.task_names -> settled name p.
Proof. intros [_ H] name Hin. apply H. simpl in *. tauto. Qed.

Lemma first_names_fresh :
  forall name, In name ["check_cnft"; "check_blacklist"]%string ->
    ~ In name ["get_transactions"; "filter_meteora_transactions"; "process_timestamps";
               "calculate_activity_metrics"; "extract_pool_address";
               "get_pool_fees"]%string.
Proof. simpl. intuition (subst; discriminate). Qed.

(** ** The address and the blacklist flag of the record *)

Lemma triple_and {S A} (P P' : S -> Prop) (c : stm S A) (Q Q' : A -> S -> Prop)
    (R R' : S -> Prop) :
  triple P c Q R -> triple P' c Q' R' ->
  triple (fun s => P s /\ P' s) c (fun a s => Q a s /\ Q' a s) (fun s => R s /\ R' s).
Proof.
  intros H H' s [Hs Hs']. specialize (H s Hs). specialize (H' s Hs').
  destruct (c s) as [[a|e] s']; auto.
Qed.

Lemma record_for_fields address b p p' :
  Bot.wallet_address p' = Bot.wallet_address p ->
  wallet (Bot.result p') = wallet (Bot.result p) ->
  blacklist (Bot.result p') = blacklist (Bot.result p) ->
  record_for address b p -> record_for address b p'.
Proof. unfold record_for. intros -> -> ->. auto. Qed.

Ltac record_side :=
  intros ? ?; eapply record_for_fields; [..|eassumption]; reflexivity.

Section Record.

Variable w : World.
Variable address : string.
Variable b : bool.

Lemma check_blacklist_record bl :
  triple (fun p => Bot.wallet_address p = address /\ wallet (Bot.result p) = address)
    (Bot.check_blacklist bl)
    (fun _ => record_for address (bool_decide (address ∈ bl))) (fun _ => False).
Proof.
  unfold Bot.check_blacklist.
  apply (triple_then _ (fun p => Bot.wallet_address p = address
                                 /\ wallet (Bot.result p) = address)).
  { apply triple_modify. auto. }
  apply (triple_then _ (record_for address (bool_decide (address ∈ bl))));
    [|apply triple_ret; auto].
  apply (triple_try _ _ _ _ (fun _ => False)); [|intros e s []].
  apply (triple_bind _ _ _ (fun p0 p => p = p0 /\ Bot.wallet_address p = address
                                        /\ wallet (Bot.result p) = address)).
  { apply triple_get. auto. }
  intros p0.
  apply (triple_then _ (record_for address (bool_decide (address ∈ bl)))).
  - apply triple_modify. intros s (-> & Ha & Hw). unfold record_for. cbn. rewrite Ha. auto.
  - apply triple_modify. record_side.
Qed.

Lemma get_transactions_record : preserves (record_for address b) (Bot.get_transactions w).
Proof. unfold Bot.get_transactions. preserves_with record_side. Qed.

Lemma filter_meteora_transactions_record :
  preserves (record_for address b) (Bot.filter_meteora_transactions w).
Proof.
  unfold Bot.filter_meteora_transactions. preserves_with record_side.
  apply (filter_loop_preserves w (record_for address b)); intros f; record_side.
Qed.

Lemma process_timestamps_record : preserves (record_for address b) Bot.process_timestamps.
Proof. unfold Bot.process_timestamps. preserves_with record_side. Qed.

Lemma calculate_activity_metrics_record :
  preserves (record_for address b) Bot.calculate_activity_metrics.
Proof. unfold Bot.calculate_activity_metrics. preserves_with record_side. Qed.

Lemma extract_pool_addresses_record :
  preserves (record_for address b) (Bot.extract_pool_addresses w).
Proof.
  unfold Bot.extract_pool_addresses. preserves_with record_side.
  apply (extract_loop_preserves w (record_for address b)). intros f. record_side.
Qed.

Lemma get_pool_fees_record : preserves (record_for address b) (Bot.get_pool_fees w).
Proof.
  unfold Bot.get_pool_fees. preserves_with record_side.
  apply (fees_loop_preserves w (record_for address b)); intros f; record_side.
Qed.

Lemma v1_check_cnft_record : preserves (record_for address b) (BotV1.check_cnft w).
Proof. unfold BotV1.check_cnft. preserves_with record_side. Qed.

Lemma cnft_loop_record remaining :
  forall retry_count, preserves (record_for address b) (Bot.cnft_loop w remaining retry_count).
Proof.
  induction remaining as [|remaining IH]; intros retry_count; cbn [Bot.cnft_loop].
  - apply preserves_ret.
  - apply preserves_bind; [apply preserves_get|intros p].
    apply preserves_bind; [apply preserves_lift|intros r].
    destruct r; [preserves_with record_side|apply preserves_ret|apply IH].
Qed.

Lemma v3_check_cnft_record : preserves (record_for address b) (Bot.check_cnft w).
Proof.
  unfold Bot.check_cnft.
  apply preserves_bind; [preserves_with record_side|intros ?].
  apply preserves_bind; [preserves_with record_side|intros ?].
  apply preserves_bind; [apply cnft_loop_record|intros [returned retry_count]].
  preserves_with record_side.
Qed.

Lemma later_stages_record :
  triple (record_for address b)
    (Bot.get_transactions w;;
     Bot.filter_meteora_transactions w;;
     Bot.process_timestamps;;
     Bot.calculate_activity_metrics;;
     Bot.extract_pool_addresses w;;
     Bot.get_pool_fees w;;
     p ← get_state;
     mret (Bot.result p))
    (fun r _ => wallet r = address /\ blacklist r = b) (fun _ => True).
Proof.
  apply (triple_then _ (record_for address b));
    [eapply triple_conseq; [apply get_transactions_record|auto..]|].
  apply (triple_then _ (record_for address b));
    [eapply triple_conseq; [apply filter_meteora_transactions_record|auto..]|].
  apply (triple_then _ (record_for address b));
    [eapply triple_conseq; [apply process_timestamps_record|auto..]|].
  apply (triple_then _ (record_for address b));
    [eapply triple_conseq; [apply calculate_activity_metrics_record|auto..]|].
  apply (triple_then _ (record_for address b));
    [eapply triple_conseq; [apply extract_pool_addresses_record|auto..]|].
  apply (triple_then _ (record_for address b));
    [eapply triple_conseq; [apply get_pool_fees_record|auto..]|].
  apply (triple_bind _ _ _ (fun p0 p => p = p0 /\ record_for address b p)).
  { apply triple_get. auto. }
  intros p0. apply triple_ret. intros s (-> & _ & Hw & Hb). auto.
Qed.

End Record.

Lemma new_processor_record address :
  Bot.wallet_address (Bot.new_processor address) = address
  /\ wallet (Bot.result (Bot.new_processor address)) = address.
Proof. split; reflexivity. Qed.

Lemma bot_v1_process_run (w : World) (bl : gset string) (address : string) :
  exists r p,
    BotV1.process_stages w bl (Bot.new_processor address) = (Ok r, p)
    /\ BotV1.process w bl address = Ok r
    /\ wallet r = address
    /\ blacklist r = bool_decide (address ∈ bl)
    /\ forall name, In name Bot.task_names -> settled name p.
Proof.
  assert (triple (fun p => tasks_settled [] p
                           /\ Bot.wallet_address p = address
                           /\ wallet (Bot.result p) = address)
            (BotV1.process_stages w bl)
            (fun r p => tasks_settled
                          (["get_pool_fees"; "extract_pool_address";
                            "calculate_activity_metrics"; "process_timestamps";
                            "filter_meteora_transactions"; "get_transactions"]%string
                           ++ ["check_cnft"; "check_blacklist"]%string) p
                        /\ wallet r = address /\ blacklist r = bool_decide (address ∈ bl))
            (fun _ => False)) as H.
  { unfold BotV1.process_stages.
    pose proof (check_blacklist_settled [] bl ltac:(not_in_names)) as S1.
    pose proof (v1_check_cnft_settled w ["check_blacklist"%string] ltac:(not_in_names)) as S2.
    pose proof (later_stages_return w _ first_names_fresh) as S3.
    unfold returns in S1, S2, S3.
    apply (triple_then _ (fun p => tasks_settled ["check_blacklist"%string] p
                                   /\ record_for address (bool_decide (address ∈ bl)) p)).
    { eapply triple_conseq;
        [apply (triple_and _ _ _ _ _ _ _ S1 (check_blacklist_record address bl))|..];
        cbn beta; tauto. }
    apply (triple_then _ (fun p => tasks_settled ["check_cnft"; "check_blacklist"]%string p
                                   /\ record_for address (bool_decide (address ∈ bl)) p)).
    { eapply triple_conseq;
        [apply (triple_and _ _ _ _ _ _ _ S2 (v1_check_cnft_record w address (bool_decide (address ∈ bl))))|..];
        cbn beta; tauto. }
    eapply triple_conseq;
      [apply (triple_and _ _ _ _ _ _ _ S3 (later_stages_record w address (bool_decide (address ∈ bl))))|..];
      cbn beta; tauto. }
  specialize (H (Bot.new_processor address)
                (conj (new_processor_tasks address) (new_processor_record address))).
  unfold BotV1.process.
  destruct (BotV1.process_stages w bl (Bot.new_processor address)) as [[r|e] p];
    [|contradiction].
  exists r, p. cbn [fst]. destruct H as (Hs & Hw & Hb).
  repeat split; try assumption. apply all_tasks_settled, Hs.
Qed.

(** X18: [process] of the first bot returns for every wallet and every behaviour
    of the network: no exception leaves it.  The record carries the address
    and the blacklist flag, and each of the eight tasks has ended
    ([completed] or [failed]). *)
Theorem bot_v1_process_returns (w : World) (bl : gset string) (address : string) :
  exists r p,
    BotV1.process_stages w bl (Bot.new_processor address) = (Ok r, p)
    /\ BotV1.process w bl address = Ok r
    /\ wallet r = address
    /\ blacklist r = bool_decide (address ∈ bl)
    /\ forall name, In name Bot.task_names -> settled name p.
Proof. apply bot_v1_process_run. Qed.

(** X19: When [process] of the third bot returns, the record carries the
    address and the blacklist flag, and each of the eight tasks has ended:
    its status is [completed] or [failed], never [idle] or [running]. *)
Theorem bot_process_settles_tasks (w : World) (bl : gset string) (address : string)
    (r : WalletMetrics) :
  Bot.process w bl address = Ok r ->
  wallet r = address
  /\ blacklist r = bool_decide (address ∈ bl)
  /\ forall name, In name Bot.task_names ->
       settled name (snd (Bot.process_stages w bl (Bot.new_processor address))).
Proof.
  intros Hrun.
  assert (triple (fun p => tasks_settled [] p
                           /\ Bot.wallet_address p = address
                           /\ wallet (Bot.result p) = address)
            (Bot.process_stages w bl)
            (fun r p => tasks_settled
                          (["get_pool_fees"; "extract_pool_address";
                            "calculate_activity_metrics"; "process_timestamps";
                            "filter_meteora_transactions"; "get_transactions"]%string
                           ++ ["check_cnft"; "check_blacklist"]%string) p
                        /\ wallet r = address /\ blacklist r = bool_decide (address ∈ bl))
            (fun _ => True)) as H.
  { unfold Bot.process_stages.
    pose proof (check_blacklist_settled [] bl ltac:(not_in_names)) as S1.
    pose proof (v3_check_cnft_settled w ["check_blacklist"%string] ltac:(not_in_names)) as S2.
    pose proof (later_stages_return w _ first_names_fresh) as S3.
    pose proof (v3_check_cnft_record w address (bool_decide (address ∈ bl))) as R2.
    unfold returns in S1, S3. unfold preserves in R2.
    apply (triple_then _ (fun p => tasks_settled ["check_blacklist"%string] p
                                   /\ record_for address (bool_decide (address ∈ bl)) p)).
    { eapply triple_conseq;
        [apply (triple_and _ _ _ _ _ _ _ S1 (check_blacklist_record address bl))|..];
        cbn beta; tauto. }
    apply (triple_then _ (fun p => tasks_settled ["check_cnft"; "check_blacklist"]%string p
                                   /\ record_for address (bool_decide (address ∈ bl)) p)).
    { eapply triple_conseq; [apply (triple_and _ _ _ _ _ _ _ S2 R2)|..]; cbn beta; tauto. }
    eapply triple_conseq;
      [apply (triple_and _ _ _ _ _ _ _ S3
                (later_stages_record w address (bool_decide (address ∈ bl))))|..];
      cbn beta; tauto. }
  specialize (H (Bot.new_processor address)
                (conj (new_processor_tasks address) (new_processor_record address))).
  unfold Bot.process in Hrun.
  destruct (Bot.process_stages w bl (Bot.new_processor address)) as [[r'|e] p];
    cbn [fst snd] in *; [|discriminate].
  injection Hrun as ->. destruct H as (Hs & Hw & Hb).
  repeat split; try assumption. apply all_tasks_settled, Hs.
Qed.

Lemma bot_process_settles_tasks_witness :
  wallet {| wallet := "7wallet"; total_fees := 5.02%float; pools_with_fees := 2%nat;
            first_tx := "15.04.2022"; active_weeks := 2%nat; active_months := 2%nat;
            cnft := true; blacklist := true |} = "7wallet"%string
  /\ blacklist {| wallet := "7wallet"; total_fees := 5.02%float; pools_with_fees := 2%nat;
                  first_tx := "15.04.2022"; active_weeks := 2%nat; active_months := 2%nat;
                  cnft := true; blacklist := true |}
     = bool_decide ("7wallet"%string ∈ ({[ "7wallet"%string ]} : gset string))
  /\ forall name, In name Bot.task_names ->
       settled name
         (snd (Bot.process_stages active_wallet {[ "7wallet"%string ]}
                 (Bot.new_processor "7wallet"))).
Proof.
  apply (bot_process_settles_tasks active_wallet {[ "7wallet"%string ]} "7wallet").
  vm_compute. reflexivity.
Defined.

(** ** The two bots differ in the certificate check only *)





Section Frame.

Variable w : World.
Variable b : bool.
Variable f : Bot.TaskProgress -> Bot.TaskProgress.











End Frame.























(** The order shows in the total: the same three fees give two totals in two
    processes, in the command-line tool and between the two bots. *)
Example the_order_of_the_pools_shows_in_the_total :
  (total_fees <$> option_of (Cli.process_wallet three_small_fees "7wallet" ∅))
  = Some (0.1 + 0.2 + 0.3)%float
  /\ (total_fees
        <$> option_of (Cli.process_wallet (with_pool_order reverse_order three_small_fees)
                         "7wallet" ∅))
     = Some (0.3 + 0.2 + 0.1)%float
  /\ (total_fees <$> option_of (Bot.process three_small_fees ∅ "7wallet"))
     = Some (0.1 + 0.2 + 0.3)%float
  /\ (total_fees
        <$> option_of (BotV1.process (with_pool_order reverse_order three_small_fees) ∅
                         "7wallet"))
     = Some (0.3 + 0.2 + 0.1)%float
  /\ (0.1 + 0.2 + 0.3 =? 0.3 + 0.2 + 0.1)%float = false.
Proof. repeat split; vm_compute; reflexivity. Qed.

(** ** The flags of the command-line record *)

Ltac flags_side :=
  intros ? (? & ? & ?); unfold flags_set; cbn; auto.

Lemma fee_loop_flags w address b c pools :
  preserves (flags_set address b c) (Cli.fee_loop w address pools).
Proof.
  induction pools as [|pool rest IH]; cbn [Cli.fee_loop].
  - apply preserves_ret.
  - apply preserves_bind; [apply preserves_lift|intros fees].
    apply preserves_bind; [apply preserves_modify; flags_side|intros _; exact IH].
Qed.

Lemma process_wallet_body_flags w address bl c :
  Cli.check_cnft w address = Ok c ->
  triple (fun r => wallet r = address) (Cli.process_wallet_body w address bl)
    (fun _ => flags_set address (bool_decide (address ∈ bl)) c)
    (flags_set address (bool_decide (address ∈ bl)) c).
Proof.
  intros Hc. unfold Cli.process_wallet_body.
  apply (triple_then _ (fun r => wallet r = address
                                 /\ blacklist r = bool_decide (address ∈ bl))).
  { apply triple_modify. intros r Hr. cbn. auto. }
  apply (triple_bind _ _ _ (fun c' r => c' = c /\ wallet r = address
                                        /\ blacklist r = bool_decide (address ∈ bl))).
  { apply triple_lift; rewrite Hc; [intros a s [= <-]; auto|discriminate]. }
  intros c'.
  apply (triple_then _ (flags_set address (bool_decide (address ∈ bl)) c)).
  { apply triple_modify. intros r (-> & Hw & Hb). unfold flags_set. cbn. auto. }
  match goal with |- triple ?I ?body _ _ => change (preserves I body) end.
  apply preserves_bind; [apply preserves_lift|intros wallet_pubkey].
  apply preserves_bind; [apply preserves_lift|intros all_transactions]. cbn zeta.
  apply preserves_bind; [apply preserves_lift|intros timestamps].
  apply preserves_bind; [preserves_with flags_side|intros _].
  apply preserves_bind; [apply preserves_lift|intros [weeks months]].
  apply preserves_bind; [apply preserves_modify; flags_side|intros _].
  apply preserves_bind; [apply preserves_lift|intros pools].
  apply fee_loop_flags.
Qed.

Lemma cli_flags w address bl :
  exists c r,
    Cli.check_cnft w address = Ok c
    /\ Cli.process_wallet w address bl = Ok r
    /\ flags_set address (bool_decide (address ∈ bl)) c r.
Proof.
  destruct (cli_check_cnft_total w address) as [c Hc]. exists c.
  pose proof (process_wallet_body_flags w address bl c Hc (initial_metrics address) eq_refl) as H.
  unfold Cli.process_wallet. unfold_monads.
  destruct (Cli.process_wallet_body w address bl (initial_metrics address)) as [[[]|e] r];
    cbn [fst]; eauto.
Qed.

(** X21: Whatever fails later, the record of the command-line tool carries the
    address, the blacklist membership and the result of the certificate
    check: the three are written before the first statement that can
    raise, and no later statement touches them. *)
Theorem cli_flags_survive_failures (w : World) (address : string) (bl : gset string) :
  exists c r,
    Cli.check_cnft w address = Ok c
    /\ Cli.process_wallet w address bl = Ok r
    /\ wallet r = address
    /\ blacklist r = bool_decide (address ∈ bl)
    /\ cnft r = c.
Proof.
  destruct (cli_flags w address bl) as (c & r & Hc & Hr & Hw & Hb & Hcn). eauto 10.
Qed.

Lemma activity_loop_raises timestamps :
  ~ Forall in_datetime_range timestamps ->
  forall weeks months, exists e, activity_loop timestamps weeks months = Raise e.
Proof.
  induction timestamps as [|ts rest IH]; intros Hbad weeks months.
  - exfalso. apply Hbad. constructor.
  - cbn [activity_loop]. unfold_monads.
    destruct (decide (in_datetime_range ts)) as [Hin|Hout].
    + rewrite (utcfromtimestamp_in_range ts Hin).
      destruct (isocalendar (gmtime ts)) as [[y week] d]. apply IH.
      intros Hrest. apply Hbad. constructor; assumption.
    + rewrite (utcfromtimestamp_out_of_range ts Hout). eauto.
Qed.

(** X22: A record with a date and no activity: when the least protocol
    timestamp is within the range of [datetime] and another one is beyond
    it, the command-line tool reports the first transaction date, but zero
    active weeks and months, no pool and no fee: the exception of the
    activity count ends the processing after the date was written. *)
Theorem cli_date_without_activity (w : World) (address : string) (bl : gset string)
    (t : Z) (rest : list Z) :
  is_pubkey w address = true ->
  protocol_timestamps w address = t :: rest ->
  in_datetime_range (fold_left Z.min rest t) ->
  ~ Forall in_datetime_range (t :: rest) ->
  exists c,
    Cli.check_cnft w address = Ok c
    /\ Cli.process_wallet w address bl
       = Ok {| wallet := address; total_fees := 0%float; pools_with_fees := 0%nat;
               first_tx := strftime_dmY (gmtime (fold_left Z.min rest t));
               active_weeks := 0%nat; active_months := 0%nat;
               cnft := c; blacklist := bool_decide (address ∈ bl) |}.
Proof.
  intros Hparse Hts Hmin Hbad.
  destruct (cli_check_cnft_total w address) as [c Hc]. exists c. split; [exact Hc|].
  destruct (cli_get_transactions_total w address) as (records & Hrec & Hsome).
  unfold protocol_timestamps in Hts. rewrite Hrec in Hts.
  assert (expect_ints (map snd (Cli.filter_meteora_transactions w records)) = Ok (t :: rest))
    as Hints.
  { rewrite <- Hts. apply expect_ints_records. rewrite filter_meteora_transactions_eq.
    apply Forall_list_filter, Hsome. }
  unfold Cli.process_wallet, Cli.process_wallet_body, Pubkey_from_string.
  unfold_monads. rewrite Hc, Hparse, Hrec, Hints. cbn [py_min].
  rewrite (utcfromtimestamp_in_range _ Hmin).
  unfold Cli.calculate_activity_metrics. unfold_monads.
  destruct (activity_loop_raises _ Hbad ∅ ∅) as [e ->]. reflexivity.
Qed.

Lemma cli_date_without_activity_witness :
  exists c,
    Cli.check_cnft (ledger [1700000000; 253402300800]) "7wallet" = Ok c
    /\ Cli.process_wallet (ledger [1700000000; 253402300800]) "7wallet" {[ "8wallet"%string ]}
       = Ok {| wallet := "7wallet"; total_fees := 0%float; pools_with_fees := 0%nat;
               first_tx := strftime_dmY (gmtime (fold_left Z.min [253402300800] 1700000000));
               active_weeks := 0%nat; active_months := 0%nat;
               cnft := c;
               blacklist :=
                 bool_decide ("7wallet"%string ∈ ({[ "8wallet"%string ]} : gset string)) |}.
Proof.
  refine (cli_date_without_activity (ledger [1700000000; 253402300800]) "7wallet"
            {[ "8wallet"%string ]} 1700000000 [253402300800] _ _ _ _).
  - reflexivity.
  - vm_compute. reflexivity.
  - unfold in_datetime_range; vm_compute; split; discriminate.
  - intros H. inversion H as [|? ? _ H']. inversion H' as [|? ? [_ Hle] _].
    vm_compute in Hle. apply Hle. reflexivity.
Defined.

(** ** The blacklist at work *)

(** X23: An address with white space around it is never reported as
    blacklisted, by the command-line tool or by the first bot: the entries
    of the loaded blacklist are stripped, the address looked up is not. *)
Theorem padded_address_is_never_blacklisted (h : Host) (w : World) (address : string) :
  strip address <> address ->
  (address ∉ load_blacklist h)
  /\ (exists r, Cli.process_wallet w address (load_blacklist h) = Ok r /\ blacklist r = false)
  /\ (exists r, BotV1.process w (load_blacklist h) address = Ok r /\ blacklist r = false).
Proof.
  intros Hpad.
  assert (address ∉ load_blacklist h) as Hout.
  { intros Hin. apply Hpad. apply (load_blacklist_stripped h), Hin. }
  split; [exact Hout|]. split.
  - destruct (cli_flags w address (load_blacklist h)) as (c & r & _ & Hr & _ & Hb & _).
    exists r. split; [exact Hr|]. rewrite Hb. apply bool_decide_eq_false_2, Hout.
  - destruct (bot_v1_process_run w (load_blacklist h) address) as (r & p & _ & Hr & _ & Hb & _).
    exists r. split; [exact Hr|]. rewrite Hb. apply bool_decide_eq_false_2, Hout.
Qed.

Lemma padded_address_is_never_blacklisted_witness :
  (" 7wallet"%string ∉ load_blacklist configured_host)
  /\ (exists r, Cli.process_wallet offline " 7wallet" (load_blacklist configured_host) = Ok r
                /\ blacklist r = false)
  /\ (exists r, BotV1.process offline (load_blacklist configured_host) " 7wallet" = Ok r
                /\ blacklist r = false).
Proof. apply padded_address_is_never_blacklisted. vm_compute. discriminate. Defined.

(** ** The certificate check of the first bot *)

Lemma creator_loop_true l :
  BotV1.creator_loop l = Ok true -> existsb Bot.is_target_creator l = true.
Proof.
  induction l as [|creator rest IH]; cbn [BotV1.creator_loop existsb]; [discriminate|].
  unfold_monads. destruct creator as [| | | | |?|kvs]; cbn [py_get]; try discriminate.
  cbn [Bot.is_target_creator].
  destruct (dict_get "address" kvs) as [v|]; cbn [default from_option id].
  - destruct (is_str Bot.CNFT_CREATOR_ADDRESS v); [reflexivity|]. exact IH.
  - cbn [is_str]. exact IH.
Qed.

Lemma creator_loop_strings (l : list string) :
  BotV1.creator_loop (map JStr l) <> Ok true.
Proof. destruct l; cbn; discriminate. Qed.

Lemma has_creator_true item :
  BotV1.has_creator item = Ok true -> has_top_creator item = true.
Proof.
  unfold BotV1.has_creator, has_top_creator. unfold_monads.
  destruct item as [| | | |s|l|kvs]; cbn [py_contains py_getitem field]; try discriminate.
  - destruct (substringb "creators" s); discriminate.
  - destruct (existsb (is_str "creators") l); discriminate.
  - destruct (dict_get "creators" kvs) as [cs|] eqn:E.
    + rewrite bool_decide_eq_true_2 by eauto.
      destruct cs as [| | | |s|l|ckvs]; cbn [py_iter listed]; try discriminate.
      * unfold chars. rewrite <- (map_map (fun c => String c EmptyString) JStr).
        intros H. destruct (creator_loop_strings _ H).
      * apply creator_loop_true.
      * rewrite <- (map_map fst JStr). intros H. destruct (creator_loop_strings _ H).
    + rewrite bool_decide_eq_false_2 by (intros [? ?]; discriminate). discriminate.
Qed.

Lemma v1_check_item_true item :
  BotV1.check_item item = Ok true -> has_top_creator item = true.
Proof.
  unfold BotV1.check_item. unfold_monads.
  destruct (BotV1.has_creator item) as [[]|] eqn:E; try discriminate.
  - intros _. apply has_creator_true, E.
  - destruct (BotV1.nft_name item); discriminate.
Qed.

Lemma v1_scan_items_true items :
  BotV1.scan_items items = Ok true -> existsb has_top_creator items = true.
Proof.
  induction items as [|item rest IH]; cbn [BotV1.scan_items existsb]; [discriminate|].
  unfold_monads. destruct (BotV1.check_item item) as [[]|] eqn:E; try discriminate.
  - intros _. rewrite (v1_check_item_true item E). reflexivity.
  - intros H. rewrite (IH H). apply orb_true_r.
Qed.

Lemma v1_find_certificate_payload w address data items :
  helius_post w 0%nat address = Ok data ->
  payload_items data = Some items ->
  BotV1.find_certificate w address = BotV1.scan_items items.
Proof.
  intros Hpost Hitems.
  destruct (payload_items_inv data items Hitems) as (kvs & rkvs & -> & _ & Hres & Hit).
  unfold BotV1.find_certificate. unfold_monads. rewrite Hpost.
  cbn [py_contains py_get py_getitem]. rewrite Hres.
  rewrite bool_decide_eq_true_2 by eauto.
  cbn [negb default from_option id py_contains py_getitem].
  rewrite Hit. rewrite bool_decide_eq_true_2 by eauto. cbn [negb py_iter].
  destruct (BotV1.scan_items items); reflexivity.
Qed.

(** X24: On a well-formed answer of the asset search, a wallet that the first
    bot takes for a holder of the certificate is one for the third bot
    too: what the first bot finds is an asset with the creator at top
    level, which alone satisfies the third. *)
Theorem first_bot_holder_is_third_bot_holder (w : World) (address : string) (data : json)
    (items : list json) :
  helius_post w 0%nat address = Ok data ->
  payload_items data = Some items ->
  forallb plain_asset items = true ->
  BotV1.find_certificate w address = Ok true ->
  existsb has_top_creator items = true
  /\ exists p',
       Bot.check_cnft w (Bot.new_processor address) = (Ok tt, p')
       /\ cnft (Bot.result p') = true.
Proof.
  intros Hpost Hitems Hplain Hfound.
  rewrite (v1_find_certificate_payload w address data items Hpost Hitems) in Hfound.
  pose proof (v1_scan_items_true items Hfound) as Htop. split; [exact Htop|].
  destruct (bot_check_cnft_plain w address data items Hpost Hitems Hplain) as (p' & Hrun & Hc).
  exists p'. split; [exact Hrun|]. rewrite Hc, holds_certificate_split, Htop.
  apply orb_true_r.
Qed.

Lemma first_bot_holder_is_third_bot_holder_witness :
  existsb has_top_creator [certificate_item] = true
  /\ exists p',
       Bot.check_cnft certificate_holder (Bot.new_processor "7wallet") = (Ok tt, p')
       /\ cnft (Bot.result p') = true.
Proof.
  apply (first_bot_holder_is_third_bot_holder certificate_holder "7wallet"
           (JDict [("result", JDict [("items", JList [certificate_item])])])
           [certificate_item]);
    reflexivity.
Defined.

(** ** The progress of a finished task *)

Lemma int_truediv_diag t :
  0 < t -> Binary64.int_truediv t t = Ok (Binary64.Finite (2 ^ 52) (-52)).
Proof.
  intros Ht. unfold Binary64.int_truediv.
  destruct (Z.eqb_spec t 0) as [|_]; [lia|].
  destruct (Z.ltb_spec 0 t) as [_|]; [|lia].
  unfold Binary64.round64. destruct (Z.eqb_spec t 0) as [|_]; [lia|].
  rewrite (Z.abs_eq t) by lia.
  unfold Binary64.round_pos, Binary64.ilog2_frac. rewrite Z.sub_diag.
  cbn [Binary64.shift_frac Z.leb Z.compare]. rewrite Z.pow_0_r, Z.mul_1_r, Z.leb_refl.
  change (Z.max 0 (-1022) - 52) with (-52).
  unfold Binary64.shift_frac. cbn [Z.leb Z.compare Z.opp].
  unfold Binary64.round_half_even.
  rewrite (Z.mul_comm t), Z.div_mul, Z.mod_mul by lia.
  destruct (Z.ltb_spec (2 * 0) t) as [_|]; [|lia].
  cbn [Z.leb Z.compare andb]. rewrite Z.sgn_pos by lia. reflexivity.
Qed.

(** X25: A finished task shows 100 per cent, or 0 when it has nothing to count:
    whenever [current] equals [total], as [complete] makes it and as the last
    step of each loop leaves it, [percent] is 100 for a positive [total] and
    0 otherwise, whatever the size of [total]. *)
Theorem percent_of_finished_task (t : Bot.TaskProgress) :
  Bot.percent (Bot.complete t) = Ok (if 0 <? Bot.total t then 100 else 0)
  /\ Bot.percent (Bot.update (Bot.total t) t) = Ok (if 0 <? Bot.total t then 100 else 0).
Proof.
  assert (forall t', Bot.current t' = Bot.total t' ->
            Bot.percent t' = Ok (if 0 <? Bot.total t' then 100 else 0)) as H.
  { intros t' E. unfold Bot.percent. rewrite E.
    destruct (Z.leb_spec (Bot.total t') 0) as [Hle|Hlt].
    - destruct (Z.ltb_spec 0 (Bot.total t')); [lia|reflexivity].
    - destruct (Z.ltb_spec 0 (Bot.total t')); [|lia].
      unfold_monads. rewrite (int_truediv_diag _ Hlt). vm_compute. reflexivity. }
  split; [exact (H (Bot.complete t) eq_refl)|exact (H (Bot.update (Bot.total t) t) eq_refl)].
Qed.

(** ** The pools the bots query *)

Lemma triple_of_run {S A} (P : S -> Prop) (c : stm S A) (Q : A -> S -> Prop) (R : S -> Prop) :
  (forall s, P s -> exists a s', c s = (Ok a, s') /\ Q a s') -> triple P c Q R.
Proof. intros H s Hs. destruct (H s Hs) as (a & s' & -> & Hq). exact Hq. Qed.

Ltac field_side := intros ? ?; cbn; auto.

Section Pools.

Variable w : World.
Variable address : string.
Variable records : list TransactionRecord.
Hypothesis parses : is_pubkey w address = true.
Hypothesis fetched : Cli.get_transactions w address = Ok records.

Lemma get_transactions_fetches :
  triple (fun p => Bot.wallet_address p = address /\ Bot.transactions p = [])
    (Bot.get_transactions w) (fun _ p => Bot.transactions p = records) (fun _ => True).
Proof.
  intros p [Ha Ht]. revert fetched.
  unfold Bot.get_transactions, Cli.get_transactions, Pubkey_from_string. unfold_bot.
  cbn [Bot.wallet_address Bot.set_tasks]. rewrite Ha, parses.
  destruct (get_signatures_for_address w address) as [value|e]; cbn.
  - intros [= <-]. reflexivity.
  - intros [= <-]. exact Ht.
Qed.

Lemma filter_keeps_protocol_records :
  triple (fun p => Bot.transactions p = records)
    (Bot.filter_meteora_transactions w)
    (fun _ p => Bot.meteora_transactions p = Cli.filter_meteora_transactions w records)
    (fun _ => True).
Proof.
  apply triple_of_run. intros p Hp.
  destruct (bot_filter_stage w p) as (p' & Hrun & Hm & _).
  exists tt, p'. split; [exact Hrun|]. rewrite Hm, Hp. symmetry.
  apply filter_meteora_transactions_eq.
Qed.

Lemma extract_collects_candidates X :
  triple (fun p => Bot.meteora_transactions p = X)
    (Bot.extract_pool_addresses w)
    (fun _ p =>
       Bot.pool_addresses p
       = list_of_set (pool_order w)
           (list_to_set
              (concat (map (fun r : TransactionRecord => fetched_pools w (fst r)) X))))
    (fun _ => True).
Proof.
  apply triple_of_run. intros p Hp. unfold Bot.extract_pool_addresses. unfold_bot.
  match goal with
  | |- context [Bot.extract_loop w ?l ?i ?u ?s] =>
      destruct (bot_extract_loop w l i u s) as (p' & -> & _)
  end.
  eexists tt, _. split; [reflexivity|].
  cbn [Bot.pool_addresses Bot.set_tasks Bot.set_pool_addresses Bot.meteora_transactions].
  rewrite (right_id_L ∅ (∪)), Hp. reflexivity.
Qed.

Lemma timestamps_keep_records X :
  preserves (fun p => Bot.meteora_transactions p = X) Bot.process_timestamps.
Proof. unfold Bot.process_timestamps. preserves_with field_side. Qed.

Lemma activity_keeps_records X :
  preserves (fun p => Bot.meteora_transactions p = X) Bot.calculate_activity_metrics.
Proof. unfold Bot.calculate_activity_metrics. preserves_with field_side. Qed.

Lemma fees_keep_pools Y :
  preserves (fun p => Bot.pool_addresses p = Y) (Bot.get_pool_fees w).
Proof.
  unfold Bot.get_pool_fees. preserves_with field_side.
  apply (fees_loop_preserves w (fun p => Bot.pool_addresses p = Y)); intros ?; field_side.
Qed.

Lemma first_stages_keep_address bl :
  preserves (fun p => Bot.wallet_address p = address /\ Bot.transactions p = [])
    (Bot.check_blacklist bl)
  /\ preserves (fun p => Bot.wallet_address p = address /\ Bot.transactions p = [])
       (BotV1.check_cnft w)
  /\ preserves (fun p => Bot.wallet_address p = address /\ Bot.transactions p = [])
       (Bot.check_cnft w).
Proof.
  split; [|split].
  - unfold Bot.check_blacklist. preserves_with field_side.
  - unfold BotV1.check_cnft. preserves_with field_side.
  - unfold Bot.check_cnft.
    assert (forall remaining retry_count,
              preserves (fun p => Bot.wallet_address p = address /\ Bot.transactions p = [])
                (Bot.cnft_loop w remaining retry_count)) as Hloop.
    { induction remaining as [|remaining IH]; intros retry_count; cbn [Bot.cnft_loop].
      - apply preserves_ret.
      - apply preserves_bind; [apply preserves_get|intros p].
        apply preserves_bind; [apply preserves_lift|intros r].
        destruct r; [preserves_with field_side|apply preserves_ret|apply IH]. }
    apply preserves_bind; [preserves_with field_side|intros ?].
    apply preserves_bind; [preserves_with field_side|intros ?].
    apply preserves_bind; [apply Hloop|intros [returned retry_count]].
    preserves_with field_side.
Qed.

(** From [get_transactions] on: the pools of the processor at the end are
    the candidates of all protocol transactions. *)
Lemma later_stages_pools :
  triple (fun p => Bot.wallet_address p = address /\ Bot.transactions p = [])
    (Bot.get_transactions w;;
     Bot.filter_meteora_transactions w;;
     Bot.process_timestamps;;
     Bot.calculate_activity_metrics;;
     Bot.extract_pool_addresses w;;
     Bot.get_pool_fees w;;
     p ← get_state;
     mret (Bot.result p))
    (fun _ p =>
       Bot.pool_addresses p
       = list_of_set (pool_order w)
           (list_to_set
              (concat (map (fun r : TransactionRecord => fetched_pools w (fst r))
                           (Cli.filter_meteora_transactions w records)))))
    (fun _ => True).
Proof.
  set (X := Cli.filter_meteora_transactions w records).
  set (Y := list_of_set _ _).
  apply (triple_then _ (fun p => Bot.transactions p = records));
    [apply get_transactions_fetches|].
  apply (triple_then _ (fun p => Bot.meteora_transactions p = X));
    [apply filter_keeps_protocol_records|].
  apply (triple_then _ (fun p => Bot.meteora_transactions p = X));
    [eapply triple_conseq; [apply (timestamps_keep_records X)|auto..]|].
  apply (triple_then _ (fun p => Bot.meteora_transactions p = X));
    [eapply triple_conseq; [apply (activity_keeps_records X)|auto..]|].
  apply (triple_then _ (fun p => Bot.pool_addresses p = Y));
    [apply extract_collects_candidates|].
  apply (triple_then _ (fun p => Bot.pool_addresses p = Y));
    [eapply triple_conseq; [apply (fees_keep_pools Y)|auto..]|].
  apply (triple_bind _ _ _ (fun _ p => Bot.pool_addresses p = Y));
    [apply triple_get; auto|intros p].
  apply triple_ret. auto.
Qed.

Lemma queried_pools_are_candidates pool :
  pool ∈ queried_pools w address ->
  pool ∈ list_of_set (pool_order w)
           (list_to_set
              (concat (map (fun r : TransactionRecord => fetched_pools w (fst r))
                           (Cli.filter_meteora_transactions w records)))).
Proof.
  unfold queried_pools. rewrite fetched. rewrite !elem_of_list_of_set, !elem_of_list_to_set.
  intros H. apply list_elem_of_In in H. apply list_elem_of_In.
  induction (Cli.filter_meteora_transactions w records) as [|r rest IH];
    [contradiction|].
  cbn [omap list_omap map concat] in *. apply in_or_app.
  destruct (fetched_pools w (fst r)) as [|x xs]; cbn [head] in H.
  - right. apply IH. exact H.
  - destruct H as [<-|H]; [left; left; reflexivity|right; apply IH; exact H].
Qed.

End Pools.

(** X26: Every pool the command-line tool queries for a wallet is queried by the
    bots too: the tool takes one pool per protocol transaction, the first
    one it finds; the bots take the pool of every instruction of the
    program. *)
Theorem bots_query_the_pools_of_the_cli (w : World) (bl : gset string) (address : string) :
  is_pubkey w address = true ->
  (exists r p,
      BotV1.process_stages w bl (Bot.new_processor address) = (Ok r, p)
      /\ forall pool, pool ∈ queried_pools w address -> pool ∈ Bot.pool_addresses p)
  /\ (forall r p,
        Bot.process_stages w bl (Bot.new_processor address) = (Ok r, p) ->
        forall pool, pool ∈ queried_pools w address -> pool ∈ Bot.pool_addresses p).
Proof.
  intros Hparse.
  destruct (cli_get_transactions_total w address) as (records & Hrec & _).
  destruct (first_stages_keep_address w address bl) as (K1 & K2 & K3).
  pose proof (later_stages_pools w address records Hparse Hrec) as L.
  unfold preserves in K1, K2, K3.
  assert (forall check : stm Bot.WalletProcessor unit,
            triple (fun p => Bot.wallet_address p = address /\ Bot.transactions p = [])
              check (fun _ p => Bot.wallet_address p = address /\ Bot.transactions p = [])
              (fun p => Bot.wallet_address p = address /\ Bot.transactions p = []) ->
            triple (fun p => Bot.wallet_address p = address /\ Bot.transactions p = [])
              (Bot.check_blacklist bl;;
               check;;
               Bot.get_transactions w;;
               Bot.filter_meteora_transactions w;;
               Bot.process_timestamps;;
               Bot.calculate_activity_metrics;;
               Bot.extract_pool_addresses w;;
               Bot.get_pool_fees w;;
               p ← get_state;
               mret (Bot.result p))
              (fun _ p => forall pool, pool ∈ queried_pools w address ->
                                       pool ∈ Bot.pool_addresses p)
              (fun _ => True)) as H.
  { intros check K.
    apply (triple_then _ (fun p => Bot.wallet_address p = address /\ Bot.transactions p = []));
      [eapply triple_conseq; [exact K1|auto..]|].
    apply (triple_then _ (fun p => Bot.wallet_address p = address /\ Bot.transactions p = []));
      [eapply triple_conseq; [exact K|auto..]|].
    eapply triple_conseq; [exact L|auto..].
    intros ? p Hp pool Hpool. rewrite Hp.
    apply (queried_pools_are_candidates w address records Hrec), Hpool. }
  split.
  - destruct (bot_v1_process_run w bl address) as (r & p & Hrun & _).
    exists r, p. split; [exact Hrun|].
    specialize (H (BotV1.check_cnft w) K2 (Bot.new_processor address) (conj eq_refl eq_refl)).
    unfold BotV1.process_stages in Hrun. rewrite Hrun in H. exact H.
  - intros r p Hrun.
    specialize (H (Bot.check_cnft w) K3 (Bot.new_processor address) (conj eq_refl eq_refl)).
    unfold Bot.process_stages in Hrun. rewrite Hrun in H. exact H.
Qed.

Lemma bots_query_the_pools_of_the_cli_witness :
  (exists r p,
      BotV1.process_stages two_pools_one_transaction ∅ (Bot.new_processor "7wallet")
      = (Ok r, p)
      /\ forall pool, pool ∈ queried_pools two_pools_one_transaction "7wallet" ->
                      pool ∈ Bot.pool_addresses p)
  /\ (forall r p,
        Bot.process_stages two_pools_one_transaction ∅ (Bot.new_processor "7wallet")
        = (Ok r, p) ->
        forall pool, pool ∈ queried_pools two_pools_one_transaction "7wallet" ->
                     pool ∈ Bot.pool_addresses p).
Proof. apply bots_query_the_pools_of_the_cli. reflexivity. Defined.

(** The converse fails: for a transaction with two instructions of the
    program the tool queries one pool and the bots two. *)
Example the_bots_query_more_pools :
  queried_pools two_pools_one_transaction "7wallet" = ["pool1"%string]
  /\ Bot.pool_addresses
       (snd (BotV1.process_stages two_pools_one_transaction ∅ (Bot.new_processor "7wallet")))
     = ["pool1"; "pool2"]%string.
Proof. split; vm_compute; reflexivity. Qed.

(** ** A wallet whose address does not parse, in the first bot *)

(** X27: When the address does not parse as a public key, [process] of the first
    bot returns the default record but for the two flags; the certificate
    flag is set exactly when the asset search found the certificate, the
    task of [get_transactions] has failed, and no pool is queried. *)
Theorem bot_v1_unparsable_address (w : World) (bl : gset string) (address : string) :
  is_pubkey w address = false ->
  exists c,
    BotV1.process w bl address
    = Ok {| wallet := address; total_fees := 0%float; pools_with_fees := 0%nat;
            first_tx := "N/A"; active_weeks := 0%nat; active_months := 0%nat;
            cnft := c; blacklist := bool_decide (address ∈ bl) |}
    /\ (c = true <-> BotV1.find_certificate w address = Ok true)
    /\ Bot.status <$> (Bot.tasks (snd (BotV1.process_stages w bl (Bot.new_processor address)))
                         !! "get_transactions"%string) = Some "failed"%string
    /\ Bot.pool_addresses (snd (BotV1.process_stages w bl (Bot.new_processor address))) = [].
Proof.
  intros Hparse.
  unfold BotV1.process, BotV1.process_stages, Bot.check_blacklist, BotV1.check_cnft,
    Bot.get_transactions, Bot.filter_meteora_transactions, Bot.process_timestamps,
    Bot.calculate_activity_metrics, Bot.extract_pool_addresses, Bot.get_pool_fees,
    Pubkey_from_string.
  unfold_bot.
  cbn [Bot.wallet_address Bot.set_tasks Bot.set_result Bot.new_processor].
  destruct (BotV1.find_certificate w address) as [[]|e];
    cbn [Bot.wallet_address Bot.set_tasks Bot.set_result Bot.new_processor];
    rewrite Hparse;
    cbn -[alter bool_decide list_of_set Bot.fees_loop];
    rewrite (list_of_set_empty (pool_order w) ∅ eq_refl).
  - exists true. split; [vm_compute; reflexivity|]. split; [tauto|].
    split; vm_compute; reflexivity.
  - exists false. split; [vm_compute; reflexivity|]. split; [split; discriminate|].
    split; vm_compute; reflexivity.
  - exists false. split; [vm_compute; reflexivity|]. split; [split; discriminate|].
    split; vm_compute; reflexivity.
Qed.

Lemma bot_v1_unparsable_address_witness :
  exists c,
    BotV1.process unparsable {[ "not-a-key"%string ]} "not-a-key"
    = Ok {| wallet := "not-a-key"; total_fees := 0%float; pools_with_fees := 0%nat;
            first_tx := "N/A"; active_weeks := 0%nat; active_months := 0%nat;
            cnft := c;
            blacklist :=
              bool_decide ("not-a-key"%string ∈ ({[ "not-a-key"%string ]} : gset string)) |}
    /\ (c = true <-> BotV1.find_certificate unparsable "not-a-key" = Ok true)
    /\ Bot.status <$> (Bot.tasks (snd (BotV1.process_stages unparsable {[ "not-a-key"%string ]}
                                         (Bot.new_processor "not-a-key")))
                         !! "get_transactions"%string) = Some "failed"%string
    /\ Bot.pool_addresses (snd (BotV1.process_stages unparsable {[ "not-a-key"%string ]}
                                  (Bot.new_processor "not-a-key"))) = [].
Proof.
  refine (bot_v1_unparsable_address unparsable {[ "not-a-key"%string ]} "not-a-key" _).
  reflexivity.
Defined.

(** ** The start-up code on an example host *)

Example configured_host_starts :
  load_api_endpoints configured_host "RPC_URL.txt"
  = Ok ["https://rpc-a.example"; "https://rpc-b.example"]%string
  /\ load_api_endpoints configured_host "HELIUS_API_KEY.txt" = Ok ["key-a"; "key-b"]%string
  /\ load_api_endpoints configured_host "OTHER.txt" = Raise ValueError
  /\ elements (load_blacklist configured_host) = ["7wallet"; "8wallet"]%string
  /\ generate_filename configured_host = Some "Meteora_20240229_1.csv"%string.
Proof. repeat split; vm_compute; reflexivity. Qed.

Example wallets_of_a_message :
  handle_wallets ("  7wallet " +:+ String "009" "" +:+ " 8wallet" +:+ String "010" "")
  = (Some ["7wallet"; "8wallet"]%string,
     "Found 2 wallet(s). Please select output format:"%string).
Proof. vm_compute. reflexivity. Qed.

Example two_users_three_calls :
  fst (ApiManager.endpoints_for_batch [1700000000; 1700000060; 1700000120]%float 7
         two_endpoints)
  = Ok [("https://rpc-a.example", "key-a"); ("https://rpc-b.example", "key-b");
        ("https://rpc-a.example", "key-a")]%string.
Proof. vm_compute. reflexivity. Qed.

(** ** Bounds of the activity counts *)

Lemma remove_dups_length {A} `{EqDecision A} (l : list A) :
  (length (remove_dups l) <= length l)%nat.
Proof.
  induction l as [|x l IH]; simpl; [lia|]. destruct (decide_rel elem_of x l); simpl; lia.
Qed.

Lemma remove_dups_not_nil {A} `{EqDecision A} (l : list A) :
  l <> [] -> (1 <= length (remove_dups l))%nat.
Proof.
  induction l as [|x l IH]; intros Hne; [contradiction|]. simpl.
  destruct (decide_rel elem_of x l) as [Hin|]; simpl; [|lia].
  apply IH. intros ->. inversion Hin.
Qed.

(** X28: The activity counts are bounded by the transactions: for timestamps
    within the range of [datetime], neither the number of active weeks nor
    that of active months exceeds the number of timestamps, and both are at
    least 1 as soon as there is a timestamp. *)
Theorem activity_counts_are_bounded (timestamps : list Z) :
  Forall in_datetime_range timestamps ->
  exists weeks months,
    Cli.calculate_activity_metrics timestamps = Ok (weeks, months)
    /\ (weeks <= length timestamps)%nat
    /\ (months <= length timestamps)%nat
    /\ (timestamps <> [] -> (1 <= weeks)%nat /\ (1 <= months)%nat).
Proof.
  intros Hrange. rewrite (calculate_activity_metrics_spec timestamps Hrange).
  eexists _, _. split; [reflexivity|].
  split; [|split].
  - etransitivity; [apply remove_dups_length|]. rewrite length_map. reflexivity.
  - etransitivity; [apply remove_dups_length|]. rewrite length_map. reflexivity.
  - intros Hne. split; apply remove_dups_not_nil; destruct timestamps; try contradiction;
      discriminate.
Qed.

Lemma activity_counts_are_bounded_witness :
  exists weeks months,
    Cli.calculate_activity_metrics [1700000000; 1700003600; 1650000000] = Ok (weeks, months)
    /\ (weeks <= length [1700000000; 1700003600; 1650000000]%Z)%nat
    /\ (months <= length [1700000000; 1700003600; 1650000000]%Z)%nat
    /\ ([1700000000; 1700003600; 1650000000] <> [] -> (1 <= weeks)%nat /\ (1 <= months)%nat).
Proof.
  apply activity_counts_are_bounded.
  repeat constructor; vm_compute; discriminate.
Defined.
